(** * Salesforce debug-log downloader: retrieval, search and download pipeline

    A shallow embedding of [salesforce-client.ts], [log-search.ts] and
    [file-utils.ts].  JavaScript numbers that hold counts, offsets and
    limits are integers of [Z]; strings are sequences of 8-bit characters
    (ASCII text); the HTTP client, the file system and the clock are
    oracles gathered in a [World], and every call to them is recorded in
    an event trace. *)

From Stdlib Require Import ZArith Ascii String List Sorted Lia.
From stdpp Require Import base option list strings pretty gmap.

Local Open Scope string_scope.
Local Open Scope list_scope.
Local Open Scope Z_scope.

#[local] Arguments String.append !_ _ /.

(** ** JavaScript string primitives *)

Module JsString.

Definition LF : ascii := Ascii.ascii_of_nat 10.

(** [s.split('\n')]: the pieces between line feeds; never empty. *)
Fixpoint split_lines (s : string) : list string :=
  match s with
  | EmptyString => [EmptyString]
  | String c s' =>
      if Ascii.eqb c LF then EmptyString :: split_lines s'
      else match split_lines s' with
           | [] => [String c EmptyString]
           | l :: ls => String c l :: ls
           end
  end.

(** [lines.join('\n')], the inverse of [split_lines]. *)
Fixpoint join_lines (ls : list string) : string :=
  match ls with
  | [] => EmptyString
  | [l] => l
  | l :: ls' => l +:+ String LF (join_lines ls')
  end.

Definition lower_char (c : ascii) : ascii :=
  let n := N_of_ascii c in
  if ((65 <=? n) && (n <=? 90))%N then ascii_of_N (n + 32) else c.

(** [s.toLowerCase()] on ASCII text. *)
Fixpoint toLowerCase (s : string) : string :=
  match s with
  | EmptyString => EmptyString
  | String c s' => String (lower_char c) (toLowerCase s')
  end.

(** White space and line terminators removed by [trim]:
    TAB, LF, VT, FF, CR and SPACE. *)
Definition is_space (c : ascii) : bool :=
  let n := N_of_ascii c in
  (((9 <=? n) && (n <=? 13)) || (n =? 32))%N.

Fixpoint trimStart (s : string) : string :=
  match s with
  | EmptyString => EmptyString
  | String c s' => if is_space c then trimStart s' else s
  end.

Fixpoint trimEnd (s : string) : string :=
  match s with
  | EmptyString => EmptyString
  | String c s' =>
      match trimEnd s' with
      | EmptyString => if is_space c then EmptyString else String c EmptyString
      | r => String c r
      end
  end.

(** [s.trim()] *)
Definition trim (s : string) : string := trimEnd (trimStart s).

(** [s.includes(p)]: [p] occurs somewhere in [s]. *)
Fixpoint includes (s p : string) : bool :=
  String.prefix p s ||
  match s with
  | EmptyString => false
  | String _ s' => includes s' p
  end.

(** What "contains as a substring" means. *)
Definition is_substring (p s : string) : Prop :=
  exists before after, s = before +:+ p +:+ after.

(** [s.substring(0, n)] *)
Definition substring0 (n : nat) (s : string) : string := String.substring 0 n s.

Definition is_alnum (c : ascii) : bool :=
  let n := N_of_ascii c in
  (((48 <=? n) && (n <=? 57)) || ((65 <=? n) && (n <=? 90))
   || ((97 <=? n) && (n <=? 122)))%N.

(** [s.replace(/[^a-zA-Z0-9]/g, '_')] *)
Fixpoint sanitize (s : string) : string :=
  match s with
  | EmptyString => EmptyString
  | String c s' =>
      String (if is_alnum c then c else "_"%char) (sanitize s')
  end.

(** Truthiness of an optional string: [undefined] and [''] are falsy. *)
Definition truthy_str (o : option string) : bool :=
  match o with
  | Some s => negb (String.eqb s EmptyString)
  | None => false
  end.

(** Truthiness of an optional integer: [undefined] and [0] are falsy. *)
Definition truthy_num (o : option Z) : bool :=
  match o with
  | Some n => negb (Z.eqb n 0)
  | None => false
  end.

(** Truthiness of an optional boolean flag. *)
Definition truthy_flag (o : option bool) : bool := default false o.

End JsString.
Import JsString.

(** ** Data model ([types.ts]) *)

Record DebugLog := {
  Id : string;
  LogUserId : string;
  LogLength : Z;
  LastModifiedDate : string;
  Request : string;
  Operation : string;
  Application : string;
  Status : string;
  DurationMilliseconds : Z;
  StartTime : string;
  Location : string
}.

Record LogMatch := {
  lineNumber : Z;
  line : string;
  context : list string
}.

Record SearchResult := {
  log : DebugLog;
  matches : list LogMatch
}.

Record SearchOptions := {
  searchText : string;
  caseSensitive : option bool;
  maxResults : option Z;
  dateFrom : option string;
  dateTo : option string;
  userId : option string
}.

Record DownloadOptions := {
  outputDir : string;
  includeMetadata : option bool;
  createSummary : option bool;
  verbose : option bool
}.

Record DownloadResult := {
  dr_searchText : string;
  totalLogsSearched : Z;
  matchingLogs : Z;
  downloadedLogs : Z;
  failedDownloads : list string;
  downloadPath : string;
  estimatedSize : Z
}.

(** ** Line search ([LogSearcher.searchInLogBody], [LogSearcher.getContext]) *)

(** [lines[i]] for an index the loops keep in range. *)
Definition line_at (lines : list string) (i : Z) : string :=
  default EmptyString (lines !! Z.to_nat i).

(** [`${i + 1}: ${lines[i].trim()}`] *)
Definition context_entry (lines : list string) (i : Z) : string :=
  pretty (i + 1) +:+ ": " +:+ trim (line_at lines i).

(** The [for (let i = start; i <= end; i++)] loop pushes every line of
    the window but the matched one. *)
Definition getContext (lines : list string) (matchIndex contextLines : Z)
  : list string :=
  let start := Z.max 0 (matchIndex - contextLines) in
  let end_ := Z.min (Z.of_nat (length lines) - 1) (matchIndex + contextLines) in
  fold_left
    (fun context i =>
       if negb (Z.eqb i matchIndex) then context ++ [context_entry lines i]
       else context)
    (seqZ start (end_ - start + 1)) [].

(** The indexed lines [forEach] visits: [(index, line)] in order. *)
Definition indexed (lines : list string) : list (Z * string) :=
  zip (seqZ 0 (Z.of_nat (length lines))) lines.

Definition searchInLogBody (logBody searchText : string)
    (caseSensitive : option bool) : list LogMatch :=
  let cs := default false caseSensitive in
  let lines := split_lines logBody in
  let searchPattern := if cs then searchText else toLowerCase searchText in
  fold_left
    (fun matches '(index, line) =>
       let searchLine := if cs then line else toLowerCase line in
       if includes searchLine searchPattern
       then matches ++ [{| lineNumber := index + 1;
                           line := trim line;
                           context := getContext lines index 2 |}]
       else matches)
    (indexed lines) [].

Definition scenario_body : string :=
  "a" +:+ String LF ("FOO" +:+ String LF ("b" +:+ String LF ("c" +:+ String LF
  ("d" +:+ String LF ("FOO" +:+ String LF "e"))))).

Example scenario_search :
  searchInLogBody scenario_body "foo" None =
  [ {| lineNumber := 2; line := "FOO"; context := ["1: a"; "3: b"; "4: c"] |};
    {| lineNumber := 6; line := "FOO"; context := ["4: c"; "5: d"; "7: e"] |} ].
Proof. vm_compute. reflexivity. Qed.

(** ** Effects: outcomes, events and the world *)

(** A SOQL query on [ApexLog] as issued to [/tooling/query/]: the fixed
    field list and [ORDER BY LastModifiedDate DESC] are left out, the
    [WHERE] clause, [LIMIT] and [OFFSET] are what varies. *)
Record SoqlQuery := {
  q_where : string;
  q_limit : Z;
  q_offset : option Z
}.

(** The [log] object of a metadata sidecar. *)
Record MetadataLog := {
  md_id : string;
  md_userId : string;
  md_lastModified : string;
  md_operation : string;
  md_application : string;
  md_status : string;
  md_duration : Z;
  md_startTime : string;
  md_location : string;
  md_logLength : Z
}.

Record Metadata := {
  md_log : MetadataLog;
  md_downloadedAt : string;
  md_matches : list LogMatch
}.

Record SummaryStatistics := {
  st_totalLogsSearched : Z;
  st_logsWithMatches : Z;
  st_logsDownloaded : Z;
  st_downloadsFailed : Z
}.

Record Summary := {
  sm_searchText : string;
  sm_timestamp : string;
  sm_statistics : SummaryStatistics;
  sm_failedDownloads : list (string * string)
}.

(** What [fs.writeFile] is given: a log body, or the object handed to
    [JSON.stringify]. *)
Inductive FileContent :=
| LogText (body : string)
| MetadataJson (m : Metadata)
| SummaryJson (s : Summary).

Inductive Event :=
| EvQuery (q : SoqlQuery)
| EvBody (logId : string)
| EvSleep (ms : Z)
| EvWarn (msg : string)
| EvExists (path : string)
| EvMkdir (path : string)
| EvWrite (path : string) (content : FileContent).

(** The collaborators.  A request or a write answers with its result or
    with the error it fails with. *)
Record World := {
  http_query : SoqlQuery -> string + list DebugLog;
  http_body : string -> string + string;
  fs_exists : string -> bool;
  fs_mkdir : string -> option string;
  fs_write : string -> FileContent -> option string;
  clock_now : string;
  moment_format : string -> string;
  path_join : string -> string -> string;
  path_dirname : string -> string;
  format_bytes : Z -> string
}.

Inductive Outcome (A : Type) :=
| Ok (a : A)
| Throw (error : string)
| OutOfFuel.
Arguments Ok {A} a.
Arguments Throw {A} error.
Arguments OutOfFuel {A}.

(** A computation: the events it caused, in order, and how it ended. *)
Definition M (A : Type) : Type := list Event * Outcome A.

Definition ret {A} (a : A) : M A := ([], Ok a).
Definition throw {A} (error : string) : M A := ([], Throw error).
Definition out_of_fuel {A} : M A := ([], OutOfFuel).
Definition emit (e : Event) : M unit := ([e], Ok tt).

(** An error travels as the text [`${error}`] gives for it; for
    [new Error(message)] that is the message after ["Error: "]. *)
Definition new_Error (message : string) : string := "Error: " +:+ message.

Definition bind {A B} (m : M A) (f : A -> M B) : M B :=
  match m with
  | (t, Ok a) => let '(t', r) := f a in (t ++ t', r)
  | (t, Throw e) => (t, Throw e)
  | (t, OutOfFuel) => (t, OutOfFuel)
  end.

(** [try { m } catch (error) { h error }] *)
Definition try_catch {A} (m : M A) (h : string -> M A) : M A :=
  match m with
  | (t, Throw e) => let '(t', r) := h e in (t ++ t', r)
  | _ => m
  end.

Notation "x <- m ;; k" := (bind m (fun x => k))
  (at level 100, m at next level, right associativity).
Notation "m ;;; k" := (bind m (fun _ => k))
  (at level 100, right associativity).

Definition trace {A} (m : M A) : list Event := fst m.
Definition outcome {A} (m : M A) : Outcome A := snd m.

(** [for (const x of xs) { acc = body acc x }] *)
Fixpoint for_each {A St} (body : St -> A -> M St) (xs : list A) (acc : St)
  : M St :=
  match xs with
  | [] => ret acc
  | x :: xs' => acc' <- body acc x ;; for_each body xs' acc'
  end.

(** [await Promise.all(xs.map(f))], the requests taken in list order.
    Each element is run to its end before the next one starts, so
    what an element logs after its request stands before the request
    of the next element, where the program starts every element of
    the list before any of them resumes.  The values returned, the
    requests and their order are the same either way. *)
Fixpoint promise_all {A B} (f : A -> M B) (xs : list A) : M (list B) :=
  match xs with
  | [] => ret []
  | x :: xs' => y <- f x ;; ys <- promise_all f xs' ;; ret (y :: ys)
  end.

Definition len {A} (l : list A) : Z := Z.of_nat (length l).

(** [xs.slice(i, j)] for [0 <= i <= j]. *)
Definition slice {A} (xs : list A) (i j : Z) : list A :=
  take (Z.to_nat (j - i)) (drop (Z.to_nat i) xs).

(** ** [SalesforceClient] *)

Section Client.
Context (w : World).

(** [this.client.get('/tooling/query/', { params: { q } })] followed
    by [response.data.records]. *)
Definition client_query (q : SoqlQuery) : M (list DebugLog) :=
  emit (EvQuery q) ;;;
  match http_query w q with
  | inl e => throw e
  | inr records => ret records
  end.

Definition client_body (logId : string) : M string :=
  emit (EvBody logId) ;;;
  match http_body w logId with
  | inl e => throw e
  | inr data => ret data
  end.

Definition getDebugLogs (limit : option Z) : M (list DebugLog) :=
  let limit := default 100 limit in
  try_catch
    (client_query {| q_where := ""; q_limit := limit; q_offset := None |})
    (fun error => throw (new_Error ("Failed to retrieve debug logs: " +:+ error))).

Definition getDebugLogBody (logId : string) : M string :=
  try_catch (client_body logId)
    (fun error => throw (new_Error ("Failed to retrieve debug log body for ID "
                         +:+ logId +:+ ": " +:+ error))).

(** The [WHERE] clause of the date-range queries. *)
Definition date_where (dateFrom dateTo : option string) : string :=
  if truthy_str dateFrom || truthy_str dateTo then
    let conditions :=
      (if truthy_str dateFrom
       then ["LastModifiedDate >= " +:+ default "" dateFrom] else [])
      ++ (if truthy_str dateTo
          then ["LastModifiedDate <= " +:+ default "" dateTo] else []) in
    " WHERE " +:+ String.concat " AND " conditions
  else "".

Definition user_where (userId : string) : string :=
  " WHERE LogUserId = '" +:+ userId +:+ "'".

Definition getDebugLogsByDateRange (dateFrom dateTo : option string)
    (limit : option Z) : M (list DebugLog) :=
  let limit := default 100 limit in
  let whereClause := date_where dateFrom dateTo in
  try_catch
    (client_query {| q_where := whereClause; q_limit := limit; q_offset := None |})
    (fun error =>
       throw (new_Error ("Failed to retrieve debug logs by date range: "
                         +:+ error))).

Definition getDebugLogsByUser (userId : string) (limit : option Z)
  : M (list DebugLog) :=
  let limit := default 100 limit in
  try_catch
    (client_query {| q_where := user_where userId; q_limit := limit;
                     q_offset := None |})
    (fun error => throw (new_Error ("Failed to retrieve debug logs for user "
                         +:+ userId +:+ ": " +:+ error))).

(** One element of [batch.map(async (logId) => ...)]: the body, or
    [null] after a warning. *)
Definition fetch_or_null (logId : string) : M (string * option string) :=
  try_catch
    (body <- getDebugLogBody logId ;; ret (logId, Some body))
    (fun error =>
       emit (EvWarn ("Failed to retrieve log body for " +:+ logId +:+ ": " +:+ error)) ;;;
       ret (logId, None)).

(** [batchResults.forEach(...)]: the non-null bodies go into the map. *)
Definition store_batch (results : gmap string string)
    (batchResults : list (string * option string)) : gmap string string :=
  fold_left
    (fun results '(logId, body) =>
       match body with
       | Some b => <[logId := b]> results
       | None => results
       end)
    batchResults results.

Definition bodies_batchSize : Z := 10.

(** The [for (let i = 0; i < logIds.length; i += batchSize)] loop;
    [n] bounds the number of rounds. *)
Fixpoint bodies_loop (n : nat) (logIds : list string) (i : Z)
    (results : gmap string string) : M (gmap string string) :=
  if i <? len logIds then
    match n with
    | O => out_of_fuel
    | S n' =>
        let batch := slice logIds i (i + bodies_batchSize) in
        batchResults <- promise_all fetch_or_null batch ;;
        let results' := store_batch results batchResults in
        (if i + bodies_batchSize <? len logIds then emit (EvSleep 100) else ret tt) ;;;
        bodies_loop n' logIds (i + bodies_batchSize) results'
    end
  else ret results.

(** The counter grows by 10 each round, so [length logIds] rounds
    are always enough. *)
Definition getDebugLogBodies (logIds : list string) : M (gmap string string) :=
  bodies_loop (length logIds) logIds 0 ∅.

(** *** The pagination loop of the [getAllDebugLogs*] family *)

Record PageState := {
  allLogs : list DebugLog;
  offset : Z;
  hasMore : bool
}.

Definition page_batchSize : Z := 200.

Definition page_init : PageState :=
  {| allLogs := []; offset := 0; hasMore := true |}.

(** [hasMore && (!maxLogs || allLogs.length < maxLogs)] *)
Definition loop_guard (maxLogs : option Z) (st : PageState) : bool :=
  hasMore st &&
  (negb (truthy_num maxLogs) || (len (allLogs st) <? default 0 maxLogs)).

Definition currentBatchSize (maxLogs : option Z) (st : PageState) : Z :=
  let remainingLogs :=
    if truthy_num maxLogs then default 0 maxLogs - len (allLogs st)
    else page_batchSize in
  Z.min page_batchSize remainingLogs.

Definition page_query (whereClause : string) (maxLogs : option Z)
    (st : PageState) : SoqlQuery :=
  {| q_where := whereClause;
     q_limit := currentBatchSize maxLogs st;
     q_offset := Some (offset st) |}.

(** The state after a page [batch] has arrived. *)
Definition page_advance (maxLogs : option Z) (st : PageState)
    (batch : list DebugLog) : PageState :=
  {| allLogs := allLogs st ++ batch;
     offset := offset st + len batch;
     hasMore := len batch =? currentBatchSize maxLogs st |}.

Inductive LoopCtl :=
| Continue (st : PageState)
| Break (st : PageState).

(** The body of the [while] loop: the [try] block, and [break] in
    the [catch]. *)
Definition page_iteration (whereClause : string) (maxLogs : option Z)
    (st : PageState) : M LoopCtl :=
  try_catch
    (batch <- client_query (page_query whereClause maxLogs st) ;;
     let st' := page_advance maxLogs st batch in
     (if hasMore st' then emit (EvSleep 100) else ret tt) ;;;
     ret (Continue st'))
    (fun error =>
       emit (EvWarn ("Failed to fetch batch at offset "
                     +:+ pretty (offset st) +:+ ": " +:+ error)) ;;;
       ret (Break st)).

Fixpoint page_loop (fuel : nat) (whereClause : string) (maxLogs : option Z)
    (st : PageState) : M (list DebugLog) :=
  if loop_guard maxLogs st then
    match fuel with
    | O => out_of_fuel
    | S fuel' =>
        ctl <- page_iteration whereClause maxLogs st ;;
        match ctl with
        | Continue st' => page_loop fuel' whereClause maxLogs st'
        | Break st' => ret (allLogs st')
        end
    end
  else ret (allLogs st).

Definition getAllDebugLogs (fuel : nat) (maxLogs : option Z)
  : M (list DebugLog) :=
  page_loop fuel "" maxLogs page_init.

Definition getAllDebugLogsByUser (fuel : nat) (userId : string)
    (maxLogs : option Z) : M (list DebugLog) :=
  page_loop fuel (user_where userId) maxLogs page_init.

Definition getAllDebugLogsByDateRange (fuel : nat)
    (dateFrom dateTo : option string) (maxLogs : option Z)
  : M (list DebugLog) :=
  page_loop fuel (date_where dateFrom dateTo) maxLogs page_init.

End Client.

(** ** [FileUtils] *)

Section Files.
Context (w : World).

Definition ensureDirectoryExists (dirPath : string) : M unit :=
  emit (EvExists dirPath) ;;;
  if negb (fs_exists w dirPath) then
    emit (EvMkdir dirPath) ;;;
    match fs_mkdir w dirPath with
    | Some e => throw e
    | None => ret tt
    end
  else ret tt.

Definition generateLogFileName (log : DebugLog) (extension : string) : string :=
  let timestamp := moment_format w (LastModifiedDate log) in
  let operation := sanitize (Operation log) in
  let logId := substring0 8 (Id log) in
  timestamp +:+ "_" +:+ operation +:+ "_" +:+ logId +:+ extension.

Definition generateMetadataFileName (log : DebugLog) : string :=
  generateLogFileName log ".json".

(** [fs.writeFile] and the [err] of its callback. *)
Definition fs_writeFile (filePath : string) (content : FileContent)
    (message : string -> string) : M unit :=
  emit (EvWrite filePath content) ;;;
  match fs_write w filePath content with
  | Some err => throw (new_Error (message err))
  | None => ret tt
  end.

Definition saveLogToFile (filePath content : string) : M unit :=
  fs_writeFile filePath (LogText content)
    (fun err => "Failed to save log to " +:+ filePath +:+ ": " +:+ err).

Definition saveMetadataToFile (filePath : string) (log : DebugLog)
    (matches : option (list LogMatch)) : M unit :=
  let metadata :=
    {| md_log := {| md_id := Id log;
                    md_userId := LogUserId log;
                    md_lastModified := LastModifiedDate log;
                    md_operation := Operation log;
                    md_application := Application log;
                    md_status := Status log;
                    md_duration := DurationMilliseconds log;
                    md_startTime := StartTime log;
                    md_location := Location log;
                    md_logLength := LogLength log |};
       md_downloadedAt := clock_now w;
       md_matches := default [] matches |} in
  fs_writeFile filePath (MetadataJson metadata)
    (fun err => "Failed to save metadata to " +:+ filePath +:+ ": " +:+ err).

Definition createDownloadSummary (summaryPath searchText : string)
    (totalLogs matchingLogs downloadedLogs : Z)
    (failedDownloads : list string) : M unit :=
  let summary :=
    {| sm_searchText := searchText;
       sm_timestamp := clock_now w;
       sm_statistics :=
         {| st_totalLogsSearched := totalLogs;
            st_logsWithMatches := matchingLogs;
            st_logsDownloaded := downloadedLogs;
            st_downloadsFailed := len failedDownloads |};
       sm_failedDownloads :=
         map (fun logId => (logId, "API Error")) failedDownloads |} in
  fs_writeFile summaryPath (SummaryJson summary)
    (fun err => "Failed to save download summary: " +:+ err).

Definition getApproximateFileSize (logLength : Z) : Z := logLength + 1024.

(** [hasSpace] is [fs.existsSync(path.dirname(outputDir)) || true]. *)
Definition checkDiskSpace (logs : list DebugLog) (outputDir : string)
  : M (bool * Z) :=
  let estimatedSize :=
    fold_left (fun total log => total + getApproximateFileSize (LogLength log))
              logs 0 in
  emit (EvExists (path_dirname w outputDir)) ;;;
  let hasSpace := fs_exists w (path_dirname w outputDir) || true in
  ret (hasSpace, estimatedSize).

End Files.

(** ** [LogSearcher] *)

Section Searcher.
Context (w : World).

(** [options.maxResults || 100] *)
Definition maxResults_or_100 (options : SearchOptions) : Z :=
  if truthy_num (maxResults options) then default 0 (maxResults options)
  else 100.

(** The body of [for (const log of logs)] in the three search
    functions. *)
Definition search_one (options : SearchOptions) (results : list SearchResult)
    (log : DebugLog) : M (list SearchResult) :=
  try_catch
    (logBody <- getDebugLogBody w (Id log) ;;
     let matches :=
       searchInLogBody logBody (searchText options) (caseSensitive options) in
     if 0 <? len matches
     then ret (results ++ [{| log := log; matches := matches |}])
     else ret results)
    (fun error =>
       emit (EvWarn ("Failed to retrieve log body for " +:+ Id log
                     +:+ ": " +:+ error)) ;;;
       ret results).

(** The record set of a bounded search. *)
Definition fetch_filtered (options : SearchOptions) : M (list DebugLog) :=
  if truthy_str (userId options) then
    getDebugLogsByUser w (default "" (userId options))
                       (Some (maxResults_or_100 options))
  else if truthy_str (dateFrom options) || truthy_str (dateTo options) then
    getDebugLogsByDateRange w (dateFrom options) (dateTo options)
                            (Some (maxResults_or_100 options))
  else getDebugLogs w (Some (maxResults_or_100 options)).

(** The record set of an exhaustive search. *)
Definition fetch_all_filtered (fuel : nat) (options : SearchOptions)
  : M (list DebugLog) :=
  if truthy_str (userId options) then
    getAllDebugLogsByUser w fuel (default "" (userId options))
                          (maxResults options)
  else if truthy_str (dateFrom options) || truthy_str (dateTo options) then
    getAllDebugLogsByDateRange w fuel (dateFrom options) (dateTo options)
                               (maxResults options)
  else getAllDebugLogs w fuel (maxResults options).

Definition searchLogs (options : SearchOptions) : M (list SearchResult) :=
  logs <- fetch_filtered options ;;
  for_each (search_one options) logs [].

Definition searchLogsWithStats (options : SearchOptions)
  : M (list SearchResult * Z) :=
  logs <- fetch_filtered options ;;
  results <- for_each (search_one options) logs [] ;;
  ret (results, len logs).

Definition searchAllLogsWithStats (fuel : nat) (options : SearchOptions)
  : M (list SearchResult * Z) :=
  logs <- fetch_all_filtered fuel options ;;
  results <- for_each (search_one options) logs [] ;;
  ret (results, len logs).

(** The save loops hold their two id lists in one accumulator:
    [(downloadedLogs, failedDownloads)]. *)
Definition Saved : Type := list string * list string.

(** [!logBody]: a missing entry and the empty string are both falsy. *)
Definition usable_body (o : option string) : option string :=
  match o with
  | Some b => if String.eqb b "" then None else Some b
  | None => None
  end.

(** The body of the save loop of [searchAndDownloadLogs]. *)
Definition save_result (downloadOptions : DownloadOptions)
    (logBodies : gmap string string) (acc : Saved) (result : SearchResult)
  : M Saved :=
  let '(downloaded, failed) := acc in
  match usable_body (logBodies !! Id (log result)) with
  | None => ret (downloaded, failed ++ [Id (log result)])
  | Some logBody =>
      try_catch
        (let logFileName := generateLogFileName w (log result) ".log" in
         let metadataFileName := generateMetadataFileName w (log result) in
         let logFilePath := path_join w (outputDir downloadOptions) logFileName in
         let metadataFilePath :=
           path_join w (outputDir downloadOptions) metadataFileName in
         saveLogToFile w logFilePath logBody ;;;
         (if truthy_flag (includeMetadata downloadOptions)
          then saveMetadataToFile w metadataFilePath (log result)
                                  (Some (matches result))
          else ret tt) ;;;
         ret (downloaded ++ [Id (log result)], failed))
        (fun error =>
           emit (EvWarn ("Failed to save log " +:+ Id (log result)
                         +:+ ": " +:+ error)) ;;;
           ret (downloaded, failed ++ [Id (log result)]))
  end.

Definition searchAndDownloadLogs (fuel : nat) (searchOptions : SearchOptions)
    (downloadOptions : DownloadOptions) (useAllLogs : bool)
  : M DownloadResult :=
  found <- (if useAllLogs then searchAllLogsWithStats fuel searchOptions
            else searchLogsWithStats searchOptions) ;;
  let '(searchResults, totalLogsSearched) := found in
  if len searchResults =? 0 then
    ret {| dr_searchText := searchText searchOptions;
           totalLogsSearched := totalLogsSearched;
           matchingLogs := 0;
           downloadedLogs := 0;
           failedDownloads := [];
           downloadPath := outputDir downloadOptions;
           estimatedSize := 0 |}
  else
    let logs := map log searchResults in
    space <- checkDiskSpace w logs (outputDir downloadOptions) ;;
    let '(hasSpace, estimatedSize) := space in
    if negb hasSpace then
      throw (new_Error ("Insufficient disk space. Estimated size needed: "
             +:+ format_bytes w estimatedSize))
    else
      ensureDirectoryExists w (outputDir downloadOptions) ;;;
      let logIds := map Id logs in
      logBodies <- getDebugLogBodies w logIds ;;
      saved <- for_each (save_result downloadOptions logBodies)
                        searchResults ([], []) ;;
      let '(downloaded, failed) := saved in
      (if truthy_flag (createSummary downloadOptions) then
         let summaryPath :=
           path_join w (outputDir downloadOptions) "download-summary.json" in
         createDownloadSummary w summaryPath (searchText searchOptions)
           (len logs) (len searchResults) (len downloaded) failed
       else ret tt) ;;;
      ret {| dr_searchText := searchText searchOptions;
             totalLogsSearched := totalLogsSearched;
             matchingLogs := len searchResults;
             downloadedLogs := len downloaded;
             failedDownloads := failed;
             downloadPath := outputDir downloadOptions;
             estimatedSize := estimatedSize |}.

(** The body of the metadata loop of [downloadLogsByIds]: one page of
    1000 recent records per requested id, searched for the id. *)
Definition find_metadata (allLogs : list DebugLog) (logId : string)
  : M (list DebugLog) :=
  try_catch
    (logs <- getDebugLogs w (Some 1000) ;;
     match List.find (fun l => String.eqb (Id l) logId) logs with
     | Some log => ret (allLogs ++ [log])
     | None => ret allLogs
     end)
    (fun error =>
       emit (EvWarn ("Failed to get metadata for log " +:+ logId
                     +:+ ": " +:+ error)) ;;;
       ret allLogs).

(** The body of the save loop of [downloadLogsByIds]. *)
Definition save_log (downloadOptions : DownloadOptions)
    (logBodies : gmap string string) (acc : Saved) (log : DebugLog)
  : M Saved :=
  let '(downloaded, failed) := acc in
  match usable_body (logBodies !! Id log) with
  | None => ret (downloaded, failed ++ [Id log])
  | Some logBody =>
      try_catch
        (let logFileName := generateLogFileName w log ".log" in
         let logFilePath := path_join w (outputDir downloadOptions) logFileName in
         saveLogToFile w logFilePath logBody ;;;
         (if truthy_flag (includeMetadata downloadOptions) then
            let metadataFileName := generateMetadataFileName w log in
            let metadataFilePath :=
              path_join w (outputDir downloadOptions) metadataFileName in
            saveMetadataToFile w metadataFilePath log None
          else ret tt) ;;;
         ret (downloaded ++ [Id log], failed))
        (fun error =>
           emit (EvWarn ("Failed to save log " +:+ Id log +:+ ": " +:+ error)) ;;;
           ret (downloaded, failed ++ [Id log]))
  end.

Definition downloadLogsByIds (logIds : list string)
    (downloadOptions : DownloadOptions) : M DownloadResult :=
  allLogs <- for_each find_metadata logIds [] ;;
  space <- checkDiskSpace w allLogs (outputDir downloadOptions) ;;
  let '(hasSpace, estimatedSize) := space in
  if negb hasSpace then
    throw (new_Error ("Insufficient disk space. Estimated size needed: "
           +:+ format_bytes w estimatedSize))
  else
    ensureDirectoryExists w (outputDir downloadOptions) ;;;
    logBodies <- getDebugLogBodies w logIds ;;
    saved <- for_each (save_log downloadOptions logBodies) allLogs ([], []) ;;
    let '(downloaded, failed) := saved in
    ret {| dr_searchText := "Direct download";
           totalLogsSearched := len logIds;
           matchingLogs := len logIds;
           downloadedLogs := len downloaded;
           failedDownloads := failed;
           downloadPath := outputDir downloadOptions;
           estimatedSize := estimatedSize |}.

End Searcher.

(** ** [LogSearcher.searchMultiplePatterns] *)

Section MultiSearch.
Context (w : World).

(** [{ ...options, searchText: pattern }] *)
Definition with_searchText (options : SearchOptions) (pattern : string)
  : SearchOptions :=
  {| searchText := pattern;
     caseSensitive := caseSensitive options;
     maxResults := maxResults options;
     dateFrom := dateFrom options;
     dateTo := dateTo options;
     userId := userId options |}.

(** The body of [for (const pattern of patterns)]. *)
Definition search_pattern (options : SearchOptions)
    (results : gmap string (list SearchResult)) (pattern : string)
  : M (gmap string (list SearchResult)) :=
  let searchOptions := with_searchText options pattern in
  patternResults <- searchLogs w searchOptions ;;
  ret (<[pattern := patternResults]> results).

Definition searchMultiplePatterns (patterns : list string)
    (options : SearchOptions) : M (gmap string (list SearchResult)) :=
  for_each (search_pattern options) patterns ∅.

End MultiSearch.

(** ** [SalesforceClient.getDebugLogCount] and its fallback *)

Section Counting.
Context (w : World).

(** [estimateLogCount]: the length of one page of 200, whichever
    branch of the comparison is taken. *)
Definition estimateLogCount (userId dateFrom dateTo : option string) : M Z :=
  try_catch
    (let sampleSize := 200 in
     logs <- (if truthy_str userId then
                getDebugLogsByUser w (default "" userId) (Some sampleSize)
              else if truthy_str dateFrom || truthy_str dateTo then
                getDebugLogsByDateRange w dateFrom dateTo (Some sampleSize)
              else getDebugLogs w (Some sampleSize)) ;;
     if len logs <? sampleSize then ret (len logs) else ret (len logs))
    (fun error => throw (new_Error ("Failed to estimate log count: " +:+ error))).

(** The [WHERE] clause of the [COUNT(Id)] query: every filter given
    contributes a condition. *)
Definition count_where (userId dateFrom dateTo : option string) : string :=
  let conditions :=
    (if truthy_str userId
     then ["LogUserId = '" +:+ default "" userId +:+ "'"] else [])
    ++ (if truthy_str dateFrom
        then ["LastModifiedDate >= " +:+ default "" dateFrom] else [])
    ++ (if truthy_str dateTo
        then ["LastModifiedDate <= " +:+ default "" dateTo] else []) in
  if 0 <? len conditions then " WHERE " +:+ String.concat " AND " conditions
  else "".

(** [getDebugLogCount].  The aggregate request is not a record query:
    its answer is the argument [count_query], a function of the
    [WHERE] clause giving the error or the [totalCount] fields of the
    records returned, and it leaves no event. *)
Definition getDebugLogCount (count_query : string -> string + list (option Z))
    (userId dateFrom dateTo : option string) : M Z :=
  try_catch
    (let whereClause := count_where userId dateFrom dateTo in
     match count_query whereClause with
     | inl e => throw e
     | inr records =>
         let totalCount :=
           match records with
           | r :: _ => r
           | [] => None
           end in
         ret (if truthy_num totalCount then default 0 totalCount else 0)
     end)
    (fun error =>
       emit (EvWarn "COUNT query failed, using estimation method") ;;;
       estimateLogCount userId dateFrom dateTo).

End Counting.

(** * Properties *)

(** ** Strings *)

Section StringFacts.

Lemma prefix_app (p s : string) :
  String.prefix p s = true <-> exists rest, s = p +:+ rest.
Proof.
  revert s. induction p as [|c p IH]; intros [|d s]; simpl.
  - split; [intros _; exists ""; reflexivity | reflexivity].
  - split; [intros _; exists (String d s); reflexivity | reflexivity].
  - split; [discriminate | intros [rest H]; discriminate].
  - destruct (Ascii.ascii_dec c d) as [->|Hne].
    + rewrite IH. split; intros [rest H]; exists rest; congruence.
    + split; [discriminate | intros [rest H]; congruence].
Qed.

Lemma includes_spec (s p : string) :
  includes s p = true <-> is_substring p s.
Proof.
  unfold is_substring.
  induction s as [|c s IH].
  - change (includes "" p) with (String.prefix p "" || false).
    rewrite orb_false_r, prefix_app. split.
    + intros [rest H]. exists "", rest. exact H.
    + intros [[|b before] [after H]]; simpl in H; [eauto | discriminate].
  - change (includes (String c s) p)
      with (String.prefix p (String c s) || includes s p).
    rewrite orb_true_iff, prefix_app, IH. split.
    + intros [[rest H] | (before & after & H)].
      * exists "", rest. exact H.
      * exists (String c before), after. simpl. congruence.
    + intros [[|b before] [after H]]; simpl in H.
      * left. eauto.
      * right. exists before, after. congruence.
Qed.

Lemma split_lines_nonempty (s : string) : split_lines s <> [].
Proof.
  induction s as [|c s IH]; simpl; [discriminate|].
  destruct (Ascii.eqb c LF); [discriminate|].
  destruct (split_lines s); discriminate.
Qed.

(** Splitting loses nothing: joining the lines with line feeds gives
    the body back. *)
Lemma join_split_lines (s : string) : join_lines (split_lines s) = s.
Proof.
  induction s as [|c s IH]; simpl; [reflexivity|].
  destruct (Ascii.eqb_spec c LF) as [->|Hne].
  - pose proof (split_lines_nonempty s) as Hne.
    destruct (split_lines s) as [|l ls]; [congruence|].
    simpl in *. rewrite IH. reflexivity.
  - pose proof (split_lines_nonempty s) as Hnil.
    destruct (split_lines s) as [|l ls]; [congruence|].
    destruct ls as [|l' ls]; simpl in *; congruence.
Qed.

Fixpoint has_char (c : ascii) (s : string) : bool :=
  match s with
  | EmptyString => false
  | String d s' => Ascii.eqb c d || has_char c s'
  end.

(** No line holds a line feed. *)
Lemma split_lines_no_LF (s : string) :
  Forall (fun l => has_char LF l = false) (split_lines s).
Proof.
  assert (Hcons : forall c l, c <> LF -> has_char LF l = false ->
                          has_char LF (String c l) = false).
  { intros c l Hc Hl.
    change (has_char LF (String c l)) with (Ascii.eqb LF c || has_char LF l).
    rewrite Hl. destruct (Ascii.eqb_spec LF c); [congruence | reflexivity]. }
  induction s as [|c s IH].
  - repeat constructor.
  - change (split_lines (String c s)) with
      (if Ascii.eqb c LF then EmptyString :: split_lines s
       else match split_lines s with
            | [] => [String c EmptyString]
            | l :: ls => String c l :: ls
            end).
    destruct (Ascii.eqb_spec c LF) as [->|Hne].
    + constructor; [reflexivity | exact IH].
    + destruct (split_lines s) as [|l ls].
      * repeat constructor. apply Hcons; [assumption | reflexivity].
      * inversion IH; subst. constructor; [|assumption]. auto.
Qed.

(** *** Decimal labels *)

Definition is_digit (c : ascii) : bool :=
  let n := N_of_ascii c in ((48 <=? n) && (n <=? 57))%N.

Fixpoint all_digits (s : string) : bool :=
  match s with
  | EmptyString => true
  | String c s' => is_digit c && all_digits s'
  end.

Lemma pretty_N_char_digit (x : N) : is_digit (pretty_N_char x) = true.
Proof. unfold pretty_N_char. repeat case_match; reflexivity. Qed.

Lemma pretty_N_go_digits (x : N) (s : string) :
  exists d, pretty_N_go x s = d +:+ s /\ all_digits d = true.
Proof.
  revert s. induction (N.lt_wf_0 x) as [x _ IH]; intros s.
  destruct (decide (x = 0%N)) as [->|Hx].
  - exists "". rewrite pretty_N_go_0. split; reflexivity.
  - rewrite pretty_N_go_step by lia.
    destruct (IH (x `div` 10)%N) with (s := String (pretty_N_char (x `mod` 10)) s)
      as (d & Hd & Hdig).
    { apply N.div_lt; lia. }
    exists (d +:+ String (pretty_N_char (x `mod` 10)) "").
    split.
    + rewrite Hd. clear. induction d; simpl; congruence.
    + clear - Hdig. induction d as [|c d IHd]; simpl in *.
      * rewrite pretty_N_char_digit. reflexivity.
      * apply andb_true_iff in Hdig as [-> Hd]. simpl. auto.
Qed.

Lemma pretty_Z_digits (z : Z) : 0 <= z -> all_digits (pretty z) = true.
Proof.
  intros Hz. destruct z as [|p|p]; [reflexivity | | lia].
  change (pretty (Z.pos p)) with (pretty (N.pos p)).
  unfold pretty, pretty_N. destruct (decide (N.pos p = 0%N)); [reflexivity|].
  destruct (pretty_N_go_digits (N.pos p) "") as (d & Hd & Hdig).
  rewrite Hd. replace (d +:+ "") with d; [assumption|].
  clear. induction d; simpl; congruence.
Qed.

(** A label is recovered from an entry: two entries that agree have
    the same label. *)
Lemma label_unique (d1 d2 t1 t2 : string) :
  all_digits d1 = true -> all_digits d2 = true ->
  d1 +:+ ": " +:+ t1 = d2 +:+ ": " +:+ t2 -> d1 = d2.
Proof.
  revert d2. induction d1 as [|c d1 IH]; intros [|c2 d2] H1 H2 Heq;
    simpl in *; try reflexivity.
  - injection Heq as <- _. discriminate.
  - injection Heq as -> _. discriminate.
  - apply andb_true_iff in H1 as [_ H1]. apply andb_true_iff in H2 as [_ H2].
    injection Heq as -> Heq. f_equal. eauto.
Qed.

End StringFacts.

(** ** Line search *)

Section SearchFacts.

(** A loop that pushes the selected elements computes a filter
    followed by a map. *)
Lemma fold_push {A B} (step : list B -> A -> list B) (keep : A -> bool)
    (f : A -> B) (xs : list A) (acc : list B) :
  (forall acc x, step acc x = if keep x then acc ++ [f x] else acc) ->
  fold_left step xs acc = acc ++ map f (List.filter keep xs).
Proof.
  intros Hstep. revert acc.
  induction xs as [|x xs IH]; intros acc; simpl.
  - rewrite app_nil_r. reflexivity.
  - rewrite IH, Hstep. destruct (keep x); simpl.
    + rewrite <- app_assoc. reflexivity.
    + reflexivity.
Qed.

Lemma filter_all {A} (keep : A -> bool) (xs : list A) :
  Forall (fun x => keep x = true) xs -> List.filter keep xs = xs.
Proof.
  induction 1 as [|x xs Hx _ IH]; simpl; [reflexivity|].
  rewrite Hx, IH. reflexivity.
Qed.

Definition window_start (matchIndex contextLines : Z) : Z :=
  Z.max 0 (matchIndex - contextLines).

Definition window_end (lines : list string) (matchIndex contextLines : Z) : Z :=
  Z.min (len lines - 1) (matchIndex + contextLines).

Lemma getContext_filter (lines : list string) (matchIndex contextLines : Z) :
  getContext lines matchIndex contextLines =
  map (context_entry lines)
      (List.filter (fun i => negb (Z.eqb i matchIndex))
         (seqZ (window_start matchIndex contextLines)
               (window_end lines matchIndex contextLines
                - window_start matchIndex contextLines + 1))).
Proof.
  unfold getContext, window_start, window_end, len.
  rewrite (fold_push _ (fun i => negb (Z.eqb i matchIndex)) (context_entry lines));
    reflexivity.
Qed.

(** All of a run of integers but one of its members. *)
Lemma filter_other_seqZ (a k x : Z) :
  a <= x < a + k ->
  List.filter (fun i => negb (Z.eqb i x)) (seqZ a k) =
  seqZ a (x - a) ++ seqZ (x + 1) (a + k - x - 1).
Proof.
  intros Hx.
  replace k with ((x - a) + (1 + (a + k - x - 1))) at 1 by lia.
  rewrite seqZ_app by lia.
  rewrite seqZ_app by lia.
  rewrite !List.filter_app.
  replace (a + (x - a)) with x by lia.
  change (seqZ x 1) with [x]. simpl.
  rewrite Z.eqb_refl. simpl.
  f_equal; apply filter_all, Forall_seqZ; intros i Hi;
    apply negb_true_iff, Z.eqb_neq; lia.
Qed.

Lemma getContext_length (lines : list string) (idx : Z) :
  0 <= idx < len lines ->
  len (getContext lines idx 2) = window_end lines idx 2 - window_start idx 2.
Proof.
  intros Hidx. rewrite getContext_filter.
  unfold len at 1. rewrite length_map.
  rewrite filter_other_seqZ by (unfold window_start, window_end; lia).
  rewrite length_app, !length_seqZ.
  unfold window_start, window_end. lia.
Qed.

Lemma getContext_entries (lines : list string) (idx c : Z) (e : string) :
  In e (getContext lines idx c) ->
  exists k, k <> idx /\ window_start idx c <= k <= window_end lines idx c
            /\ e = context_entry lines k.
Proof.
  rewrite getContext_filter, in_map_iff.
  intros (k & <- & Hk). apply filter_In in Hk as [Hk Hne].
  apply list_elem_of_In, elem_of_seqZ in Hk.
  apply negb_true_iff, Z.eqb_neq in Hne.
  exists k. repeat split; [assumption | lia | lia].
Qed.

(** No context entry is labelled with the number of the matched line. *)
Lemma getContext_excludes_match (lines : list string) (idx : Z) (text : string) :
  0 <= idx ->
  ~ In (pretty (idx + 1) +:+ ": " +:+ text) (getContext lines idx 2).
Proof.
  intros Hidx Hin.
  apply getContext_entries in Hin as (k & Hne & [Hlo _] & Heq).
  unfold context_entry, window_start in *.
  apply label_unique in Heq; try (apply pretty_Z_digits; lia).
  apply (inj pretty) in Heq. lia.
Qed.

(** The elements a [forEach] with index selects, through [f]. *)
Definition selected {B} (keep : Z * string -> bool) (f : Z * string -> B)
    (a : Z) (ls : list string) : list B :=
  map f (List.filter keep (zip (seqZ a (len ls)) ls)).

Lemma selected_nil {B} keep (f : Z * string -> B) a : selected keep f a [] = [].
Proof. reflexivity. Qed.

Lemma selected_cons {B} keep (f : Z * string -> B) a l ls :
  selected keep f a (l :: ls) =
  (if keep (a, l) then [f (a, l)] else []) ++ selected keep f (a + 1) ls.
Proof.
  unfold selected, len. rewrite seqZ_cons by (simpl; lia).
  replace (Z.pred (Z.of_nat (length (l :: ls)))) with (Z.of_nat (length ls))
    by (simpl; lia).
  replace (Z.succ a) with (a + 1) by lia.
  simpl. destruct (keep (a, l)); reflexivity.
Qed.

Lemma In_selected {B} keep (f : Z * string -> B) a ls y :
  In y (selected keep f a ls) <->
  exists (k : nat) l, ls !! k = Some l /\ keep (a + Z.of_nat k, l) = true
                      /\ y = f (a + Z.of_nat k, l).
Proof.
  revert a. induction ls as [|l ls IH]; intros a.
  - rewrite selected_nil. split; [intros [] | intros (k & l & H & _); discriminate].
  - rewrite selected_cons, in_app_iff, IH. split.
    + intros [Hhd | (k & l' & Hl & Hk & Hy)].
      * exists 0%nat, l. replace (a + Z.of_nat 0) with a by lia.
        destruct (keep (a, l)); simpl in Hhd; [|tauto].
        destruct Hhd as [<-|[]]. auto.
      * exists (S k), l'. replace (a + Z.of_nat (S k)) with (a + 1 + Z.of_nat k) by lia.
        auto.
    + intros ([|k] & l' & Hl & Hk & Hy); simpl in Hl.
      * left. injection Hl as ->. replace (a + Z.of_nat 0) with a in * by lia.
        rewrite Hk. left. congruence.
      * right. exists k, l'.
        replace (a + Z.of_nat (S k)) with (a + 1 + Z.of_nat k) in * by lia. auto.
Qed.

Lemma selected_numbers_above keep a ls :
  Forall (fun n => a < n) (selected keep (fun x => fst x + 1) a ls).
Proof.
  apply List.Forall_forall. intros n Hn.
  apply In_selected in Hn as (k & l & _ & _ & ->). simpl. lia.
Qed.

Lemma selected_numbers_sorted keep a ls :
  StronglySorted Z.lt (selected keep (fun x => fst x + 1) a ls).
Proof.
  revert a. induction ls as [|l ls IH]; intros a.
  - constructor.
  - rewrite selected_cons. destruct (keep (a, l)); simpl; [|apply IH].
    constructor; [apply IH|].
    eapply Forall_impl; [apply selected_numbers_above|].
    simpl. intros; lia.
Qed.

Lemma sorted_lt_NoDup (l : list Z) : StronglySorted Z.lt l -> List.NoDup l.
Proof.
  induction 1 as [|x l _ IH Hall]; constructor; [|assumption].
  intros Hin. rewrite List.Forall_forall in Hall. apply Hall in Hin. lia.
Qed.

(** The match [searchInLogBody] builds for line [index]. *)
Definition match_of (lines : list string) (x : Z * string) : LogMatch :=
  {| lineNumber := fst x + 1;
     line := trim (snd x);
     context := getContext lines (fst x) 2 |}.

Definition line_matches (cs : bool) (searchText : string) (x : Z * string) : bool :=
  includes (if cs then snd x else toLowerCase (snd x))
           (if cs then searchText else toLowerCase searchText).

Lemma searchInLogBody_selected (logBody searchText : string) (cs : option bool) :
  searchInLogBody logBody searchText cs =
  selected (line_matches (default false cs) searchText)
           (match_of (split_lines logBody)) 0 (split_lines logBody).
Proof.
  unfold searchInLogBody, selected, indexed, len.
  rewrite (fold_push _ (line_matches (default false cs) searchText)
                       (match_of (split_lines logBody))); [reflexivity|].
  intros acc [index l]. reflexivity.
Qed.

Lemma searchInLogBody_numbers (logBody searchText : string) (cs : option bool) :
  map lineNumber (searchInLogBody logBody searchText cs) =
  selected (line_matches (default false cs) searchText)
           (fun x => fst x + 1) 0 (split_lines logBody).
Proof.
  rewrite searchInLogBody_selected. unfold selected.
  rewrite map_map. reflexivity.
Qed.

End SearchFacts.

(** C1. Case-insensitive search reports exactly the lines whose
    lower-cased text contains the lower-cased pattern: every reported
    match is such a line (with its trimmed text and its context), every
    such line is reported, each line number occurs once, and the line
    numbers are strictly increasing.  Leaving the flag out is the same
    as passing [false]. *)
Theorem C1_search_case_insensitive (B P : string) :
  let lines := split_lines B in
  let ms := searchInLogBody B P (Some false) in
  searchInLogBody B P None = ms
  /\ (forall m, In m ms ->
        exists (k : nat) l,
          lines !! k = Some l /\ lineNumber m = Z.of_nat k + 1
          /\ is_substring (toLowerCase P) (toLowerCase l)
          /\ line m = trim l
          /\ context m = getContext lines (Z.of_nat k) 2)
  /\ (forall (k : nat) l,
        lines !! k = Some l ->
        is_substring (toLowerCase P) (toLowerCase l) ->
        exists m, In m ms /\ lineNumber m = Z.of_nat k + 1)
  /\ List.NoDup (map lineNumber ms)
  /\ StronglySorted Z.lt (map lineNumber ms).
Proof.
  intros lines ms. subst lines ms.
  split; [reflexivity|].
  split; [|split; [|split]].
  - intros m Hm. rewrite searchInLogBody_selected in Hm.
    apply In_selected in Hm as (k & l & Hl & Hk & ->).
    exists k, l. unfold line_matches in Hk. simpl in Hk.
    apply includes_spec in Hk. simpl. auto.
  - intros k l Hl Hsub.
    exists (match_of (split_lines B) (0 + Z.of_nat k, l)). split.
    + rewrite searchInLogBody_selected. apply In_selected.
      exists k, l. split; [assumption|]. split; [|reflexivity].
      unfold line_matches. simpl. apply includes_spec. assumption.
    + reflexivity.
  - apply sorted_lt_NoDup. rewrite searchInLogBody_numbers.
    apply selected_numbers_sorted.
  - rewrite searchInLogBody_numbers. apply selected_numbers_sorted.
Qed.

(** C3 (as amended). A match at 1-based line [i] of an [n]-line body
    has a context of [min (i+2) n - max (i-2) 1] entries: the window
    holds one line more, and the matched line is left out.  No entry
    is labelled with the matched line's own number. *)
Theorem C3_context_window (B P : string) (cs : option bool) (m : LogMatch) :
  In m (searchInLogBody B P cs) ->
  let n := len (split_lines B) in
  let i := lineNumber m in
  1 <= i <= n
  /\ len (context m) = Z.min (i + 2) n - Z.max (i - 2) 1
  /\ forall text, ~ In (pretty i +:+ ": " +:+ text) (context m).
Proof.
  intros Hm n i. subst n i.
  rewrite searchInLogBody_selected in Hm.
  apply In_selected in Hm as (k & l & Hl & _ & ->).
  apply lookup_lt_Some in Hl. simpl.
  replace (0 + Z.of_nat k) with (Z.of_nat k) by lia.
  split; [unfold len; lia|]. split.
  - rewrite getContext_length by (unfold len; lia).
    unfold window_start, window_end. lia.
  - intros text. apply getContext_excludes_match. lia.
Qed.

Definition scenario_first_match : LogMatch :=
  {| lineNumber := 2; line := "FOO"; context := ["1: a"; "3: b"; "4: c"] |}.

Lemma C3_context_window_witness :
  In scenario_first_match (searchInLogBody scenario_body "foo" None)
  /\ 1 <= 2 <= len (split_lines scenario_body)
  /\ len (context scenario_first_match)
     = Z.min (2 + 2) (len (split_lines scenario_body)) - Z.max (2 - 2) 1.
Proof.
  assert (H : In scenario_first_match (searchInLogBody scenario_body "foo" None)).
  { vm_compute. left. reflexivity. }
  split; [exact H|].
  pose proof (C3_context_window scenario_body "foo" None scenario_first_match H)
    as (Hi & Hlen & _).
  split; [exact Hi | exact Hlen].
Defined.

(** Counterexample to C3 as stated.  Its formula is one less than
    what the window gives: in the seven-line scenario the match at
    line 2 has three context entries, not two. *)
Lemma C3_counterexample :
  let lines := split_lines scenario_body in
  let n := len lines in
  let i := 2 in
  n = 7
  /\ In scenario_first_match (searchInLogBody scenario_body "foo" None)
  /\ lineNumber scenario_first_match = i
  /\ context scenario_first_match = getContext lines (i - 1) 2
  /\ len (getContext lines (i - 1) 2) = 3
  /\ len (getContext lines (i - 1) 2) <> Z.min (i + 2) n - Z.max (i - 2) 1 - 1.
Proof.
  vm_compute. repeat split; try reflexivity; try discriminate.
  left. reflexivity.
Qed.

(** ** Single-page fetches *)

Section PageFetch.
Context (w : World).

(** The query a computation issued first, if any. *)
Definition first_query {A} (m : M A) : option SoqlQuery :=
  match trace m with
  | EvQuery q :: _ => Some q
  | _ => None
  end.

Lemma getDebugLogs_query (limit : option Z) :
  trace (getDebugLogs w limit) =
  [EvQuery {| q_where := ""; q_limit := default 100 limit; q_offset := None |}].
Proof.
  unfold getDebugLogs, client_query. simpl.
  destruct (http_query w _); reflexivity.
Qed.

Lemma getDebugLogsByUser_query (userId : string) (limit : option Z) :
  trace (getDebugLogsByUser w userId limit) =
  [EvQuery {| q_where := user_where userId; q_limit := default 100 limit;
              q_offset := None |}].
Proof.
  unfold getDebugLogsByUser, client_query. simpl.
  destruct (http_query w _); reflexivity.
Qed.

Lemma getDebugLogsByDateRange_query (dateFrom dateTo : option string)
    (limit : option Z) :
  trace (getDebugLogsByDateRange w dateFrom dateTo limit) =
  [EvQuery {| q_where := date_where dateFrom dateTo; q_limit := default 100 limit;
              q_offset := None |}].
Proof.
  unfold getDebugLogsByDateRange, client_query. simpl.
  destruct (http_query w _); reflexivity.
Qed.

End PageFetch.

(** C4 (as amended). The single-page fetches issue exactly one query,
    whose [LIMIT] is the limit they were given, whatever it is, and 100
    when none was given: nothing is clamped. *)
Theorem C4_limit_passed_through (w : World) (limit : option Z)
    (userId : string) (dateFrom dateTo : option string) :
  trace (getDebugLogs w limit) =
    [EvQuery {| q_where := ""; q_limit := default 100 limit; q_offset := None |}]
  /\ trace (getDebugLogsByUser w userId limit) =
    [EvQuery {| q_where := user_where userId; q_limit := default 100 limit;
                q_offset := None |}]
  /\ trace (getDebugLogsByDateRange w dateFrom dateTo limit) =
    [EvQuery {| q_where := date_where dateFrom dateTo;
                q_limit := default 100 limit; q_offset := None |}].
Proof.
  auto using getDebugLogs_query, getDebugLogsByUser_query,
    getDebugLogsByDateRange_query.
Qed.

(** ** Sample worlds *)

Definition sample_log (id : string) (length : Z) : DebugLog :=
  {| Id := id; LogUserId := "005000000000001"; LogLength := length;
     LastModifiedDate := "2024-01-01T00:00:00.000+0000"; Request := "API";
     Operation := "/apex/run"; Application := "Unknown"; Status := "Success";
     DurationMilliseconds := 12; StartTime := "2024-01-01T00:00:00.000+0000";
     Location := "Monitoring" |}.

(** A world over the given remote store, with an empty disk on which
    every operation succeeds. *)
Definition sample_world (query : SoqlQuery -> string + list DebugLog)
    (body : string -> string + string) : World :=
  {| http_query := query;
     http_body := body;
     fs_exists := fun _ => false;
     fs_mkdir := fun _ => None;
     fs_write := fun _ _ => None;
     clock_now := "2024-01-02T00:00:00.000Z";
     moment_format := fun d => String.substring 0 10 d;
     path_join := fun dir file => dir +:+ "/" +:+ file;
     path_dirname := fun p => p;
     format_bytes := fun n => pretty n +:+ " Bytes" |}.

(** A remote store that answers a query with the window of [db] it
    asks for. *)
Definition db_query (db : list DebugLog) (q : SoqlQuery) : string + list DebugLog :=
  inr (take (Z.to_nat (q_limit q)) (drop (Z.to_nat (default 0 (q_offset q))) db)).

Definition no_body (logId : string) : string + string := inl "404".

(** Counterexample to C4 as stated, which asks for a [LIMIT] between
    1 and the page cap of 200.  A limit of 1000, the one
    [downloadLogsByIds] passes, a limit of 0 and a negative limit all
    reach the query unchanged. *)
Lemma C4_counterexample :
  let w := sample_world (db_query []) no_body in
  (exists q, first_query (getDebugLogs w (Some 1000)) = Some q
             /\ q_limit q = 1000 /\ ~ (1 <= q_limit q <= page_batchSize))
  /\ (exists q, first_query (getDebugLogsByUser w "005" (Some 0)) = Some q
                /\ q_limit q = 0 /\ ~ (1 <= q_limit q <= page_batchSize))
  /\ (exists q, first_query (getDebugLogsByDateRange w None None (Some (-5))) = Some q
                /\ q_limit q = -5 /\ ~ (1 <= q_limit q <= page_batchSize)).
Proof.
  simpl. unfold page_batchSize.
  repeat split; eexists; (split; [reflexivity|]); simpl; split; (reflexivity || lia).
Qed.

(** ** The pagination loop *)

Section Paging.
Context (w : World) (whereClause : string) (maxLogs : option Z).

#[local] Abbreviation query_at st := (page_query whereClause maxLogs st).
#[local] Abbreviation iteration st := (page_iteration w whereClause maxLogs st).
#[local] Abbreviation loop fuel st := (page_loop w fuel whereClause maxLogs st).

(** The events of an iteration whose page arrives. *)
Definition page_events (st : PageState) (batch : list DebugLog) : list Event :=
  EvQuery (query_at st)
  :: (if hasMore (page_advance maxLogs st batch) then [EvSleep 100] else []).

(** The events of an iteration whose page fails. *)
Definition failure_events (st : PageState) (error : string) : list Event :=
  [EvQuery (query_at st);
   EvWarn ("Failed to fetch batch at offset " +:+ pretty (offset st)
           +:+ ": " +:+ error)].

Lemma page_iteration_ok (st : PageState) (batch : list DebugLog) :
  http_query w (query_at st) = inr batch ->
  iteration st = (page_events st batch, Ok (Continue (page_advance maxLogs st batch))).
Proof.
  intros Hq. unfold page_iteration, client_query, page_events. simpl. rewrite Hq.
  simpl. destruct (Z.eqb _ _); reflexivity.
Qed.

Lemma page_iteration_fail (st : PageState) (error : string) :
  http_query w (query_at st) = inl error ->
  iteration st = (failure_events st error, Ok (Break st)).
Proof.
  intros Hq. unfold page_iteration, client_query, failure_events. simpl.
  rewrite Hq. reflexivity.
Qed.

(** [Steps batches st st']: starting in [st], the loop runs one
    iteration per element of [batches], each receiving that page, and
    is then in [st']. *)
Inductive Steps : list (list DebugLog) -> PageState -> PageState -> Prop :=
| steps_done st : Steps [] st st
| steps_page st batch batches st' :
    loop_guard maxLogs st = true ->
    http_query w (query_at st) = inr batch ->
    Steps batches (page_advance maxLogs st batch) st' ->
    Steps (batch :: batches) st st'.

Lemma loop_unfold (fuel : nat) (st : PageState) :
  loop_guard maxLogs st = true ->
  loop (S fuel) st =
  (ctl <- iteration st ;;
   match ctl with
   | Continue st' => loop fuel st'
   | Break st' => ret (allLogs st')
   end).
Proof. intros Hg. simpl. rewrite Hg. reflexivity. Qed.

Lemma loop_exit (fuel : nat) (st : PageState) :
  loop_guard maxLogs st = false -> loop fuel st = ret (allLogs st).
Proof. intros Hg. destruct fuel; simpl; rewrite Hg; reflexivity. Qed.

(** The events of the iterations of [Steps]. *)
Fixpoint steps_events (batches : list (list DebugLog)) (st : PageState)
  : list Event :=
  match batches with
  | [] => []
  | batch :: batches' =>
      page_events st batch ++ steps_events batches' (page_advance maxLogs st batch)
  end.

(** Running the iterations of [Steps] uses one unit of fuel each. *)
Lemma loop_steps (batches : list (list DebugLog)) (st st' : PageState) (fuel : nat) :
  Steps batches st st' ->
  loop (length batches + fuel) st =
  (steps_events batches st ++ trace (loop fuel st'), outcome (loop fuel st')).
Proof.
  induction 1 as [st | st batch batches st' Hg Hq _ IH].
  - simpl plus. simpl steps_events. destruct (loop fuel st); reflexivity.
  - change (length (batch :: batches) + fuel)%nat
      with (S (length batches + fuel)).
    rewrite loop_unfold, (page_iteration_ok _ _ Hq) by assumption.
    unfold bind. rewrite IH.
    change (steps_events (batch :: batches) st) with
      (page_events st batch ++ steps_events batches (page_advance maxLogs st batch)).
    rewrite <- app_assoc. reflexivity.
Qed.

Lemma steps_accumulate (batches : list (list DebugLog)) (st st' : PageState) :
  Steps batches st st' ->
  allLogs st' = allLogs st ++ concat batches
  /\ offset st' = offset st + len (concat batches).
Proof.
  induction 1 as [st | st batch batches st' _ _ _ [IHl IHo]].
  - simpl. rewrite app_nil_r. unfold len. simpl. split; [reflexivity | lia].
  - rewrite IHl, IHo. simpl. unfold len. rewrite <- app_assoc, !length_app.
    split; [reflexivity | lia].
Qed.

(** The loop never ends with an error of its own. *)
Lemma loop_never_throws (fuel : nat) (st : PageState) (error : string) :
  outcome (loop fuel st) <> Throw error.
Proof.
  revert st. induction fuel as [|fuel IH]; intros st.
  - simpl. destruct (loop_guard maxLogs st); discriminate.
  - destruct (loop_guard maxLogs st) eqn:Hg.
    + rewrite loop_unfold by assumption.
      destruct (http_query w (query_at st)) as [e|batch] eqn:Hq.
      * rewrite (page_iteration_fail _ _ Hq). discriminate.
      * rewrite (page_iteration_ok _ _ Hq). unfold bind.
        specialize (IH (page_advance maxLogs st batch)).
        destruct (loop _ _) as [t r]. exact IH.
    + rewrite loop_exit by assumption. discriminate.
Qed.

(** Whatever the loop returns is the accumulator of a state it
    reached. *)
Lemma loop_result_reached (fuel : nat) (st : PageState) (logs : list DebugLog) :
  outcome (loop fuel st) = Ok logs ->
  exists batches st', Steps batches st st' /\ logs = allLogs st'.
Proof.
  revert st. induction fuel as [|fuel IH]; intros st Hout.
  - simpl in Hout. destruct (loop_guard maxLogs st); [discriminate|].
    injection Hout as <-. exists [], st. split; [constructor | reflexivity].
  - destruct (loop_guard maxLogs st) eqn:Hg.
    + rewrite loop_unfold in Hout by assumption.
      destruct (http_query w (query_at st)) as [e|batch] eqn:Hq.
      * rewrite (page_iteration_fail _ _ Hq) in Hout. injection Hout as <-.
        exists [], st. split; [constructor | reflexivity].
      * rewrite (page_iteration_ok _ _ Hq) in Hout. unfold bind in Hout.
        destruct (loop _ _) as [t r] eqn:E. simpl in Hout. subst r.
        destruct (IH (page_advance maxLogs st batch) ltac:(rewrite E; reflexivity))
          as (batches & st' & Hsteps & ->).
        exists (batch :: batches), st'. split; [|reflexivity].
        econstructor; eassumption.
    + rewrite loop_exit in Hout by assumption. injection Hout as <-.
      exists [], st. split; [constructor | reflexivity].
Qed.

(** Each page returns at most the number of records it was asked for. *)
Definition pages_within_limit : Prop :=
  forall q batch, http_query w q = inr batch -> len batch <= Z.max 0 (q_limit q).

Lemma cap_preserved (m : Z) (st : PageState) (batch : list DebugLog) :
  pages_within_limit -> maxLogs = Some m -> 0 < m ->
  loop_guard maxLogs st = true ->
  http_query w (query_at st) = inr batch ->
  len (allLogs (page_advance maxLogs st batch)) <= m.
Proof.
  intros Hw -> Hm Hg Hq. apply Hw in Hq. simpl in *.
  unfold loop_guard, currentBatchSize, page_batchSize in *. simpl in *.
  destruct (Z.eqb_spec m 0) as [|_]; [lia|]. simpl in *.
  apply andb_true_iff in Hg as [_ Hg]. apply Z.ltb_lt in Hg.
  unfold len in *. rewrite length_app. lia.
Qed.

Lemma steps_cap (m : Z) (batches : list (list DebugLog)) (st st' : PageState) :
  pages_within_limit -> maxLogs = Some m -> 0 < m ->
  Steps batches st st' -> len (allLogs st) <= m -> len (allLogs st') <= m.
Proof.
  intros Hw Hmax Hm. induction 1 as [|st batch batches st' Hg Hq _ IH]; [auto|].
  intros _. apply IH. eapply cap_preserved; eassumption.
Qed.

End Paging.

Lemma unlimited_no_cap (maxLogs : option Z) (st : PageState) :
  maxLogs = None \/ maxLogs = Some 0 ->
  loop_guard maxLogs st = hasMore st
  /\ currentBatchSize maxLogs st = page_batchSize.
Proof.
  intros [-> | ->]; unfold loop_guard, currentBatchSize; simpl;
    rewrite andb_true_r; split; reflexivity.
Qed.

(** C2. For each of the three accumulation loops (they differ in the
    [WHERE] clause only): an iteration whose page arrives adds the
    length of that page to the offset, so the offset is always the
    number of records accumulated; when pages hold at most what was
    asked for and [maxLogs] is positive, the accumulated count never
    exceeds it, in any state reached and in any result returned; when
    [maxLogs] is unset or zero no cap applies, every page asks for 200
    records, and the loop goes on exactly until a page holds fewer. *)
Theorem C2_paging_offset_and_cap (w : World) (maxLogs : option Z) :
  pages_within_limit w ->
  forall whereClause : string,
  (forall st batch,
      http_query w (page_query whereClause maxLogs st) = inr batch ->
      outcome (page_iteration w whereClause maxLogs st)
        = Ok (Continue (page_advance maxLogs st batch))
      /\ offset (page_advance maxLogs st batch) = offset st + len batch
      /\ allLogs (page_advance maxLogs st batch) = allLogs st ++ batch)
  /\ (forall batches st,
        Steps w whereClause maxLogs batches page_init st ->
        allLogs st = concat batches /\ offset st = len (allLogs st))
  /\ (forall m, maxLogs = Some m -> 0 < m ->
        (forall batches st,
            Steps w whereClause maxLogs batches page_init st ->
            len (allLogs st) <= m)
        /\ (forall fuel logs,
              outcome (page_loop w fuel whereClause maxLogs page_init) = Ok logs ->
              len logs <= m)
        /\ (forall fuel userId dateFrom dateTo logs,
              outcome (getAllDebugLogs w fuel maxLogs) = Ok logs
              \/ outcome (getAllDebugLogsByUser w fuel userId maxLogs) = Ok logs
              \/ outcome (getAllDebugLogsByDateRange w fuel dateFrom dateTo maxLogs)
                 = Ok logs ->
              len logs <= m))
  /\ (maxLogs = None \/ maxLogs = Some 0 ->
        (forall st, loop_guard maxLogs st = hasMore st
                    /\ q_limit (page_query whereClause maxLogs st) = 200)
        /\ (forall st batch,
              http_query w (page_query whereClause maxLogs st) = inr batch ->
              (loop_guard maxLogs (page_advance maxLogs st batch) = false
               <-> len batch < 200))
        /\ (forall batches st fuel,
              Steps w whereClause maxLogs batches page_init st ->
              hasMore st = false ->
              outcome (page_loop w (length batches + fuel) whereClause maxLogs page_init)
              = Ok (concat batches))).
Proof.
  intros Hw whereClause.
  assert (Hresult : forall wc m fuel logs,
             maxLogs = Some m -> 0 < m ->
             outcome (page_loop w fuel wc maxLogs page_init) = Ok logs ->
             len logs <= m).
  { intros wc m fuel logs Hmax Hm Hout.
    apply loop_result_reached in Hout as (batches & st' & Hsteps & ->).
    eapply steps_cap; try eassumption. unfold len. simpl. lia. }
  split; [|split; [|split]].
  - intros st batch Hq. rewrite (page_iteration_ok _ _ _ _ _ Hq).
    repeat split.
  - intros batches st Hsteps.
    apply steps_accumulate in Hsteps as [Hl Ho]. simpl in *.
    rewrite Hl, Ho. split; [reflexivity | lia].
  - intros m Hmax Hm. split; [|split].
    + intros batches st Hsteps.
      eapply steps_cap; try eassumption. unfold len. simpl. lia.
    + intros fuel logs. apply Hresult; assumption.
    + intros fuel userId dateFrom dateTo logs [H | [H | H]];
        eapply Hresult; eassumption.
  - intros Hun. split; [|split].
    + intros st. destruct (unlimited_no_cap maxLogs st Hun) as [Hg Hc].
      split; [exact Hg | exact Hc].
    + intros st batch Hq.
      destruct (unlimited_no_cap maxLogs (page_advance maxLogs st batch) Hun)
        as [-> _].
      destruct (unlimited_no_cap maxLogs st Hun) as [_ Hc].
      apply Hw in Hq. simpl in *. rewrite Hc in *. unfold page_batchSize in *.
      rewrite Z.eqb_neq. lia.
    + intros batches st fuel Hsteps Hmore.
      rewrite (loop_steps _ _ _ _ _ _ fuel Hsteps).
      rewrite loop_exit.
      * apply steps_accumulate in Hsteps as [-> _]. reflexivity.
      * destruct (unlimited_no_cap maxLogs st Hun) as [-> _]. exact Hmore.
Qed.

Definition three_logs : list DebugLog :=
  [sample_log "07L000000000001AAA" 10; sample_log "07L000000000002AAA" 20;
   sample_log "07L000000000003AAA" 30].

Lemma db_pages_within_limit (db : list DebugLog) (body : string -> string + string) :
  pages_within_limit (sample_world (db_query db) body).
Proof.
  intros q batch Hq. simpl in Hq. unfold db_query in Hq. injection Hq as <-.
  unfold len. rewrite length_take. lia.
Qed.

Lemma C2_paging_offset_and_cap_witness :
  pages_within_limit (sample_world (db_query three_logs) no_body)
  /\ outcome (getAllDebugLogs (sample_world (db_query three_logs) no_body) 5 (Some 2))
     = Ok (take 2 three_logs)
  /\ len (take 2 three_logs) <= 2.
Proof.
  split; [apply db_pages_within_limit|].
  split; [reflexivity|].
  pose proof (C2_paging_offset_and_cap
                (sample_world (db_query three_logs) no_body) (Some 2)
                (db_pages_within_limit three_logs no_body) "") as (_ & _ & Hcap & _).
  destruct (Hcap 2 eq_refl ltac:(lia)) as (_ & Hres & _).
  apply (Hres 5%nat). reflexivity.
Defined.

(** C7. When the page requested in a reached state fails, the loop
    warns and breaks: with fuel for the iterations made, the function
    returns the records of the pages before, the failed request is the
    last one issued, and no run of the three functions ever ends in an
    error. *)
Theorem C7_page_failure_returns_partial (w : World) (whereClause : string)
    (maxLogs : option Z) (batches : list (list DebugLog)) (st : PageState)
    (error : string) (fuel : nat) :
  Steps w whereClause maxLogs batches page_init st ->
  loop_guard maxLogs st = true ->
  http_query w (page_query whereClause maxLogs st) = inl error ->
  (length batches < fuel)%nat ->
  page_loop w fuel whereClause maxLogs page_init
  = (steps_events whereClause maxLogs batches page_init
       ++ failure_events whereClause maxLogs st error,
     Ok (concat batches))
  /\ allLogs st = concat batches
  /\ (forall fuel' wc e, outcome (page_loop w fuel' wc maxLogs page_init) <> Throw e)
  /\ (forall fuel' userId dateFrom dateTo e,
        outcome (getAllDebugLogs w fuel' maxLogs) <> Throw e
        /\ outcome (getAllDebugLogsByUser w fuel' userId maxLogs) <> Throw e
        /\ outcome (getAllDebugLogsByDateRange w fuel' dateFrom dateTo maxLogs)
           <> Throw e).
Proof.
  intros Hsteps Hg Hq Hfuel.
  pose proof (steps_accumulate _ _ _ _ _ _ Hsteps) as [Hl _]. simpl in Hl.
  split; [|split; [exact Hl | split]].
  - replace fuel with (length batches + S (fuel - length batches - 1))%nat by lia.
    rewrite (loop_steps _ _ _ _ _ _ _ Hsteps).
    rewrite loop_unfold, (page_iteration_fail _ _ _ _ _ Hq) by assumption.
    simpl. rewrite Hl. reflexivity.
  - intros fuel' wc e. apply loop_never_throws.
  - intros fuel' userId dateFrom dateTo e.
    repeat split; apply loop_never_throws.
Qed.

(** A store whose first page is full and whose second request fails. *)
Definition full_page : list DebugLog :=
  replicate 200 (sample_log "07L000000000001AAA" 10).

Definition flaky_query (q : SoqlQuery) : string + list DebugLog :=
  if default 0 (q_offset q) =? 0 then inr full_page else inl "ECONNRESET".

Lemma C7_page_failure_returns_partial_witness :
  let w := sample_world flaky_query no_body in
  let st := page_advance None page_init full_page in
  Steps w "" None [full_page] page_init st
  /\ http_query w (page_query "" None st) = inl "ECONNRESET"
  /\ outcome (getAllDebugLogs w 2 None) = Ok full_page.
Proof.
  intros w st.
  assert (Hsteps : Steps w "" None [full_page] page_init st).
  { econstructor; [reflexivity | reflexivity | constructor]. }
  split; [exact Hsteps|]. split; [reflexivity|].
  destruct (C7_page_failure_returns_partial w "" None [full_page] st
              "ECONNRESET" 2 Hsteps eq_refl eq_refl ltac:(simpl; lia))
    as [Hrun _].
  unfold getAllDebugLogs. rewrite Hrun. reflexivity.
Defined.

(** ** Bulk body fetch *)

Section Bodies.
Context (w : World).

(** The body the remote store gives for an id, if it gives one. *)
Definition body_of (logId : string) : option string :=
  match http_body w logId with
  | inr b => Some b
  | inl _ => None
  end.

(** The events of one request of a batch: the request and, when it
    fails, the warning. *)
Definition fetch_events (logId : string) : list Event :=
  match http_body w logId with
  | inr _ => [EvBody logId]
  | inl e =>
      [EvBody logId;
       EvWarn ("Failed to retrieve log body for " +:+ logId +:+ ": "
               +:+ new_Error ("Failed to retrieve debug log body for ID "
                    +:+ logId +:+ ": " +:+ e))]
  end.

(** A failed request is caught where it is made. *)
Lemma fetch_or_null_caught (logId : string) :
  fetch_or_null w logId = (fetch_events logId, Ok (logId, body_of logId)).
Proof.
  unfold fetch_or_null, getDebugLogBody, client_body, fetch_events, body_of.
  simpl. destruct (http_body w logId); reflexivity.
Qed.

Lemma promise_all_fetch (batch : list string) :
  promise_all (fetch_or_null w) batch =
  (flat_map fetch_events batch, Ok (map (fun id => (id, body_of id)) batch)).
Proof.
  induction batch as [|id batch IH]; [reflexivity|].
  simpl. rewrite fetch_or_null_caught, IH. simpl.
  rewrite app_nil_r. reflexivity.
Qed.

Lemma store_batch_lookup (batch : list string) (results : gmap string string)
    (logId : string) :
  store_batch results (map (fun id => (id, body_of id)) batch) !! logId =
  match body_of logId with
  | Some b => if decide (logId ∈ batch) then Some b else results !! logId
  | None => results !! logId
  end.
Proof.
  revert results. induction batch as [|id batch IH]; intros results.
  - simpl. destruct (body_of logId); reflexivity.
  - unfold store_batch in *. simpl. rewrite IH. clear IH.
    destruct (decide (id = logId)) as [->|Hne].
    + destruct (body_of logId) as [b|] eqn:Hb; [|reflexivity].
      rewrite lookup_insert_eq.
      destruct (decide (logId ∈ batch)) as [Hin|Hin],
               (decide (logId ∈ logId :: batch)) as [Hin'|Hin'];
        try reflexivity; exfalso; rewrite elem_of_cons in Hin'; intuition congruence.
    + assert (Hres : (match body_of id with
                      | Some b => <[id:=b]> results
                      | None => results
                      end) !! logId = results !! logId).
      { destruct (body_of id); [apply lookup_insert_ne; assumption | reflexivity]. }
      rewrite Hres. destruct (body_of logId); [|reflexivity].
      destruct (decide (logId ∈ batch)) as [Hin|Hin],
               (decide (logId ∈ id :: batch)) as [Hin'|Hin'];
        try reflexivity; exfalso; rewrite elem_of_cons in Hin'; intuition congruence.
Qed.

Lemma store_batch_app (results : gmap string string)
    (xs ys : list (string * option string)) :
  store_batch (store_batch results xs) ys = store_batch results (xs ++ ys).
Proof. unfold store_batch. rewrite fold_left_app. reflexivity. Qed.

(** The groups the loop takes: ten ids at a time from what remains. *)
Fixpoint groups (n : nat) (rest : list string) : list (list string) :=
  match rest with
  | [] => []
  | _ :: _ =>
      match n with
      | O => []
      | S n' => take 10 rest :: groups n' (drop 10 rest)
      end
  end.

Definition groups_of (logIds : list string) : list (list string) :=
  groups (length logIds) logIds.

(** The events of the loop: the requests of each group, and a pause
    of 100 ms between two groups. *)
Fixpoint batch_trace (gs : list (list string)) : list Event :=
  match gs with
  | [] => []
  | g :: gs' =>
      flat_map fetch_events g
      ++ (match gs' with [] => [] | _ :: _ => [EvSleep 100] end)
      ++ batch_trace gs'
  end.

Lemma groups_concat (n : nat) (rest : list string) :
  (length rest <= n)%nat -> concat (groups n rest) = rest.
Proof.
  revert rest. induction n as [|n IH]; intros [|x rest] Hlen; simpl in *;
    try reflexivity; try lia.
  f_equal. rewrite IH.
  - apply (take_drop 9 rest).
  - rewrite length_drop. lia.
Qed.

Lemma groups_sizes (n : nat) (rest : list string) (k : nat) (g : list string) :
  groups n rest !! k = Some g ->
  (1 <= length g <= 10)%nat
  /\ ((S k < length (groups n rest))%nat -> length g = 10%nat).
Proof.
  revert rest k. induction n as [|n IH]; intros [|x rest] k Hk;
    try discriminate.
  change (groups (S n) (x :: rest))
    with (take 10 (x :: rest) :: groups n (drop 10 (x :: rest))) in *.
  destruct k as [|k]; simpl in Hk.
  - injection Hk as <-. simpl. rewrite length_take. split; [lia|].
    intros Hmore. destruct (drop 9 rest) as [|y more] eqn:Hd.
    + destruct n; simpl in Hmore; lia.
    + assert (length (drop 9 rest) = S (length more)) as Hl by (rewrite Hd; reflexivity).
      rewrite length_drop in Hl. lia.
  - apply IH in Hk as [Hsz Hfull]. split; [assumption|].
    intros Hmore. apply Hfull. simpl in Hmore. lia.
Qed.

Lemma groups_nil (n : nat) : groups n [] = [].
Proof. destruct n; reflexivity. Qed.

Lemma groups_step (n : nat) (rest : list string) :
  rest <> [] -> groups (S n) rest = take 10 rest :: groups n (drop 10 rest).
Proof. destruct rest; [congruence | reflexivity]. Qed.

Lemma bodies_loop_groups (n : nat) (logIds : list string) (i : Z)
    (results : gmap string string) :
  0 <= i ->
  (length (drop (Z.to_nat i) logIds) <= n)%nat ->
  bodies_loop w n logIds i results =
  (batch_trace (groups n (drop (Z.to_nat i) logIds)),
   Ok (store_batch results
         (map (fun id => (id, body_of id)) (drop (Z.to_nat i) logIds)))).
Proof.
  revert i results. induction n as [|n IH]; intros i results Hi Hfuel.
  - assert (Hnil : drop (Z.to_nat i) logIds = []).
    { apply length_zero_iff_nil. lia. }
    rewrite Hnil. simpl.
    apply (f_equal length) in Hnil. rewrite length_drop in Hnil. simpl in Hnil.
    destruct (Z.ltb_spec i (len logIds)); [unfold len in *; lia | reflexivity].
  - simpl bodies_loop. unfold bodies_batchSize.
    pose proof (length_drop logIds (Z.to_nat i)) as Hlen.
    destruct (Z.ltb_spec i (len logIds)) as [Hlt | Hge]; unfold len in *.
    + rewrite promise_all_fetch.
      assert (Hslice : slice logIds i (i + 10) = take 10 (drop (Z.to_nat i) logIds)).
      { unfold slice. replace (Z.to_nat (i + 10 - i)) with 10%nat by lia. reflexivity. }
      assert (Hnext : drop (Z.to_nat (i + 10)) logIds
                      = drop 10 (drop (Z.to_nat i) logIds)).
      { rewrite drop_drop. f_equal. lia. }
      assert (Hrest : (length (drop (Z.to_nat (i + 10)) logIds) <= n)%nat).
      { rewrite length_drop. lia. }
      pose proof (length_drop logIds (Z.to_nat (i + 10))) as Hlen'.
      rewrite Hslice. unfold bind.
      rewrite (IH (i + 10)) by (lia || assumption).
      rewrite store_batch_app, Hnext, <- map_app, take_drop.
      rewrite Hnext in Hrest, Hlen'.
      set (rest := drop (Z.to_nat i) logIds) in *.
      rewrite groups_step by (intros E; rewrite E in Hlen; simpl in Hlen; lia).
      change (batch_trace (take 10 rest :: groups n (drop 10 rest)))
        with (flat_map fetch_events (take 10 rest)
              ++ (match groups n (drop 10 rest) with
                  | [] => []
                  | _ :: _ => [EvSleep 100]
                  end)
              ++ batch_trace (groups n (drop 10 rest))).
      f_equal. f_equal.
      destruct (Z.ltb_spec (i + 10) (Z.of_nat (length logIds))) as [Hm | Hm].
      * destruct n as [|n]; [lia|].
        rewrite groups_step
          by (intros E; rewrite E in Hlen'; simpl in Hlen'; lia).
        reflexivity.
      * assert (Hnil : drop 10 rest = []) by (apply length_zero_iff_nil; lia).
        rewrite Hnil, groups_nil. reflexivity.
    + assert (Hnil : drop (Z.to_nat i) logIds = []).
      { apply length_zero_iff_nil. lia. }
      rewrite Hnil. reflexivity.
Qed.

End Bodies.

(** The requests and the pauses among the events, in order: what the
    loop asks of the remote store and when it waits.  Warnings are
    left out: where a warning falls among the requests of its group
    depends on when the answers arrive. *)
Definition schedule (t : list Event) : list Event :=
  flat_map (fun e => match e with
                     | EvBody _ | EvSleep _ => [e]
                     | _ => []
                     end) t.

(** The schedule of a run over the groups [gs]: the requests of each
    group in list order, and a pause of 100 ms between two groups. *)
Fixpoint group_schedule (gs : list (list string)) : list Event :=
  match gs with
  | [] => []
  | g :: gs' =>
      map EvBody g
      ++ (match gs' with [] => [] | _ :: _ => [EvSleep 100] end)
      ++ group_schedule gs'
  end.

(** The warning logged for an id whose request fails with [e]. *)
Definition failure_warning (logId e : string) : Event :=
  EvWarn ("Failed to retrieve log body for " +:+ logId +:+ ": "
          +:+ new_Error ("Failed to retrieve debug log body for ID "
               +:+ logId +:+ ": " +:+ e)).

Lemma schedule_fetch_events (w : World) (g : list string) :
  schedule (flat_map (fetch_events w) g) = map EvBody g.
Proof.
  unfold schedule. induction g as [|id g IH]; [reflexivity|].
  change (flat_map (fetch_events w) (id :: g))
    with (fetch_events w id ++ flat_map (fetch_events w) g).
  rewrite flat_map_app, IH. unfold fetch_events.
  destruct (http_body w id); reflexivity.
Qed.

Lemma schedule_batch_trace (w : World) (gs : list (list string)) :
  schedule (batch_trace w gs) = group_schedule gs.
Proof.
  induction gs as [|g gs IH]; [reflexivity|].
  change (batch_trace w (g :: gs))
    with (flat_map (fetch_events w) g
          ++ (match gs with [] => [] | _ :: _ => [EvSleep 100] end)
          ++ batch_trace w gs).
  unfold schedule in *. rewrite !flat_map_app.
  rewrite (schedule_fetch_events w g : flat_map _ _ = _), IH.
  destruct gs; reflexivity.
Qed.

Lemma batch_trace_warns (w : World) (gs : list (list string)) (logId e : string) :
  In logId (concat gs) -> http_body w logId = inl e ->
  In (failure_warning logId e) (batch_trace w gs).
Proof.
  intros Hin He. induction gs as [|g gs IH]; [destruct Hin|].
  change (batch_trace w (g :: gs))
    with (flat_map (fetch_events w) g
          ++ (match gs with [] => [] | _ :: _ => [EvSleep 100] end)
          ++ batch_trace w gs).
  change (concat (g :: gs)) with (g ++ concat gs) in Hin.
  apply in_app_or in Hin as [Hg | Hrest].
  - apply in_or_app. left. apply in_flat_map. exists logId. split; [exact Hg|].
    unfold fetch_events, failure_warning. rewrite He. right. left. reflexivity.
  - apply in_or_app. right. apply in_or_app. right. apply IH. exact Hrest.
Qed.

(** C5. The ids are taken in consecutive groups of ten, the last group
    holding what remains (25 ids: 10, 10 and 5): the requests go out
    group after group in list order, with a pause between two groups.
    The call always returns a mapping: it holds exactly the ids of the
    list whose request succeeds, each with its body; an id whose
    request fails is warned about and left out, and the other ids are
    not affected. *)
Theorem C5_bodies_in_groups_of_ten (w : World) (logIds : list string) :
  let gs := groups_of logIds in
  let run := getDebugLogBodies w logIds in
  concat gs = logIds
  /\ (forall k g, gs !! k = Some g ->
        (1 <= length g <= 10)%nat
        /\ ((S k < length gs)%nat -> length g = 10%nat))
  /\ (length logIds = 25%nat -> map length gs = [10%nat; 10%nat; 5%nat])
  /\ schedule (trace run) = group_schedule gs
  /\ (forall logId error,
        logId ∈ logIds -> http_body w logId = inl error ->
        In (failure_warning logId error) (trace run))
  /\ exists results,
       outcome run = Ok results
       /\ (forall logId body,
             results !! logId = Some body
             <-> logId ∈ logIds /\ http_body w logId = inr body)
       /\ (forall logId error,
             http_body w logId = inl error -> results !! logId = None).
Proof.
  intros gs run.
  assert (Hconcat : concat gs = logIds).
  { subst gs. unfold groups_of. apply groups_concat. lia. }
  assert (Hrun : run = (batch_trace w gs,
                        Ok (store_batch ∅ (map (fun id => (id, body_of w id)) logIds)))).
  { subst run gs. unfold getDebugLogBodies, groups_of.
    rewrite bodies_loop_groups; [reflexivity | lia | rewrite length_drop; lia]. }
  split; [exact Hconcat|].
  split; [intros k g; subst gs; unfold groups_of; apply groups_sizes|].
  split.
  { intros H25. subst gs. unfold groups_of.
    do 26 (destruct logIds as [|? logIds]; try discriminate). reflexivity. }
  rewrite Hrun. unfold trace, outcome. cbn [fst snd].
  split; [apply schedule_batch_trace|].
  split.
  { intros logId error Hin He. apply batch_trace_warns; [|exact He].
    rewrite Hconcat. apply list_elem_of_In. exact Hin. }
  exists (store_batch ∅ (map (fun id => (id, body_of w id)) logIds)).
  split; [reflexivity|]. split.
  - intros logId body. rewrite store_batch_lookup, lookup_empty.
    unfold body_of. destruct (http_body w logId) as [e|b].
    + split; [discriminate | intros [_ H]; discriminate].
    + destruct (decide (logId ∈ logIds)) as [Hin|Hin].
      * split; [intros [= ->]; auto | intros [_ [= ->]]; reflexivity].
      * split; [discriminate | tauto].
  - intros logId error He. rewrite store_batch_lookup, lookup_empty.
    unfold body_of. rewrite He. reflexivity.
Qed.

(** ** The search loop *)

Lemma bind_ok {A B} (t : list Event) (a : A) (f : A -> M B) :
  bind (t, Ok a) f = (t ++ trace (f a), outcome (f a)).
Proof. unfold bind, trace, outcome. destruct (f a); reflexivity. Qed.

Section SearchLoop.
Context (w : World) (options : SearchOptions).

(** What a record contributes to the results: itself with its matches
    when its body arrives and holds the pattern, nothing otherwise. *)
Definition found_one (log : DebugLog) : list SearchResult :=
  match http_body w (Id log) with
  | inr body =>
      let matches :=
        searchInLogBody body (searchText options) (caseSensitive options) in
      if 0 <? len matches then [{| log := log; matches := matches |}] else []
  | inl _ => []
  end.

(** The events of examining a record: the request for its body and,
    when that fails, the warning. *)
Definition examine_events (log : DebugLog) : list Event :=
  match http_body w (Id log) with
  | inr _ => [EvBody (Id log)]
  | inl e =>
      [EvBody (Id log);
       EvWarn ("Failed to retrieve log body for " +:+ Id log +:+ ": "
               +:+ new_Error ("Failed to retrieve debug log body for ID "
                    +:+ Id log +:+ ": " +:+ e))]
  end.

Lemma search_one_caught (results : list SearchResult) (log : DebugLog) :
  search_one w options results log =
  (examine_events log, Ok (results ++ found_one log)).
Proof.
  unfold search_one, getDebugLogBody, client_body, examine_events, found_one.
  simpl. destruct (http_body w (Id log)) as [e|body]; simpl.
  - rewrite app_nil_r. reflexivity.
  - destruct (0 <? len _); simpl; rewrite ?app_nil_r; reflexivity.
Qed.

Lemma search_loop_all (logs : list DebugLog) (acc : list SearchResult) :
  for_each (search_one w options) logs acc =
  (flat_map examine_events logs, Ok (acc ++ flat_map found_one logs)).
Proof.
  revert acc. induction logs as [|log logs IH]; intros acc; simpl.
  - rewrite app_nil_r. reflexivity.
  - rewrite search_one_caught, bind_ok, IH. simpl.
    rewrite <- app_assoc. reflexivity.
Qed.

Lemma searchLogsWithStats_run (tq : list Event) (logs : list DebugLog) :
  fetch_filtered w options = (tq, Ok logs) ->
  searchLogsWithStats w options =
  (tq ++ flat_map examine_events logs, Ok (flat_map found_one logs, len logs)).
Proof.
  intros Hfetch. unfold searchLogsWithStats.
  rewrite Hfetch, bind_ok, search_loop_all, bind_ok. simpl.
  rewrite app_nil_r. reflexivity.
Qed.

Lemma searchAllLogsWithStats_run (fuel : nat) (tq : list Event)
    (logs : list DebugLog) :
  fetch_all_filtered w fuel options = (tq, Ok logs) ->
  searchAllLogsWithStats w fuel options =
  (tq ++ flat_map examine_events logs, Ok (flat_map found_one logs, len logs)).
Proof.
  intros Hfetch. unfold searchAllLogsWithStats.
  rewrite Hfetch, bind_ok, search_loop_all, bind_ok. simpl.
  rewrite app_nil_r. reflexivity.
Qed.

Lemma searchLogs_run (tq : list Event) (logs : list DebugLog) :
  fetch_filtered w options = (tq, Ok logs) ->
  searchLogs w options =
  (tq ++ flat_map examine_events logs, Ok (flat_map found_one logs)).
Proof.
  intros Hfetch. unfold searchLogs.
  rewrite Hfetch, bind_ok, search_loop_all. reflexivity.
Qed.

Lemma found_one_log (l : DebugLog) (r : SearchResult) :
  In r (found_one l) ->
  log r = l /\ matches r <> [] /\ exists body, http_body w (Id l) = inr body.
Proof.
  unfold found_one. destruct (http_body w (Id l)) as [e|body]; [intros []|].
  destruct (Z.ltb_spec 0 (len (searchInLogBody body (searchText options)
                                               (caseSensitive options))))
    as [Hpos|_]; [|intros []].
  intros [<-|[]]. simpl. split; [reflexivity|]. split; [|eauto].
  intros E. rewrite E in Hpos. unfold len in Hpos. simpl in Hpos. lia.
Qed.

(** A search result never outnumbers the records examined, and a
    record that contributes nothing makes it strictly smaller. *)
Lemma found_count (logs : list DebugLog) :
  len (flat_map found_one logs) <= len logs
  /\ ((exists l, In l logs /\ found_one l = []) ->
      len (flat_map found_one logs) < len logs).
Proof.
  assert (Hone : forall l, len (found_one l) <= 1).
  { intros l. unfold found_one, len.
    destruct (http_body w (Id l)); [simpl; lia|].
    destruct (0 <? _); simpl; lia. }
  induction logs as [|l logs [IHle IHlt]]; unfold len in *; simpl.
  - split; [lia | intros (l & [] & _)].
  - rewrite length_app. specialize (Hone l). split; [lia|].
    intros (l' & [<- | Hin] & Hnone).
    + rewrite Hnone. simpl. lia.
    + assert (Z.of_nat (length (flat_map found_one logs)) < Z.of_nat (length logs))
        by eauto.
      lia.
Qed.

End SearchLoop.

(** C6. When the body of one record cannot be fetched, the search
    warns and goes on: the records before and after the failing one
    are examined as if it were not there, no result belongs to it,
    every other record whose body holds the pattern is in the results,
    and the count of records searched still includes it. *)
Theorem C6_search_skips_failed_body (w : World) (options : SearchOptions)
    (before after : list DebugLog) (bad : DebugLog) (error : string) :
  http_body w (Id bad) = inl error ->
  let logs := before ++ bad :: after in
  let results :=
    flat_map (found_one w options) before ++ flat_map (found_one w options) after in
  let events :=
    flat_map (examine_events w) before
    ++ examine_events w bad ++ flat_map (examine_events w) after in
  (forall r, In r results -> Id (log r) <> Id bad)
  /\ (forall l body,
        In l (before ++ after) -> http_body w (Id l) = inr body ->
        searchInLogBody body (searchText options) (caseSensitive options) <> [] ->
        In {| log := l;
              matches := searchInLogBody body (searchText options)
                                         (caseSensitive options) |} results)
  /\ for_each (search_one w options) logs [] = (events, Ok results)
  /\ (forall tq, fetch_filtered w options = (tq, Ok logs) ->
        searchLogs w options = (tq ++ events, Ok results)
        /\ searchLogsWithStats w options
           = (tq ++ events, Ok (results, len before + 1 + len after)))
  /\ (forall fuel tq, fetch_all_filtered w fuel options = (tq, Ok logs) ->
        searchAllLogsWithStats w fuel options
        = (tq ++ events, Ok (results, len before + 1 + len after))).
Proof.
  intros Hbad logs results events.
  assert (Hnone : found_one w options bad = []).
  { unfold found_one. rewrite Hbad. reflexivity. }
  assert (Hres : flat_map (found_one w options) logs = results).
  { subst logs results. rewrite flat_map_app. simpl. rewrite Hnone. reflexivity. }
  assert (Hev : flat_map (examine_events w) logs = events).
  { subst logs events. rewrite flat_map_app. reflexivity. }
  assert (Hlen : len logs = len before + 1 + len after).
  { subst logs. unfold len. rewrite length_app. simpl. lia. }
  split; [|split; [|split; [|split]]].
  - intros r Hr. subst results.
    apply in_app_iff in Hr.
    assert (Hin : exists l, In r (found_one w options l)).
    { destruct Hr as [Hr|Hr]; apply in_flat_map in Hr as (l & _ & Hr); eauto. }
    destruct Hin as (l & Hr').
    apply found_one_log in Hr' as (-> & _ & body & Hbody).
    intros E. rewrite E in Hbody. congruence.
  - intros l body Hin Hbody Hne. subst results.
    rewrite <- flat_map_app. apply in_flat_map. exists l. split; [assumption|].
    unfold found_one. rewrite Hbody.
    destruct (Z.ltb_spec 0 (len (searchInLogBody body (searchText options)
                                                 (caseSensitive options))))
      as [_|Hz]; [left; reflexivity|].
    exfalso. apply Hne. apply length_zero_iff_nil. unfold len in Hz. lia.
  - rewrite search_loop_all, Hres, Hev. reflexivity.
  - intros tq Hfetch. split.
    + rewrite (searchLogs_run _ _ _ _ Hfetch), Hres, Hev. reflexivity.
    + rewrite (searchLogsWithStats_run _ _ _ _ Hfetch), Hres, Hev, Hlen.
      reflexivity.
  - intros fuel tq Hfetch.
    rewrite (searchAllLogsWithStats_run _ _ _ _ _ Hfetch), Hres, Hev, Hlen.
    reflexivity.
Qed.

Definition failing_body (logId : string) : string + string :=
  if String.eqb logId "07L000000000002AAA" then inl "500"
  else if String.eqb logId "07L000000000001AAA" then inr "FATAL_ERROR: limit hit"
  else inr "nothing to report".

Definition fatal_options : SearchOptions :=
  {| searchText := "fatal_error"; caseSensitive := None; maxResults := None;
     dateFrom := None; dateTo := None; userId := None |}.

Lemma C6_search_skips_failed_body_witness :
  let w := sample_world (db_query three_logs) failing_body in
  http_body w "07L000000000002AAA" = inl "500"
  /\ outcome (searchLogsWithStats w fatal_options)
     = Ok ([{| log := sample_log "07L000000000001AAA" 10;
               matches := [{| lineNumber := 1;
                              line := "FATAL_ERROR: limit hit";
                              context := [] |}] |}], 3).
Proof.
  intros w. split; [reflexivity|].
  destruct (C6_search_skips_failed_body w fatal_options
              [sample_log "07L000000000001AAA" 10]
              [sample_log "07L000000000003AAA" 30]
              (sample_log "07L000000000002AAA" 20) "500" eq_refl)
    as (_ & _ & _ & Hrun & _).
  destruct (Hrun [EvQuery {| q_where := ""; q_limit := 100; q_offset := None |}]
                 eq_refl) as [_ Hstats].
  rewrite Hstats. reflexivity.
Defined.

(** ** Traces of composed computations *)

Section Traces.
Context (P : Event -> Prop).

Lemma trace_bind_all {A B} (m : M A) (f : A -> M B) :
  Forall P (trace m) ->
  (forall a, outcome m = Ok a -> Forall P (trace (f a))) ->
  Forall P (trace (bind m f)).
Proof.
  destruct m as [t [a| |]]; simpl; intros Ht Hf; try assumption.
  specialize (Hf a eq_refl). destruct (f a) as [t' r]. simpl in *.
  apply Forall_app. auto.
Qed.

Lemma trace_try_catch_all {A} (m : M A) (h : string -> M A) :
  Forall P (trace m) ->
  (forall e, Forall P (trace (h e))) ->
  Forall P (trace (try_catch m h)).
Proof.
  destruct m as [t [a|e|]]; simpl; intros Ht Hh; try assumption.
  specialize (Hh e). destruct (h e) as [t' r]. simpl in *.
  apply Forall_app. auto.
Qed.

Lemma trace_for_each_all {A St} (body : St -> A -> M St) (xs : list A) (acc : St) :
  (forall acc x, Forall P (trace (body acc x))) ->
  Forall P (trace (for_each body xs acc)).
Proof.
  intros Hbody. revert acc. induction xs as [|x xs IH]; intros acc; simpl.
  - constructor.
  - apply trace_bind_all; auto.
Qed.

Lemma trace_ret_all {A} (a : A) : Forall P (trace (ret a)).
Proof. constructor. Qed.

Lemma trace_throw_all {A} (e : string) : Forall P (trace (@throw A e)).
Proof. constructor. Qed.

Lemma trace_emit_all (e : Event) : P e -> Forall P (trace (emit e)).
Proof. intros He. repeat constructor. exact He. Qed.

End Traces.

Lemma bind_outcome_ok {A B} (m : M A) (f : A -> M B) (b : B) :
  outcome (bind m f) = Ok b ->
  exists a, outcome m = Ok a /\ outcome (f a) = Ok b
            /\ trace (bind m f) = trace m ++ trace (f a).
Proof.
  destruct m as [t [a| |]]; simpl; try discriminate.
  intros H. exists a. destruct (f a) as [t' r]. simpl in *. auto.
Qed.

(** Events of the remote store and the console: no file-system call. *)
Definition remote_event (e : Event) : Prop :=
  match e with
  | EvQuery _ | EvBody _ | EvSleep _ | EvWarn _ => True
  | EvExists _ | EvMkdir _ | EvWrite _ _ => False
  end.

Section RemoteOnly.
Context (w : World).

Ltac remote_step :=
  first [ apply trace_bind_all; [|intros ? _]
        | apply trace_try_catch_all; [|intros ?]
        | apply trace_ret_all
        | apply trace_throw_all
        | apply trace_emit_all; exact I ].

Lemma client_query_remote (q : SoqlQuery) :
  Forall remote_event (trace (client_query w q)).
Proof.
  unfold client_query. repeat remote_step.
  destruct (http_query w q); remote_step.
Qed.

Lemma getDebugLogBody_remote (logId : string) :
  Forall remote_event (trace (getDebugLogBody w logId)).
Proof.
  unfold getDebugLogBody, client_body. repeat remote_step.
  destruct (http_body w logId); remote_step.
Qed.

Lemma page_loop_remote (fuel : nat) (wc : string) (maxLogs : option Z)
    (st : PageState) :
  Forall remote_event (trace (page_loop w fuel wc maxLogs st)).
Proof.
  revert st. induction fuel as [|fuel IH]; intros st; simpl;
    destruct (loop_guard maxLogs st); try (constructor; fail).
  apply trace_bind_all.
  - unfold page_iteration. apply trace_try_catch_all.
    + apply trace_bind_all; [apply client_query_remote|]. intros batch _.
      apply trace_bind_all; [|intros ? _; remote_step].
      destruct (hasMore _); remote_step.
    + intros e. repeat remote_step.
  - intros [st'|st'] _; [apply IH | remote_step].
Qed.

Lemma fetch_filtered_remote (options : SearchOptions) :
  Forall remote_event (trace (fetch_filtered w options)).
Proof.
  unfold fetch_filtered, getDebugLogsByUser, getDebugLogsByDateRange, getDebugLogs.
  destruct (truthy_str (userId options));
    [|destruct (truthy_str (dateFrom options) || truthy_str (dateTo options))];
    (apply trace_try_catch_all; [apply client_query_remote | intros e; remote_step]).
Qed.

Lemma fetch_all_filtered_remote (fuel : nat) (options : SearchOptions) :
  Forall remote_event (trace (fetch_all_filtered w fuel options)).
Proof.
  unfold fetch_all_filtered, getAllDebugLogsByUser, getAllDebugLogsByDateRange,
    getAllDebugLogs.
  destruct (truthy_str (userId options));
    [|destruct (truthy_str (dateFrom options) || truthy_str (dateTo options))];
    apply page_loop_remote.
Qed.

Lemma search_one_remote (options : SearchOptions) (results : list SearchResult)
    (log : DebugLog) :
  Forall remote_event (trace (search_one w options results log)).
Proof.
  unfold search_one. apply trace_try_catch_all.
  - apply trace_bind_all; [apply getDebugLogBody_remote|]. intros body _.
    destruct (0 <? _); remote_step.
  - intros e. repeat remote_step.
Qed.

Lemma search_remote (fuel : nat) (options : SearchOptions) (useAllLogs : bool) :
  Forall remote_event
    (trace (if useAllLogs then searchAllLogsWithStats w fuel options
            else searchLogsWithStats w options)).
Proof.
  destruct useAllLogs; unfold searchAllLogsWithStats, searchLogsWithStats.
  - apply trace_bind_all; [apply fetch_all_filtered_remote|]. intros logs _.
    apply trace_bind_all; [|intros ? _; remote_step].
    apply trace_for_each_all. intros. apply search_one_remote.
  - apply trace_bind_all; [apply fetch_filtered_remote|]. intros logs _.
    apply trace_bind_all; [|intros ? _; remote_step].
    apply trace_for_each_all. intros. apply search_one_remote.
Qed.

End RemoteOnly.

(** C9. When the search finds nothing, [searchAndDownloadLogs] returns
    at once: the report is all zeros with no failed download, and the
    events of the call are those of the search itself, none of which
    touches the file system; neither the directory creation nor the
    bulk body fetch is reached. *)
Theorem C9_no_match_no_download (w : World) (fuel : nat)
    (searchOptions : SearchOptions) (downloadOptions : DownloadOptions)
    (useAllLogs : bool) (ts : list Event) (total : Z) :
  (if useAllLogs then searchAllLogsWithStats w fuel searchOptions
   else searchLogsWithStats w searchOptions) = (ts, Ok ([], total)) ->
  searchAndDownloadLogs w fuel searchOptions downloadOptions useAllLogs
  = (ts, Ok {| dr_searchText := searchText searchOptions;
               totalLogsSearched := total;
               matchingLogs := 0;
               downloadedLogs := 0;
               failedDownloads := [];
               downloadPath := outputDir downloadOptions;
               estimatedSize := 0 |})
  /\ Forall remote_event ts
  /\ (forall path, ~ In (EvMkdir path) ts /\ ~ In (EvExists path) ts)
  /\ (forall path content, ~ In (EvWrite path content) ts).
Proof.
  intros Hsearch.
  pose proof (search_remote w fuel searchOptions useAllLogs) as Hremote.
  rewrite Hsearch in Hremote. simpl in Hremote.
  split; [|split; [exact Hremote|]].
  - unfold searchAndDownloadLogs. rewrite Hsearch, bind_ok. simpl.
    rewrite app_nil_r. reflexivity.
  - rewrite List.Forall_forall in Hremote.
    split; [intros path; split|intros path content]; intros Hin;
      apply Hremote in Hin; exact Hin.
Qed.

Definition quiet_options : SearchOptions :=
  {| searchText := "no such text"; caseSensitive := Some true; maxResults := Some 50;
     dateFrom := None; dateTo := None; userId := None |}.

Definition sample_download : DownloadOptions :=
  {| outputDir := "out"; includeMetadata := Some true; createSummary := Some true;
     verbose := None |}.

Lemma C9_no_match_no_download_witness :
  let w := sample_world (db_query three_logs) failing_body in
  outcome (searchLogsWithStats w quiet_options) = Ok ([], 3)
  /\ searchAndDownloadLogs w 0 quiet_options sample_download false
     = (trace (searchLogsWithStats w quiet_options),
        Ok {| dr_searchText := "no such text"; totalLogsSearched := 3;
              matchingLogs := 0; downloadedLogs := 0; failedDownloads := [];
              downloadPath := "out"; estimatedSize := 0 |}).
Proof.
  intros w. split; [reflexivity|].
  destruct (C9_no_match_no_download w 0 quiet_options sample_download false
              (trace (searchLogsWithStats w quiet_options)) 3 eq_refl)
    as [Hrun _].
  exact Hrun.
Defined.

(** ** The download pipelines *)

(** Anything but the writing of a summary. *)
Definition not_summary (e : Event) : Prop :=
  match e with
  | EvWrite _ (SummaryJson _) => False
  | _ => True
  end.

Lemma remote_not_summary (e : Event) : remote_event e -> not_summary e.
Proof. destruct e; simpl; tauto. Qed.

Section Download.
Context (w : World) (downloadOptions : DownloadOptions).

Lemma fetch_events_remote (logId : string) :
  Forall remote_event (fetch_events w logId).
Proof.
  unfold fetch_events. destruct (http_body w logId); repeat constructor.
Qed.

Lemma batch_trace_remote (gs : list (list string)) :
  Forall remote_event (batch_trace w gs).
Proof.
  induction gs as [|g gs IH]; simpl; [constructor|].
  apply Forall_app. split.
  - induction g as [|id g IHg]; simpl; [constructor|].
    apply Forall_app. split; [apply fetch_events_remote | exact IHg].
  - apply Forall_app. split; [|exact IH].
    destruct gs; repeat constructor.
Qed.

(** The bulk fetch always returns, with the bodies that arrived. *)
Lemma getDebugLogBodies_run (logIds : list string) :
  getDebugLogBodies w logIds =
  (batch_trace w (groups_of logIds),
   Ok (store_batch ∅ (map (fun id => (id, body_of w id)) logIds))).
Proof.
  unfold getDebugLogBodies, groups_of.
  rewrite bodies_loop_groups; [reflexivity | lia | rewrite length_drop; lia].
Qed.

Lemma checkDiskSpace_run (logs : list DebugLog) (dir : string) :
  checkDiskSpace w logs dir =
  ([EvExists (path_dirname w dir)],
   Ok (true, fold_left (fun total log => total + getApproximateFileSize (LogLength log))
                       logs 0)).
Proof. unfold checkDiskSpace. simpl. rewrite orb_true_r. reflexivity. Qed.

Lemma ensureDirectoryExists_not_summary (dir : string) :
  Forall not_summary (trace (ensureDirectoryExists w dir)).
Proof.
  unfold ensureDirectoryExists.
  apply trace_bind_all; [apply trace_emit_all; exact I|]. intros _ _.
  destruct (negb (fs_exists w dir)); [|constructor].
  apply trace_bind_all; [apply trace_emit_all; exact I|]. intros _ _.
  destruct (fs_mkdir w dir); constructor.
Qed.

Lemma fs_writeFile_trace (filePath : string) (content : FileContent)
    (message : string -> string) :
  trace (fs_writeFile w filePath content message) = [EvWrite filePath content].
Proof.
  unfold fs_writeFile. simpl. destruct (fs_write w filePath content); reflexivity.
Qed.

Lemma save_result_not_summary (logBodies : gmap string string) (acc : Saved)
    (result : SearchResult) :
  Forall not_summary (trace (save_result w downloadOptions logBodies acc result)).
Proof.
  unfold save_result. destruct acc as [downloaded failed].
  destruct (usable_body _); [|constructor].
  apply trace_try_catch_all.
  - apply trace_bind_all.
    { unfold saveLogToFile. rewrite fs_writeFile_trace. repeat constructor. }
    intros _ _. apply trace_bind_all; [|intros; constructor].
    destruct (truthy_flag _); [|constructor].
    unfold saveMetadataToFile. rewrite fs_writeFile_trace. repeat constructor.
  - intros e. apply trace_bind_all; [apply trace_emit_all; exact I|].
    intros; constructor.
Qed.

End Download.

Lemma trace_pair {A} (t : list Event) (r : Outcome A) : trace (t, r) = t.
Proof. reflexivity. Qed.

Lemma outcome_pair {A} (t : list Event) (r : Outcome A) : outcome (t, r) = r.
Proof. reflexivity. Qed.

(** What [searchAndDownloadLogs] does once the disk-space check has
    passed. *)
Definition download_phase (w : World) (searchOptions : SearchOptions)
    (downloadOptions : DownloadOptions) (searchResults : list SearchResult)
    (totalLogsSearched estimatedSize : Z) : M DownloadResult :=
  ensureDirectoryExists w (outputDir downloadOptions) ;;;
  logBodies <- getDebugLogBodies w (map Id (map log searchResults)) ;;
  saved <- for_each (save_result w downloadOptions logBodies)
                    searchResults ([], []) ;;
  let '(downloaded, failed) := saved in
  (if truthy_flag (createSummary downloadOptions) then
     let summaryPath :=
       path_join w (outputDir downloadOptions) "download-summary.json" in
     createDownloadSummary w summaryPath (searchText searchOptions)
       (len (map log searchResults)) (len searchResults) (len downloaded) failed
   else ret tt) ;;;
  ret {| dr_searchText := searchText searchOptions;
         totalLogsSearched := totalLogsSearched;
         matchingLogs := len searchResults;
         downloadedLogs := len downloaded;
         failedDownloads := failed;
         downloadPath := outputDir downloadOptions;
         estimatedSize := estimatedSize |}.

Definition estimate (logs : list DebugLog) : Z :=
  fold_left (fun total log => total + getApproximateFileSize (LogLength log)) logs 0.

Lemma searchAndDownloadLogs_nonempty (w : World) (fuel : nat)
    (searchOptions : SearchOptions) (downloadOptions : DownloadOptions)
    (useAllLogs : bool) (ts : list Event) (results : list SearchResult)
    (total : Z) :
  (if useAllLogs then searchAllLogsWithStats w fuel searchOptions
   else searchLogsWithStats w searchOptions) = (ts, Ok (results, total)) ->
  results <> [] ->
  searchAndDownloadLogs w fuel searchOptions downloadOptions useAllLogs =
  (ts ++ [EvExists (path_dirname w (outputDir downloadOptions))]
      ++ trace (download_phase w searchOptions downloadOptions results total
                               (estimate (map log results))),
   outcome (download_phase w searchOptions downloadOptions results total
                           (estimate (map log results)))).
Proof.
  intros Hsearch Hne.
  assert (Hlen : (len results =? 0) = false).
  { apply Z.eqb_neq. unfold len. destruct results; [congruence | simpl; lia]. }
  unfold searchAndDownloadLogs. rewrite Hsearch, bind_ok. cbv beta iota.
  rewrite Hlen, checkDiskSpace_run, bind_ok. cbv beta iota. simpl negb. cbv iota.
  rewrite trace_pair, outcome_pair. reflexivity.
Qed.

(** What a written summary must look like when [n] logs matched. *)
Definition summary_counts (summaryPath : string) (n : Z) (e : Event) : Prop :=
  match e with
  | EvWrite path (SummaryJson summary) =>
      path = summaryPath
      /\ st_totalLogsSearched (sm_statistics summary) = n
      /\ st_logsWithMatches (sm_statistics summary) = n
  | _ => True
  end.

Lemma not_summary_counts (summaryPath : string) (n : Z) (e : Event) :
  not_summary e -> summary_counts summaryPath n e.
Proof. destruct e as [| | | | | |path [b|m|s]]; simpl; tauto. Qed.

(** C10. With [createSummary] set and at least one matching log, the
    only summary ever written goes to [download-summary.json] and its
    [statistics.totalLogsSearched] is the number of matching logs; a
    run that returns has written it and reports the searched count in
    [totalLogsSearched].  The searched count is the number of records
    examined, so the summary's figure is smaller as soon as one
    examined record contributed no result. *)
Theorem C10_summary_total_is_match_count (w : World) (fuel : nat)
    (searchOptions : SearchOptions) (downloadOptions : DownloadOptions)
    (useAllLogs : bool) (ts : list Event) (results : list SearchResult)
    (total : Z) :
  (if useAllLogs then searchAllLogsWithStats w fuel searchOptions
   else searchLogsWithStats w searchOptions) = (ts, Ok (results, total)) ->
  results <> [] ->
  truthy_flag (createSummary downloadOptions) = true ->
  let run := searchAndDownloadLogs w fuel searchOptions downloadOptions useAllLogs in
  let summaryPath :=
    path_join w (outputDir downloadOptions) "download-summary.json" in
  (forall path summary,
      In (EvWrite path (SummaryJson summary)) (trace run) ->
      path = summaryPath
      /\ st_totalLogsSearched (sm_statistics summary) = len results
      /\ st_logsWithMatches (sm_statistics summary) = len results)
  /\ (forall r, outcome run = Ok r ->
        totalLogsSearched r = total
        /\ matchingLogs r = len results
        /\ exists summary,
             In (EvWrite summaryPath (SummaryJson summary)) (trace run)
             /\ st_totalLogsSearched (sm_statistics summary) = len results)
  /\ (forall tq logs,
        (if useAllLogs then fetch_all_filtered w fuel searchOptions
         else fetch_filtered w searchOptions) = (tq, Ok logs) ->
        total = len logs
        /\ len results <= total
        /\ ((exists l, In l logs /\ found_one w searchOptions l = []) ->
            len results < total)).
Proof.
  intros Hsearch Hne Hsum run summaryPath.
  assert (Hmap : len (map log results) = len results).
  { unfold len. rewrite length_map. reflexivity. }
  assert (Hrun := searchAndDownloadLogs_nonempty w fuel searchOptions
                    downloadOptions useAllLogs ts results total Hsearch Hne).
  fold run in Hrun.
  split; [|split].
  - assert (Hall : Forall (summary_counts summaryPath (len results)) (trace run)).
    { rewrite Hrun, trace_pair. apply Forall_app. split.
      { pose proof (search_remote w fuel searchOptions useAllLogs) as Hs.
        rewrite Hsearch, trace_pair in Hs.
        eapply Forall_impl; [exact Hs|].
        intros e He. apply not_summary_counts, remote_not_summary, He. }
      apply Forall_app. split; [repeat constructor|].
      unfold download_phase. apply trace_bind_all.
      { eapply Forall_impl; [apply ensureDirectoryExists_not_summary|].
        apply not_summary_counts. }
      intros _ _. rewrite getDebugLogBodies_run.
      apply trace_bind_all.
      { rewrite trace_pair. eapply Forall_impl; [apply batch_trace_remote|].
        intros e He. apply not_summary_counts, remote_not_summary, He. }
      intros logBodies _. apply trace_bind_all.
      { apply trace_for_each_all. intros acc x.
        eapply Forall_impl; [apply save_result_not_summary|].
        apply not_summary_counts. }
      intros [downloaded failed] _.
      apply trace_bind_all; [|intros; constructor].
      rewrite Hsum. unfold createDownloadSummary.
      rewrite fs_writeFile_trace. repeat constructor; simpl; auto. }
    intros path summary Hin. rewrite List.Forall_forall in Hall.
    apply Hall in Hin. exact Hin.
  - intros r Hr. rewrite Hrun in Hr |- *. rewrite outcome_pair in Hr.
    rewrite trace_pair. unfold download_phase in Hr |- *.
    apply bind_outcome_ok in Hr as (u & _ & Hr & ->).
    apply bind_outcome_ok in Hr as (logBodies & _ & Hr & ->).
    apply bind_outcome_ok in Hr as ([downloaded failed] & _ & Hr & ->).
    apply bind_outcome_ok in Hr as (u' & _ & Hr & ->).
    unfold ret in Hr. rewrite outcome_pair in Hr. injection Hr as <-.
    split; [reflexivity|]. split; [reflexivity|].
    rewrite Hsum. unfold createDownloadSummary. rewrite fs_writeFile_trace.
    eexists. split.
    + rewrite !in_app_iff. do 5 right. left. left. reflexivity.
    + simpl. exact Hmap.
  - intros tq logs Hfetch.
    assert (Heq : (ts, Ok (results, total)) =
                   (tq ++ flat_map (examine_events w) logs,
                    @Ok (list SearchResult * Z)
                        (flat_map (found_one w searchOptions) logs, len logs))).
    { rewrite <- Hsearch. destruct useAllLogs.
      - apply searchAllLogsWithStats_run. exact Hfetch.
      - apply searchLogsWithStats_run. exact Hfetch. }
    injection Heq as _ -> ->.
    split; [reflexivity|]. apply found_count.
Qed.

Definition fatal_results : list SearchResult :=
  [{| log := sample_log "07L000000000001AAA" 10;
      matches := [{| lineNumber := 1; line := "FATAL_ERROR: limit hit";
                     context := [] |}] |}].

Lemma C10_summary_total_is_match_count_witness :
  let w := sample_world (db_query three_logs) failing_body in
  let run := searchAndDownloadLogs w 0 fatal_options sample_download false in
  outcome (searchLogsWithStats w fatal_options) = Ok (fatal_results, 3)
  /\ (exists r, outcome run = Ok r /\ totalLogsSearched r = 3)
  /\ (exists summary,
        In (EvWrite "out/download-summary.json" (SummaryJson summary)) (trace run)
        /\ st_totalLogsSearched (sm_statistics summary) = 1).
Proof.
  intros w run.
  destruct (C10_summary_total_is_match_count w 0 fatal_options sample_download
              false (trace (searchLogsWithStats w fatal_options))
              fatal_results 3 eq_refl ltac:(discriminate) eq_refl)
    as (_ & Hret & _).
  assert (Hout : outcome run =
                 Ok {| dr_searchText := "fatal_error"; totalLogsSearched := 3;
                       matchingLogs := 1; downloadedLogs := 1;
                       failedDownloads := []; downloadPath := "out";
                       estimatedSize := 1034 |}).
  { vm_compute. reflexivity. }
  destruct (Hret _ Hout) as (Htotal & _ & summary & Hin & Hcount).
  split; [reflexivity|]. split.
  - eexists. split; [exact Hout | exact Htotal].
  - exists summary. split; [exact Hin | exact Hcount].
Defined.

(** ** Download by ids *)

Lemma for_each_cons {A St} (body : St -> A -> M St) (x : A) (xs : list A)
    (acc : St) :
  for_each body (x :: xs) acc = bind (body acc x) (fun acc' => for_each body xs acc').
Proof. reflexivity. Qed.

Lemma trace_for_each_members (P : Event -> Prop) {A St} (body : St -> A -> M St)
    (xs : list A) (acc : St) :
  (forall acc x, In x xs -> Forall P (trace (body acc x))) ->
  Forall P (trace (for_each body xs acc)).
Proof.
  revert acc. induction xs as [|x xs IH]; intros acc Hbody; simpl.
  - constructor.
  - apply trace_bind_all.
    + apply Hbody. left. reflexivity.
    + intros acc' _. apply IH. intros acc'' y Hy. apply Hbody. right. exact Hy.
Qed.

Section ByIds.
Context (w : World) (downloadOptions : DownloadOptions).

(** The query [getDebugLogs(1000)] issues. *)
Definition recovery_query : SoqlQuery :=
  {| q_where := ""; q_limit := 1000; q_offset := None |}.

(** The records the recovery page holds; none when the request fails. *)
Definition recovery_page : list DebugLog :=
  match http_query w recovery_query with
  | inr page => page
  | inl _ => []
  end.

(** The metadata recovered for one requested id. *)
Definition metadata_for (logId : string) : list DebugLog :=
  match List.find (fun l => String.eqb (Id l) logId) recovery_page with
  | Some l => [l]
  | None => []
  end.

Definition metadata_of (logIds : list string) : list DebugLog :=
  flat_map metadata_for logIds.

Lemma find_metadata_run (acc : list DebugLog) (logId : string) :
  exists t, find_metadata w acc logId = (t, Ok (acc ++ metadata_for logId))
            /\ Forall remote_event t.
Proof.
  unfold find_metadata, getDebugLogs, client_query, metadata_for, recovery_page,
    recovery_query.
  simpl. destruct (http_query w _) as [e|page]; simpl.
  - eexists. split; [rewrite app_nil_r; reflexivity | repeat constructor].
  - destruct (List.find _ page); simpl; eexists;
      (split; [rewrite ?app_nil_r; reflexivity | repeat constructor]).
Qed.

Lemma metadata_loop_run (logIds : list string) (acc : list DebugLog) :
  exists t, for_each (find_metadata w) logIds acc = (t, Ok (acc ++ metadata_of logIds))
            /\ Forall remote_event t.
Proof.
  revert acc. induction logIds as [|logId logIds IH]; intros acc; simpl.
  - exists []. rewrite app_nil_r. split; [reflexivity | constructor].
  - destruct (find_metadata_run acc logId) as (t1 & -> & H1).
    destruct (IH (acc ++ metadata_for logId)) as (t2 & H2 & Hr2).
    rewrite bind_ok, H2. exists (t1 ++ t2). split.
    + rewrite trace_pair, outcome_pair. unfold metadata_of. simpl.
      rewrite <- app_assoc. reflexivity.
    + apply Forall_app. split; assumption.
Qed.

Lemma metadata_of_member (logIds : list string) (l : DebugLog) :
  In l (metadata_of logIds) -> In l recovery_page /\ In (Id l) logIds.
Proof.
  unfold metadata_of. rewrite in_flat_map. intros (logId & Hid & Hl).
  unfold metadata_for in Hl.
  destruct (List.find _ recovery_page) as [l'|] eqn:Hfind; [|destruct Hl].
  destruct Hl as [<-|[]]. apply find_some in Hfind as [Hin Heq].
  apply String.eqb_eq in Heq. subst logId. split; assumption.
Qed.

(** A write made for record [l]: its log file holding the body found
    in [logBodies], or its metadata sidecar. *)
Definition written_from (logBodies : gmap string string) (l : DebugLog)
    (path : string) (content : FileContent) : Prop :=
  (path = path_join w (outputDir downloadOptions) (generateLogFileName w l ".log")
   /\ exists b, content = LogText b /\ logBodies !! Id l = Some b)
  \/ (path = path_join w (outputDir downloadOptions) (generateMetadataFileName w l)
      /\ exists md, content = MetadataJson md /\ md_id (md_log md) = Id l).

(** Every write is made for one of the records [allowed]. *)
Definition writes_within (logBodies : gmap string string)
    (allowed : list DebugLog) (e : Event) : Prop :=
  match e with
  | EvWrite path content =>
      exists l, In l allowed /\ written_from logBodies l path content
  | _ => True
  end.

Lemma usable_body_some (o : option string) (b : string) :
  usable_body o = Some b -> o = Some b.
Proof.
  destruct o as [b'|]; simpl; [|discriminate].
  destruct (String.eqb b' ""); [discriminate | congruence].
Qed.

Lemma save_log_writes (logBodies : gmap string string) (allowed : list DebugLog)
    (acc : Saved) (l : DebugLog) :
  In l allowed ->
  Forall (writes_within logBodies allowed)
         (trace (save_log w downloadOptions logBodies acc l)).
Proof.
  intros Hin. unfold save_log. destruct acc as [downloaded failed].
  destruct (usable_body (logBodies !! Id l)) as [b|] eqn:Hb; [|constructor].
  apply usable_body_some in Hb.
  apply trace_try_catch_all.
  - apply trace_bind_all.
    { unfold saveLogToFile. rewrite fs_writeFile_trace. repeat constructor.
      exists l. split; [assumption|]. left. eauto. }
    intros _ _. apply trace_bind_all; [|intros; constructor].
    destruct (truthy_flag _); [|constructor].
    unfold saveMetadataToFile. rewrite fs_writeFile_trace. repeat constructor.
    exists l. split; [assumption|]. right. split; [reflexivity|].
    eexists. split; reflexivity.
  - intros e. apply trace_bind_all; [apply trace_emit_all; exact I|].
    intros; constructor.
Qed.

(** Saving a record always ends normally and can only add the
    record's own id to either list. *)
Lemma save_log_outcome (logBodies : gmap string string)
    (downloaded failed : list string) (l : DebugLog) :
  exists downloaded' failed',
    outcome (save_log w downloadOptions logBodies (downloaded, failed) l)
    = Ok (downloaded', failed')
    /\ (forall x, In x failed' -> In x failed \/ x = Id l)
    /\ (forall x, In x downloaded' -> In x downloaded \/ x = Id l).
Proof.
  assert (Hsame : forall xs x, In x xs -> In x xs \/ x = Id l) by auto.
  assert (Hadd : forall xs x, In x (xs ++ [Id l]) -> In x xs \/ x = Id l).
  { intros xs x Hx. apply in_app_iff in Hx as [Hx|[<-|[]]]; auto. }
  unfold save_log, saveLogToFile, saveMetadataToFile, fs_writeFile.
  destruct (usable_body _) as [b|]; simpl.
  - destruct (fs_write w _ (LogText b)); simpl.
    + do 2 eexists. split; [reflexivity | split; auto].
    + destruct (truthy_flag _); simpl;
        [|do 2 eexists; split; [reflexivity | split; auto]].
      destruct (fs_write w _ (MetadataJson _)); simpl;
        do 2 eexists; (split; [reflexivity | split; auto]).
  - do 2 eexists. split; [reflexivity | split; auto].
Qed.

Lemma save_loop_outcome (logBodies : gmap string string) (logs : list DebugLog)
    (downloaded failed : list string) :
  exists downloaded' failed',
    outcome (for_each (save_log w downloadOptions logBodies) logs
                      (downloaded, failed))
    = Ok (downloaded', failed')
    /\ (forall x, In x failed' -> In x failed \/ In x (map Id logs))
    /\ (forall x, In x downloaded' -> In x downloaded \/ In x (map Id logs)).
Proof.
  revert downloaded failed.
  induction logs as [|l logs IH]; intros downloaded failed.
  - exists downloaded, failed. simpl. auto.
  - destruct (save_log_outcome logBodies downloaded failed l)
      as (d1 & f1 & Hout & Hf1 & Hd1).
    rewrite for_each_cons.
    destruct (save_log w downloadOptions logBodies (downloaded, failed) l)
      as [t r]. rewrite outcome_pair in Hout. subst r.
    rewrite bind_ok, outcome_pair. simpl map.
    destruct (IH d1 f1) as (d2 & f2 & Hout2 & Hf2 & Hd2).
    exists d2, f2. split; [exact Hout2|]. split.
    + intros x Hx. apply Hf2 in Hx as [Hx|Hx]; [|right; right; exact Hx].
      apply Hf1 in Hx as [Hx| ->]; [left; exact Hx | right; left; reflexivity].
    + intros x Hx. apply Hd2 in Hx as [Hx|Hx]; [|right; right; exact Hx].
      apply Hd1 in Hx as [Hx| ->]; [left; exact Hx | right; left; reflexivity].
Qed.

(** What [downloadLogsByIds] does once the disk-space check has
    passed. *)
Definition ids_phase (logIds : list string) (allLogs : list DebugLog)
    (estimatedSize : Z) : M DownloadResult :=
  ensureDirectoryExists w (outputDir downloadOptions) ;;;
  logBodies <- getDebugLogBodies w logIds ;;
  saved <- for_each (save_log w downloadOptions logBodies) allLogs ([], []) ;;
  let '(downloaded, failed) := saved in
  ret {| dr_searchText := "Direct download";
         totalLogsSearched := len logIds;
         matchingLogs := len logIds;
         downloadedLogs := len downloaded;
         failedDownloads := failed;
         downloadPath := outputDir downloadOptions;
         estimatedSize := estimatedSize |}.

Lemma downloadLogsByIds_run (logIds : list string) :
  exists tm,
    Forall remote_event tm
    /\ downloadLogsByIds w logIds downloadOptions =
       (tm ++ [EvExists (path_dirname w (outputDir downloadOptions))]
           ++ trace (ids_phase logIds (metadata_of logIds)
                               (estimate (metadata_of logIds))),
        outcome (ids_phase logIds (metadata_of logIds)
                           (estimate (metadata_of logIds)))).
Proof.
  destruct (metadata_loop_run logIds []) as (tm & Hmeta & Hremote).
  exists tm. split; [exact Hremote|].
  change ([] ++ metadata_of logIds) with (metadata_of logIds) in Hmeta.
  unfold downloadLogsByIds. rewrite Hmeta, bind_ok.
  rewrite checkDiskSpace_run, bind_ok. cbv beta iota. simpl negb. cbv iota.
  rewrite trace_pair, outcome_pair. reflexivity.
Qed.

End ByIds.

(** Anything but a file write. *)
Definition no_write (e : Event) : Prop :=
  match e with
  | EvWrite _ _ => False
  | _ => True
  end.

Lemma remote_no_write (e : Event) : remote_event e -> no_write e.
Proof. destruct e; simpl; tauto. Qed.

Lemma ensureDirectoryExists_no_write (w : World) (dir : string) :
  Forall no_write (trace (ensureDirectoryExists w dir)).
Proof.
  unfold ensureDirectoryExists.
  apply trace_bind_all; [apply trace_emit_all; exact I|]. intros _ _.
  destruct (negb (fs_exists w dir)); [|constructor].
  apply trace_bind_all; [apply trace_emit_all; exact I|]. intros _ _.
  destruct (fs_mkdir w dir); constructor.
Qed.

Lemma bulk_body_from_store (w : World) (logIds : list string) (logId b : string) :
  store_batch ∅ (map (fun id => (id, body_of w id)) logIds) !! logId = Some b ->
  http_body w logId = inr b.
Proof.
  rewrite store_batch_lookup, lookup_empty. unfold body_of.
  destruct (http_body w logId) as [e|b']; [discriminate|].
  destruct (decide (logId ∈ logIds)); [congruence | discriminate].
Qed.

(** C8 (as amended). A requested id that is not on the recovery page
    gets no metadata record: the size estimate is the sum over the
    records that were recovered, every file written belongs to one of
    those records (a log file holding that record's body, or its
    sidecar), so nothing is written for the id even when the bulk
    fetch retrieved its body, and the id is not reported as a failed
    download either. *)
Theorem C8_no_metadata_no_file (w : World) (logIds : list string)
    (downloadOptions : DownloadOptions) (logId : string) :
  (forall l, In l (recovery_page w) -> Id l <> logId) ->
  let run := downloadLogsByIds w logIds downloadOptions in
  let recovered := metadata_of w logIds in
  (forall l, In l recovered ->
      Id l <> logId /\ In l (recovery_page w) /\ In (Id l) logIds)
  /\ (forall r, outcome run = Ok r ->
        estimatedSize r = estimate recovered
        /\ ~ In logId (failedDownloads r)
        /\ totalLogsSearched r = len logIds)
  /\ (forall path content,
        In (EvWrite path content) (trace run) ->
        exists l,
          In l recovered /\ Id l <> logId
          /\ ((path = path_join w (outputDir downloadOptions)
                                (generateLogFileName w l ".log")
               /\ exists b, content = LogText b /\ http_body w (Id l) = inr b)
              \/ (path = path_join w (outputDir downloadOptions)
                                   (generateMetadataFileName w l)
                  /\ exists md, content = MetadataJson md
                                /\ md_id (md_log md) = Id l))).
Proof.
  intros Hmissing run recovered.
  assert (Hrec : forall l, In l recovered ->
                   Id l <> logId /\ In l (recovery_page w) /\ In (Id l) logIds).
  { intros l Hl. apply metadata_of_member in Hl as [Hpage Hid]. auto. }
  destruct (downloadLogsByIds_run w downloadOptions logIds) as (tm & Hremote & Hrun).
  fold run recovered in Hrun.
  split; [exact Hrec|]. split.
  - intros r Hr. rewrite Hrun, outcome_pair in Hr. unfold ids_phase in Hr.
    apply bind_outcome_ok in Hr as (u & _ & Hr & _).
    apply bind_outcome_ok in Hr as (logBodies & _ & Hr & _).
    apply bind_outcome_ok in Hr as ([downloaded failed] & Hsaved & Hr & _).
    unfold ret in Hr. rewrite outcome_pair in Hr. injection Hr as <-. simpl.
    split; [reflexivity|]. split; [|reflexivity].
    destruct (save_loop_outcome w downloadOptions logBodies recovered [] [])
      as (d' & f' & Hout & Hf & _).
    rewrite Hsaved in Hout. injection Hout as -> ->.
    intros Hin. apply Hf in Hin as [[]|Hin].
    apply in_map_iff in Hin as (l & Hid & Hl).
    apply Hrec in Hl as [Hne _]. congruence.
  - set (store := store_batch ∅ (map (fun id => (id, body_of w id)) logIds)).
    assert (Hall : Forall (writes_within w downloadOptions store recovered)
                          (trace run)).
    { rewrite Hrun, trace_pair. apply Forall_app. split.
      { eapply Forall_impl; [exact Hremote|]. intros [] He; simpl in *; tauto. }
      apply Forall_app. split; [repeat constructor|].
      unfold ids_phase. apply trace_bind_all.
      { eapply Forall_impl; [apply ensureDirectoryExists_no_write|].
        intros [] He; simpl in *; tauto. }
      intros _ _. rewrite getDebugLogBodies_run. apply trace_bind_all.
      { rewrite trace_pair. eapply Forall_impl; [apply batch_trace_remote|].
        intros [] He; simpl in *; tauto. }
      intros logBodies Hbodies. rewrite outcome_pair in Hbodies.
      injection Hbodies as <-. fold store.
      apply trace_bind_all.
      { apply trace_for_each_members. intros acc l Hl.
        apply save_log_writes. exact Hl. }
      intros [downloaded failed] _. constructor. }
    intros path content Hin. rewrite List.Forall_forall in Hall.
    apply Hall in Hin. simpl in Hin. destruct Hin as (l & Hl & Hw).
    exists l. split; [exact Hl|]. split; [apply Hrec, Hl|].
    destruct Hw as [(Hp & b & Hc & Hb) | Hw]; [left | right; exact Hw].
    split; [exact Hp|]. exists b. split; [exact Hc|].
    eapply bulk_body_from_store. exact Hb.
Qed.

Definition missing_id : string := "07L000000000009AAA".

Lemma three_logs_lack_missing_id :
  forall l,
    In l (recovery_page (sample_world (db_query three_logs) failing_body)) ->
    Id l <> missing_id.
Proof. intros l [<-|[<-|[<-|[]]]]; discriminate. Qed.

Lemma C8_no_metadata_no_file_witness :
  let w := sample_world (db_query three_logs) failing_body in
  let run := downloadLogsByIds w ["07L000000000001AAA"; missing_id] sample_download in
  (forall l, In l (recovery_page w) -> Id l <> missing_id)
  /\ (forall r, outcome run = Ok r -> ~ In missing_id (failedDownloads r)).
Proof.
  intros w run. split; [exact three_logs_lack_missing_id|].
  destruct (C8_no_metadata_no_file w ["07L000000000001AAA"; missing_id]
              sample_download missing_id three_logs_lack_missing_id)
    as (_ & Hres & _).
  intros r Hr. apply (Hres r Hr).
Defined.

(** Counterexample to C8 as stated, which has the body of such an id
    written to disk.  Here the id is requested alone, it is not on the
    recovery page, the bulk fetch retrieves its body, and the call
    returns without one file written and without a failed download. *)
Lemma C8_counterexample :
  let w := sample_world (db_query three_logs) failing_body in
  let run := downloadLogsByIds w [missing_id] sample_download in
  (forall l, In l (recovery_page w) -> Id l <> missing_id)
  /\ (exists bodies,
         outcome (getDebugLogBodies w [missing_id]) = Ok bodies
         /\ bodies !! missing_id = Some "nothing to report")
  /\ In (EvBody missing_id) (trace run)
  /\ (forall path content, ~ In (EvWrite path content) (trace run))
  /\ exists r, outcome run = Ok r
               /\ downloadedLogs r = 0 /\ failedDownloads r = []
               /\ estimatedSize r = 0.
Proof.
  intros w run.
  assert (Htrace : trace run =
                   [EvQuery (recovery_query); EvExists "out"; EvExists "out";
                    EvMkdir "out"; EvBody missing_id]).
  { vm_compute. reflexivity. }
  split; [exact three_logs_lack_missing_id|]. split; [|split; [|split]].
  - eexists. split; [reflexivity | vm_compute; reflexivity].
  - rewrite Htrace. simpl. tauto.
  - intros path content Hin. rewrite Htrace in Hin. simpl in Hin.
    repeat destruct Hin as [Hin|Hin]; try discriminate; destruct Hin.
  - eexists. split; [vm_compute; reflexivity|]. repeat split.
Qed.

(** * Further properties *)

(** ** More on the line search *)

Lemma toLowerCase_app (a b : string) :
  toLowerCase (a +:+ b) = toLowerCase a +:+ toLowerCase b.
Proof. induction a as [|c a IH]; simpl; [reflexivity | rewrite IH; reflexivity]. Qed.

Lemma is_substring_lower (p s : string) :
  is_substring p s -> is_substring (toLowerCase p) (toLowerCase s).
Proof.
  intros (before & after & ->).
  exists (toLowerCase before), (toLowerCase after).
  rewrite !toLowerCase_app. reflexivity.
Qed.

(** X1. A case-sensitive search reports exactly the lines that hold
    the search text verbatim: each reported match is such a line with
    its trimmed text and its context, each such line is reported, and
    the line numbers are strictly increasing. *)
Theorem search_case_sensitive (B P : string) :
  let lines := split_lines B in
  let ms := searchInLogBody B P (Some true) in
  (forall m, In m ms ->
     exists (k : nat) l,
       lines !! k = Some l /\ lineNumber m = Z.of_nat k + 1
       /\ is_substring P l
       /\ line m = trim l
       /\ context m = getContext lines (Z.of_nat k) 2)
  /\ (forall (k : nat) l,
        lines !! k = Some l -> is_substring P l ->
        exists m, In m ms /\ lineNumber m = Z.of_nat k + 1)
  /\ StronglySorted Z.lt (map lineNumber ms).
Proof.
  intros lines ms. subst lines ms. split; [|split].
  - intros m Hm. rewrite searchInLogBody_selected in Hm.
    apply In_selected in Hm as (k & l & Hl & Hk & ->).
    exists k, l. unfold line_matches in Hk. simpl in Hk.
    apply includes_spec in Hk. simpl. auto.
  - intros k l Hl Hsub.
    exists (match_of (split_lines B) (0 + Z.of_nat k, l)). split; [|reflexivity].
    rewrite searchInLogBody_selected. apply In_selected.
    exists k, l. split; [assumption|]. split; [|reflexivity].
    unfold line_matches. simpl. apply includes_spec. assumption.
  - rewrite searchInLogBody_numbers. apply selected_numbers_sorted.
Qed.

(** X2. On ASCII text the case-sensitive search is the stricter one:
    every line number it reports is also reported by the
    case-insensitive search for the same text. *)
Theorem case_sensitive_matches_are_insensitive_matches (B P : string) (i : Z) :
  In i (map lineNumber (searchInLogBody B P (Some true))) ->
  In i (map lineNumber (searchInLogBody B P None)).
Proof.
  rewrite !searchInLogBody_numbers, !In_selected.
  intros (k & l & Hl & Hk & ->). exists k, l.
  split; [assumption|]. split; [|reflexivity].
  unfold line_matches in *. simpl in *.
  apply includes_spec. apply is_substring_lower. apply includes_spec. exact Hk.
Qed.

Lemma case_sensitive_matches_are_insensitive_matches_witness :
  In 2 (map lineNumber (searchInLogBody scenario_body "FOO" (Some true)))
  /\ In 2 (map lineNumber (searchInLogBody scenario_body "FOO" None)).
Proof.
  assert (H : In 2 (map lineNumber (searchInLogBody scenario_body "FOO" (Some true)))).
  { vm_compute. left. reflexivity. }
  split; [exact H|].
  exact (case_sensitive_matches_are_insensitive_matches scenario_body "FOO" 2 H).
Defined.

Lemma includes_empty (s : string) : includes s "" = true.
Proof. destruct s; reflexivity. Qed.

Lemma selected_everything {B} (keep : Z * string -> bool) (f : Z * string -> B)
    (a : Z) (ls : list string) :
  (forall x, keep x = true) ->
  selected keep f a ls = map f (zip (seqZ a (len ls)) ls).
Proof.
  intros Hkeep. unfold selected. rewrite filter_all; [reflexivity|].
  apply List.Forall_forall. intros x _. apply Hkeep.
Qed.

Lemma zip_seqZ_numbers (a : Z) (ls : list string) :
  map (fun x : Z * string => fst x + 1) (zip (seqZ a (len ls)) ls)
  = seqZ (a + 1) (len ls).
Proof.
  revert a. induction ls as [|l ls IH]; intros a; [reflexivity|].
  unfold len in *.
  replace (Z.of_nat (length (l :: ls))) with (Z.succ (Z.of_nat (length ls)))
    by (simpl; lia).
  rewrite (seqZ_cons a (Z.succ (Z.of_nat (length ls)))) by lia.
  rewrite (seqZ_cons (a + 1) (Z.succ (Z.of_nat (length ls)))) by lia.
  rewrite Z.pred_succ. simpl. f_equal.
  replace (Z.succ a) with (a + 1) by lia.
  replace (Z.succ (a + 1)) with (a + 1 + 1) by lia. apply IH.
Qed.

(** X3. An empty search text matches every line, whatever the case
    flag: the matches are numbered 1 to the number of lines, so even
    an empty body yields one match. *)
Theorem empty_search_text_matches_every_line (B : string) (cs : option bool) :
  map lineNumber (searchInLogBody B "" cs) = seqZ 1 (len (split_lines B))
  /\ 1 <= len (searchInLogBody B "" cs).
Proof.
  assert (Hnum : map lineNumber (searchInLogBody B "" cs)
                 = seqZ 1 (len (split_lines B))).
  { rewrite searchInLogBody_numbers, selected_everything.
    - apply (zip_seqZ_numbers 0).
    - intros x. unfold line_matches. destruct (default false cs); simpl;
        apply includes_empty. }
  split; [exact Hnum|].
  apply (f_equal (@length Z)) in Hnum.
  rewrite length_map, length_seqZ in Hnum.
  pose proof (split_lines_nonempty B) as Hne.
  unfold len in *. destruct (split_lines B); [congruence | simpl in *; lia].
Qed.

(** X4. For any number of context lines [c], the context of a match
    holds the lines of the window before the match and then those
    after it, in order, each labelled with its line number: at most
    [2 c] entries, and exactly [2 c] when the match is at least [c]
    lines away from both ends of the body. *)
Theorem getContext_before_then_after (lines : list string) (idx c : Z) :
  0 <= c -> 0 <= idx < len lines ->
  let start := Z.max 0 (idx - c) in
  let stop := Z.min (len lines - 1) (idx + c) in
  getContext lines idx c
  = map (context_entry lines) (seqZ start (idx - start) ++ seqZ (idx + 1) (stop - idx))
  /\ len (getContext lines idx c) <= 2 * c
  /\ (c <= idx <= len lines - 1 - c -> len (getContext lines idx c) = 2 * c).
Proof.
  intros Hc Hidx start stop.
  assert (Heq : getContext lines idx c
                = map (context_entry lines)
                      (seqZ start (idx - start) ++ seqZ (idx + 1) (stop - idx))).
  { rewrite getContext_filter. f_equal. subst start stop.
    unfold window_start, window_end.
    rewrite filter_other_seqZ by lia. f_equal. f_equal. lia. }
  split; [exact Heq|].
  assert (Hlen : len (getContext lines idx c) = (idx - start) + (stop - idx)).
  { rewrite Heq. unfold len. rewrite length_map, length_app, !length_seqZ.
    subst start stop. lia. }
  rewrite Hlen. subst start stop. split; [lia | intros; lia].
Qed.

Lemma getContext_before_then_after_witness :
  getContext ["a"; "b"; "c"; "d"; "e"] 2 1 = ["2: b"; "4: d"]
  /\ len (getContext ["a"; "b"; "c"; "d"; "e"] 2 1) = 2 * 1.
Proof.
  destruct (getContext_before_then_after ["a"; "b"; "c"; "d"; "e"] 2 1
              ltac:(lia) ltac:(unfold len; simpl; lia)) as (Heq & _ & Hfull).
  split; [rewrite Heq; reflexivity|].
  apply Hfull. unfold len. simpl. lia.
Defined.

(** ** More on the pagination loop *)

(** While the loop runs, the page it asks for holds between 1 and 200
    records. *)
Lemma guard_batch_size (maxLogs : option Z) (st : PageState) :
  loop_guard maxLogs st = true ->
  1 <= currentBatchSize maxLogs st <= 200.
Proof.
  unfold loop_guard, currentBatchSize, page_batchSize.
  destruct maxLogs as [m|]; simpl; [|lia].
  destruct (Z.eqb_spec m 0) as [->|Hm]; simpl; [lia|].
  intros Hg. apply andb_true_iff in Hg as [_ Hg]. apply Z.ltb_lt in Hg. lia.
Qed.

(** A remote store that answers every query carrying [whereClause]
    with the window of [db] it asks for. *)
Definition windowed_store (w : World) (whereClause : string)
    (db : list DebugLog) : Prop :=
  forall limit offset, 0 <= limit -> 0 <= offset ->
    http_query w {| q_where := whereClause; q_limit := limit;
                    q_offset := Some offset |}
    = inr (take (Z.to_nat limit) (drop (Z.to_nat offset) db)).

(** The loop state after the first [k] records of [db]. *)
Definition prefix_state (db : list DebugLog) (k : nat) : PageState :=
  {| allLogs := take k db; offset := Z.of_nat k; hasMore := true |}.

(** How many records of [db] the loop is allowed to take. *)
Definition page_cap (maxLogs : option Z) (db : list DebugLog) : nat :=
  if truthy_num maxLogs then Z.to_nat (default 0 maxLogs) else length db.

Lemma paging_prefix (w : World) (whereClause : string) (maxLogs : option Z)
    (db : list DebugLog) (fuel k : nat) :
  windowed_store w whereClause db ->
  (k <= length db)%nat -> (k <= page_cap maxLogs db)%nat ->
  (length db - k < fuel)%nat ->
  outcome (page_loop w fuel whereClause maxLogs (prefix_state db k))
  = Ok (take (page_cap maxLogs db) db).
Proof.
  intros Hw. revert k. induction fuel as [|fuel IH]; intros k Hk Hcap Hfuel; [lia|].
  destruct (loop_guard maxLogs (prefix_state db k)) eqn:Hg.
  - pose proof (guard_batch_size _ _ Hg) as Hc.
    set (c := currentBatchSize maxLogs (prefix_state db k)) in *.
    assert (Hroom : (k + Z.to_nat c <= page_cap maxLogs db)%nat
                    \/ (truthy_num maxLogs = false /\ c = 200)).
    { subst c. unfold page_cap, currentBatchSize, loop_guard, page_batchSize in *.
      destruct maxLogs as [m|]; simpl in *; [|right; split; [reflexivity | lia]].
      destruct (Z.eqb_spec m 0) as [->|Hm]; simpl in *;
        [right; split; [reflexivity | lia]|].
      apply Z.ltb_lt in Hg. unfold len in Hg |- *.
      rewrite length_take in Hg |- *. left. lia. }
    assert (Hq : http_query w (page_query whereClause maxLogs (prefix_state db k))
                 = inr (take (Z.to_nat c) (drop k db))).
    { unfold page_query. fold c. simpl offset. rewrite Hw by lia.
      rewrite Nat2Z.id. reflexivity. }
    rewrite loop_unfold, (page_iteration_ok _ _ _ _ _ Hq), bind_ok, outcome_pair
      by assumption.
    set (batch := take (Z.to_nat c) (drop k db)) in *.
    assert (Hall : allLogs (page_advance maxLogs (prefix_state db k) batch)
                   = take (k + Z.to_nat c) db).
    { simpl. subst batch. apply take_take_drop. }
    assert (Hblen : length batch = Nat.min (Z.to_nat c) (length db - k)).
    { subst batch. rewrite length_take, length_drop. reflexivity. }
    destruct (le_lt_dec (Z.to_nat c) (length db - k)) as [Hfull | Hshort].
    + assert (Hst : page_advance maxLogs (prefix_state db k) batch
                    = prefix_state db (k + Z.to_nat c)).
      { assert (E1 : take k db ++ batch = take (k + Z.to_nat c) db)
          by apply take_take_drop.
        assert (E2 : Z.of_nat k + len batch = Z.of_nat (k + Z.to_nat c))
          by (unfold len; lia).
        assert (E3 : (len batch =? c) = true)
          by (apply Z.eqb_eq; unfold len; lia).
        unfold page_advance. fold c.
        change (allLogs (prefix_state db k)) with (take k db).
        change (offset (prefix_state db k)) with (Z.of_nat k).
        rewrite E1, E2, E3. reflexivity. }
      rewrite Hst. apply IH; try lia.
      destruct Hroom as [Hroom | [Hun _]]; [exact Hroom|].
      unfold page_cap. rewrite Hun. lia.
    + rewrite loop_exit.
      * rewrite Hall. rewrite !take_ge; [reflexivity | | lia].
        destruct Hroom as [Hroom | [Hun _]]; [lia|].
        unfold page_cap. rewrite Hun. lia.
      * unfold loop_guard, page_advance. simpl hasMore. fold c.
        replace (len batch =? c) with false; [reflexivity|].
        symmetry. apply Z.eqb_neq. unfold len. lia.
  - rewrite loop_exit by assumption. simpl. f_equal. f_equal.
    unfold page_cap, loop_guard in *. simpl in Hg.
    destruct maxLogs as [m|]; simpl in *; [|discriminate].
    destruct (Z.eqb_spec m 0) as [->|Hm]; simpl in *; [discriminate|].
    apply Z.ltb_ge in Hg. unfold len in Hg. rewrite length_take in Hg. lia.
Qed.

(** X5. Against a store that answers each page query with the window
    of its records the query asks for, the accumulation loops return
    exactly the first [maxLogs] records, and all records when
    [maxLogs] is unset or zero: no record is skipped or fetched
    twice.  One unit of fuel per record of the store is enough. *)
Theorem paging_returns_prefix (w : World) (whereClause : string)
    (maxLogs : option Z) (db : list DebugLog) (fuel : nat) :
  windowed_store w whereClause db ->
  (length db < fuel)%nat ->
  outcome (page_loop w fuel whereClause maxLogs page_init)
  = Ok (if truthy_num maxLogs then take (Z.to_nat (default 0 maxLogs)) db else db).
Proof.
  intros Hw Hfuel.
  change page_init with (prefix_state db 0).
  rewrite (paging_prefix w whereClause maxLogs db fuel 0 Hw); try lia.
  unfold page_cap. destruct (truthy_num maxLogs); [reflexivity|].
  rewrite take_ge by lia. reflexivity.
Qed.

Lemma db_windowed_store (db : list DebugLog) (body : string -> string + string)
    (whereClause : string) :
  windowed_store (sample_world (db_query db) body) whereClause db.
Proof. intros limit offset _ _. reflexivity. Qed.

Lemma paging_returns_prefix_witness :
  outcome (getAllDebugLogs (sample_world (db_query three_logs) no_body) 4 None)
  = Ok three_logs
  /\ outcome (getAllDebugLogsByUser (sample_world (db_query three_logs) no_body)
                4 "005" (Some 2))
     = Ok (take 2 three_logs).
Proof.
  split.
  - exact (paging_returns_prefix _ "" None three_logs 4
             (db_windowed_store three_logs no_body "") ltac:(simpl; lia)).
  - exact (paging_returns_prefix _ (user_where "005") (Some 2) three_logs 4
             (db_windowed_store three_logs no_body _) ltac:(simpl; lia)).
Defined.

Lemma paging_terminates_from (w : World) (whereClause : string) (m : Z)
    (fuel : nat) (st : PageState) :
  m <> 0 ->
  m - len (allLogs st) <= Z.of_nat fuel ->
  exists logs, outcome (page_loop w fuel whereClause (Some m) st) = Ok logs.
Proof.
  intros Hm. revert st. induction fuel as [|fuel IH]; intros st Hfuel.
  - destruct (loop_guard (Some m) st) eqn:Hg.
    + exfalso. unfold loop_guard in Hg. simpl in Hg.
      apply andb_true_iff in Hg as [_ Hg].
      destruct (Z.eqb_spec m 0) as [|_]; [contradiction|]. simpl in Hg.
      apply Z.ltb_lt in Hg. lia.
    + rewrite loop_exit by assumption. eexists. reflexivity.
  - destruct (loop_guard (Some m) st) eqn:Hg;
      [|rewrite loop_exit by assumption; eexists; reflexivity].
    rewrite loop_unfold by assumption.
    destruct (http_query w (page_query whereClause (Some m) st)) as [e|batch] eqn:Hq.
    + rewrite (page_iteration_fail _ _ _ _ _ Hq), bind_ok. eexists. reflexivity.
    + rewrite (page_iteration_ok _ _ _ _ _ Hq), bind_ok, outcome_pair.
      destruct (loop_guard (Some m) (page_advance (Some m) st batch)) eqn:Hg';
        [|rewrite loop_exit by assumption; eexists; reflexivity].
      apply IH.
      pose proof (guard_batch_size _ _ Hg) as Hc.
      unfold loop_guard in Hg'. apply andb_true_iff in Hg' as [Hmore _].
      simpl in Hmore. apply Z.eqb_eq in Hmore.
      simpl. unfold len in *. rewrite length_app. lia.
Qed.

(** X6. With a non-zero [maxLogs] the accumulation loops always end,
    whatever the remote store answers: [maxLogs] units of fuel are
    enough for a result.  A negative [maxLogs] gives the empty list
    without a single request. *)
Theorem paging_with_cap_terminates (w : World) (whereClause : string) (m : Z)
    (fuel : nat) :
  m <> 0 -> (Z.to_nat m <= fuel)%nat ->
  (exists logs, outcome (page_loop w fuel whereClause (Some m) page_init) = Ok logs)
  /\ (m < 0 -> page_loop w fuel whereClause (Some m) page_init = ([], Ok [])).
Proof.
  intros Hm Hfuel. split.
  - apply paging_terminates_from; [exact Hm|]. unfold len. simpl. lia.
  - intros Hneg. apply loop_exit. unfold loop_guard. simpl.
    destruct (Z.eqb_spec m 0); [lia|]. simpl. apply Z.ltb_ge. unfold len. simpl. lia.
Qed.

Lemma paging_with_cap_terminates_witness :
  exists logs,
    outcome (getAllDebugLogs (sample_world flaky_query no_body) 300 (Some 300))
    = Ok logs.
Proof.
  exact (proj1 (paging_with_cap_terminates (sample_world flaky_query no_body) ""
                  300 300 ltac:(lia) ltac:(lia))).
Defined.

(** The record queries among the events of a run, in order. *)
Definition issued_queries (t : list Event) : list SoqlQuery :=
  flat_map (fun e => match e with EvQuery q => [q] | _ => [] end) t.

Lemma issued_queries_app (t1 t2 : list Event) :
  issued_queries (t1 ++ t2) = issued_queries t1 ++ issued_queries t2.
Proof. apply flat_map_app. Qed.

Definition query_offset (q : SoqlQuery) : Z := default 0 (q_offset q).

Lemma paging_queries_from (w : World) (whereClause : string) (maxLogs : option Z)
    (fuel : nat) (st : PageState) :
  let qs := issued_queries (trace (page_loop w fuel whereClause maxLogs st)) in
  Forall (fun q => q_where q = whereClause /\ 1 <= q_limit q <= 200
                   /\ exists o, q_offset q = Some o /\ offset st <= o) qs
  /\ StronglySorted Z.lt (map query_offset qs).
Proof.
  revert st. induction fuel as [|fuel IH]; intros st.
  - simpl. destruct (loop_guard maxLogs st); simpl; split; constructor.
  - destruct (loop_guard maxLogs st) eqn:Hg;
      [|rewrite loop_exit by assumption; simpl; split; constructor].
    pose proof (guard_batch_size _ _ Hg) as Hc.
    rewrite loop_unfold by assumption.
    assert (Hhere : q_where (page_query whereClause maxLogs st) = whereClause
                    /\ 1 <= q_limit (page_query whereClause maxLogs st) <= 200
                    /\ exists o, q_offset (page_query whereClause maxLogs st) = Some o
                                 /\ offset st <= o).
    { simpl. split; [reflexivity|]. split; [exact Hc|].
      exists (offset st). split; [reflexivity | lia]. }
    destruct (http_query w (page_query whereClause maxLogs st)) as [e|batch] eqn:Hq.
    + rewrite (page_iteration_fail _ _ _ _ _ Hq), bind_ok, trace_pair.
      simpl. split; repeat constructor; apply Hhere.
    + rewrite (page_iteration_ok _ _ _ _ _ Hq), bind_ok, trace_pair.
      rewrite issued_queries_app.
      assert (Hfirst : issued_queries (page_events whereClause maxLogs st batch)
                       = [page_query whereClause maxLogs st]).
      { unfold page_events. simpl. destruct (Z.eqb _ _); reflexivity. }
      rewrite Hfirst. simpl app.
      destruct (IH (page_advance maxLogs st batch)) as [IHall IHsorted].
      assert (Hnext : Forall (fun q => offset st < query_offset q)
                        (issued_queries
                           (trace (page_loop w fuel whereClause maxLogs
                                             (page_advance maxLogs st batch))))).
      { destruct (hasMore (page_advance maxLogs st batch)) eqn:Hmore.
        - simpl in Hmore. apply Z.eqb_eq in Hmore.
          eapply Forall_impl; [exact IHall|].
          intros q (_ & _ & o & Ho & Hle). unfold query_offset. rewrite Ho.
          simpl in *. lia.
        - rewrite loop_exit; [constructor|].
          unfold loop_guard. rewrite Hmore. reflexivity. }
      split.
      * constructor; [exact Hhere|].
        eapply Forall_impl; [exact IHall|].
        intros q (Hwq & Hlq & o & Ho & Hle). split; [exact Hwq|]. split; [exact Hlq|].
        exists o. split; [exact Ho|]. simpl in Hle. unfold len in Hle. lia.
      * simpl map. constructor; [exact IHsorted|].
        apply Forall_map. exact Hnext.
Qed.

(** X7. Every page query the accumulation loops issue carries the
    loop's [WHERE] clause, a [LIMIT] between 1 and 200 and an
    [OFFSET]; the offsets start at or after 0 and strictly increase
    from one query to the next, so no offset is asked for twice. *)
Theorem paging_queries_bounded_and_increasing (w : World) (whereClause : string)
    (maxLogs : option Z) (fuel : nat) :
  let qs := issued_queries (trace (page_loop w fuel whereClause maxLogs page_init)) in
  Forall (fun q => q_where q = whereClause /\ 1 <= q_limit q <= 200
                   /\ exists o, q_offset q = Some o /\ 0 <= o) qs
  /\ StronglySorted Z.lt (map query_offset qs).
Proof. apply (paging_queries_from w whereClause maxLogs fuel page_init). Qed.

(** ** More on the download pipelines *)

Section SaveLoops.
Context (w : World) (downloadOptions : DownloadOptions).

(** The events of [ensureDirectoryExists]. *)
Definition directory_events (dir : string) : list Event :=
  EvExists dir :: (if fs_exists w dir then [] else [EvMkdir dir]).

(** The error of [ensureDirectoryExists], if it has one: the
    directory is missing and cannot be made. *)
Definition directory_error (dir : string) : option string :=
  if fs_exists w dir then None else fs_mkdir w dir.

Lemma ensureDirectoryExists_run (dir : string) :
  ensureDirectoryExists w dir =
  (directory_events dir,
   match directory_error dir with
   | Some e => Throw e
   | None => Ok tt
   end).
Proof.
  unfold ensureDirectoryExists, directory_events, directory_error. simpl.
  destruct (fs_exists w dir); simpl; [reflexivity|].
  destruct (fs_mkdir w dir); reflexivity.
Qed.

(** The object [saveMetadataToFile] serialises. *)
Definition metadata_json (log : DebugLog) (matches : option (list LogMatch))
  : Metadata :=
  {| md_log := {| md_id := Id log;
                  md_userId := LogUserId log;
                  md_lastModified := LastModifiedDate log;
                  md_operation := Operation log;
                  md_application := Application log;
                  md_status := Status log;
                  md_duration := DurationMilliseconds log;
                  md_startTime := StartTime log;
                  md_location := Location log;
                  md_logLength := LogLength log |};
     md_downloadedAt := clock_now w;
     md_matches := default [] matches |}.

Definition log_path (log : DebugLog) : string :=
  path_join w (outputDir downloadOptions) (generateLogFileName w log ".log").

Definition metadata_path (log : DebugLog) : string :=
  path_join w (outputDir downloadOptions) (generateMetadataFileName w log).

(** Whether saving [log] goes through, given the body the bulk fetch
    found for it: the body is there and not empty, the log file can be
    written, and so can the sidecar when one is asked for. *)
Definition saved (body : option string) (log : DebugLog)
    (matches : option (list LogMatch)) : bool :=
  match usable_body body with
  | None => false
  | Some logBody =>
      match fs_write w (log_path log) (LogText logBody) with
      | Some _ => false
      | None =>
          if truthy_flag (includeMetadata downloadOptions) then
            match fs_write w (metadata_path log)
                           (MetadataJson (metadata_json log matches)) with
            | Some _ => false
            | None => true
            end
          else true
      end
  end.

(** The events of saving [log]: the writes attempted, and the warning
    when one of them fails. *)
Definition save_events (body : option string) (log : DebugLog)
    (matches : option (list LogMatch)) : list Event :=
  match usable_body body with
  | None => []
  | Some logBody =>
      EvWrite (log_path log) (LogText logBody)
      :: match fs_write w (log_path log) (LogText logBody) with
         | Some err =>
             [EvWarn ("Failed to save log " +:+ Id log +:+ ": "
                      +:+ new_Error ("Failed to save log to " +:+ log_path log
                                     +:+ ": " +:+ err))]
         | None =>
             if truthy_flag (includeMetadata downloadOptions) then
               EvWrite (metadata_path log)
                       (MetadataJson (metadata_json log matches))
               :: match fs_write w (metadata_path log)
                                 (MetadataJson (metadata_json log matches)) with
                  | Some err =>
                      [EvWarn ("Failed to save log " +:+ Id log +:+ ": "
                               +:+ new_Error ("Failed to save metadata to "
                                              +:+ metadata_path log
                                              +:+ ": " +:+ err))]
                  | None => []
                  end
             else []
         end
  end.

(** Where the id of a record goes. *)
Definition after_save (acc : Saved) (ok : bool) (logId : string) : Saved :=
  if ok then (fst acc ++ [logId], snd acc) else (fst acc, snd acc ++ [logId]).

Lemma save_result_run (logBodies : gmap string string) (acc : Saved)
    (result : SearchResult) :
  save_result w downloadOptions logBodies acc result =
  (save_events (logBodies !! Id (log result)) (log result) (Some (matches result)),
   Ok (after_save acc
         (saved (logBodies !! Id (log result)) (log result) (Some (matches result)))
         (Id (log result)))).
Proof.
  destruct acc as [downloaded failed].
  unfold save_result, save_events, saved, after_save, saveLogToFile,
    saveMetadataToFile, fs_writeFile.
  fold (metadata_json (log result) (Some (matches result))).
  fold (log_path (log result)) (metadata_path (log result)).
  destruct (usable_body _) as [b|]; [|reflexivity]. simpl.
  destruct (fs_write w (log_path (log result)) (LogText b)); simpl; [reflexivity|].
  destruct (truthy_flag _); simpl; [|reflexivity].
  destruct (fs_write w (metadata_path (log result)) _); reflexivity.
Qed.

Lemma save_log_run (logBodies : gmap string string) (acc : Saved) (l : DebugLog) :
  save_log w downloadOptions logBodies acc l =
  (save_events (logBodies !! Id l) l None,
   Ok (after_save acc (saved (logBodies !! Id l) l None) (Id l))).
Proof.
  destruct acc as [downloaded failed].
  unfold save_log, save_events, saved, after_save, saveLogToFile,
    saveMetadataToFile, fs_writeFile.
  fold (metadata_json l None).
  fold (log_path l) (metadata_path l).
  destruct (usable_body _) as [b|]; [|reflexivity]. simpl.
  destruct (fs_write w (log_path l) (LogText b)); simpl; [reflexivity|].
  destruct (truthy_flag _); simpl; [|reflexivity].
  destruct (fs_write w (metadata_path l) _); reflexivity.
Qed.

(** A save loop whose body behaves like [after_save] splits the ids
    of its records between the two lists. *)
Lemma save_loop_run {A} (body : Saved -> A -> M Saved) (events : A -> list Event)
    (ok : A -> bool) (id_of : A -> string) (xs : list A) (acc : Saved) :
  (forall acc x, body acc x = (events x, Ok (after_save acc (ok x) (id_of x)))) ->
  for_each body xs acc =
  (flat_map events xs,
   Ok (fst acc ++ map id_of (List.filter ok xs),
       snd acc ++ map id_of (List.filter (fun x => negb (ok x)) xs))).
Proof.
  intros Hbody. revert acc. induction xs as [|x xs IH]; intros [downloaded failed].
  - simpl. rewrite !app_nil_r. reflexivity.
  - rewrite for_each_cons, Hbody, bind_ok, IH, trace_pair, outcome_pair.
    unfold after_save. simpl. destruct (ok x); simpl;
      rewrite <- ?app_assoc; reflexivity.
Qed.

Lemma filter_split_length {A} (ok : A -> bool) (xs : list A) :
  len (List.filter ok xs) + len (List.filter (fun x => negb (ok x)) xs) = len xs.
Proof.
  unfold len. induction xs as [|x xs IH]; simpl; [reflexivity|].
  destruct (ok x); simpl; lia.
Qed.

End SaveLoops.

(** The mapping the bulk fetch returns for [logIds]. *)
Definition found_bodies (w : World) (logIds : list string) : gmap string string :=
  store_batch ∅ (map (fun id => (id, body_of w id)) logIds).

Lemma found_bodies_member (w : World) (logIds : list string) (logId : string) :
  In logId logIds -> found_bodies w logIds !! logId = body_of w logId.
Proof.
  intros Hin. unfold found_bodies. rewrite store_batch_lookup, lookup_empty.
  destruct (body_of w logId); [|reflexivity].
  destruct (decide (logId ∈ logIds)) as [_|Hn]; [reflexivity|].
  exfalso. apply Hn, list_elem_of_In, Hin.
Qed.

Section DownloadRun.
Context (w : World) (searchOptions : SearchOptions)
        (downloadOptions : DownloadOptions).

(** Whether the download of a search result goes through. *)
Definition result_ok (result : SearchResult) : bool :=
  saved w downloadOptions (body_of w (Id (log result))) (log result)
        (Some (matches result)).

Definition result_events (result : SearchResult) : list Event :=
  save_events w downloadOptions (body_of w (Id (log result))) (log result)
              (Some (matches result)).

Definition downloaded_ids (results : list SearchResult) : list string :=
  map (fun r => Id (log r)) (List.filter result_ok results).

Definition failed_ids (results : list SearchResult) : list string :=
  map (fun r => Id (log r)) (List.filter (fun r => negb (result_ok r)) results).

Definition summary_path : string :=
  path_join w (outputDir downloadOptions) "download-summary.json".

(** The object [createDownloadSummary] serialises for [results]. *)
Definition summary_json (results : list SearchResult) : Summary :=
  {| sm_searchText := searchText searchOptions;
     sm_timestamp := clock_now w;
     sm_statistics :=
       {| st_totalLogsSearched := len (map log results);
          st_logsWithMatches := len results;
          st_logsDownloaded := len (downloaded_ids results);
          st_downloadsFailed := len (failed_ids results) |};
     sm_failedDownloads :=
       map (fun logId => (logId, "API Error")) (failed_ids results) |}.

(** The error of the summary step, if it has one: a summary is asked
    for and cannot be written. *)
Definition summary_error (results : list SearchResult) : option string :=
  if truthy_flag (createSummary downloadOptions) then
    match fs_write w summary_path (SummaryJson (summary_json results)) with
    | Some err => Some (new_Error ("Failed to save download summary: " +:+ err))
    | None => None
    end
  else None.

Definition summary_events (results : list SearchResult) : list Event :=
  if truthy_flag (createSummary downloadOptions)
  then [EvWrite summary_path (SummaryJson (summary_json results))]
  else [].

Definition download_report (results : list SearchResult) (total : Z)
  : DownloadResult :=
  {| dr_searchText := searchText searchOptions;
     totalLogsSearched := total;
     matchingLogs := len results;
     downloadedLogs := len (downloaded_ids results);
     failedDownloads := failed_ids results;
     downloadPath := outputDir downloadOptions;
     estimatedSize := estimate (map log results) |}.

Lemma filter_ext_members {A} (f g : A -> bool) (xs : list A) :
  (forall x, In x xs -> f x = g x) -> List.filter f xs = List.filter g xs.
Proof.
  induction xs as [|x xs IH]; intros H; simpl; [reflexivity|].
  rewrite (H x) by (left; reflexivity). rewrite IH; [reflexivity|].
  intros y Hy. apply H. right. exact Hy.
Qed.

Lemma flat_map_ext_members {A B} (f g : A -> list B) (xs : list A) :
  (forall x, In x xs -> f x = g x) -> flat_map f xs = flat_map g xs.
Proof.
  induction xs as [|x xs IH]; intros H; simpl; [reflexivity|].
  rewrite (H x) by (left; reflexivity). rewrite IH; [reflexivity|].
  intros y Hy. apply H. right. exact Hy.
Qed.

(** The save loop of [searchAndDownloadLogs], run on the bodies the
    bulk fetch found for the results. *)
Lemma result_loop_run (results : list SearchResult) :
  for_each (save_result w downloadOptions
              (found_bodies w (map Id (map log results))))
           results ([], [])
  = (flat_map result_events results,
     Ok (downloaded_ids results, failed_ids results)).
Proof.
  set (bodies := found_bodies w (map Id (map log results))).
  rewrite (save_loop_run
             (save_result w downloadOptions bodies)
             (fun r => save_events w downloadOptions (bodies !! Id (log r)) (log r)
                                   (Some (matches r)))
             (fun r => saved w downloadOptions (bodies !! Id (log r)) (log r)
                             (Some (matches r)))
             (fun r => Id (log r)))
    by (intros; apply save_result_run).
  assert (Hbody : forall r, In r results -> bodies !! Id (log r) = body_of w (Id (log r))).
  { intros r Hr. apply found_bodies_member. rewrite map_map.
    apply in_map_iff. exists r. auto. }
  simpl fst. simpl snd.
  rewrite (flat_map_ext_members
             (fun r => save_events w downloadOptions (bodies !! Id (log r)) (log r)
                                   (Some (matches r)))
             result_events results)
    by (intros r Hr; unfold result_events; rewrite Hbody by assumption; reflexivity).
  rewrite (filter_ext_members
             (fun r => saved w downloadOptions (bodies !! Id (log r)) (log r)
                             (Some (matches r)))
             result_ok results)
    by (intros r Hr; unfold result_ok; rewrite Hbody by assumption; reflexivity).
  rewrite (filter_ext_members
             (fun r => negb (saved w downloadOptions (bodies !! Id (log r)) (log r)
                                   (Some (matches r))))
             (fun r => negb (result_ok r)) results)
    by (intros r Hr; unfold result_ok; rewrite Hbody by assumption; reflexivity).
  reflexivity.
Qed.

(** What the download phase does, step by step. *)
Lemma download_phase_run (results : list SearchResult) (total : Z) :
  download_phase w searchOptions downloadOptions results total
                 (estimate (map log results))
  = match directory_error w (outputDir downloadOptions) with
    | Some e => (directory_events w (outputDir downloadOptions), Throw e)
    | None =>
        (directory_events w (outputDir downloadOptions)
           ++ batch_trace w (groups_of (map Id (map log results)))
           ++ flat_map result_events results
           ++ summary_events results,
         match summary_error results with
         | Some e => Throw e
         | None => Ok (download_report results total)
         end)
    end.
Proof.
  unfold download_phase. rewrite ensureDirectoryExists_run.
  destruct (directory_error w (outputDir downloadOptions)) as [e|]; [reflexivity|].
  rewrite bind_ok, getDebugLogBodies_run, bind_ok.
  fold (found_bodies w (map Id (map log results))).
  rewrite result_loop_run, bind_ok. cbv beta iota.
  rewrite !trace_pair, !outcome_pair.
  unfold summary_events, summary_error, download_report.
  fold summary_path.
  destruct (truthy_flag (createSummary downloadOptions)).
  - unfold createDownloadSummary, fs_writeFile.
    fold (failed_ids results) (downloaded_ids results).
    change {| sm_searchText := searchText searchOptions;
              sm_timestamp := clock_now w;
              sm_statistics :=
                {| st_totalLogsSearched := len (map log results);
                   st_logsWithMatches := len results;
                   st_logsDownloaded := len (downloaded_ids results);
                   st_downloadsFailed := len (failed_ids results) |};
              sm_failedDownloads :=
                map (fun logId => (logId, "API Error")) (failed_ids results) |}
      with (summary_json results).
    destruct (fs_write w summary_path (SummaryJson (summary_json results)));
      simpl; rewrite ?app_nil_r; reflexivity.
  - simpl. rewrite ?app_nil_r. reflexivity.
Qed.

End DownloadRun.

(** A world over the given remote store and disk. *)
Definition disk_world (query : SoqlQuery -> string + list DebugLog)
    (body : string -> string + string) (present : string -> bool)
    (mkdir : string -> option string)
    (write : string -> FileContent -> option string) : World :=
  {| http_query := query;
     http_body := body;
     fs_exists := present;
     fs_mkdir := mkdir;
     fs_write := write;
     clock_now := "2024-01-02T00:00:00.000Z";
     moment_format := fun d => String.substring 0 10 d;
     path_join := fun dir file => dir +:+ "/" +:+ file;
     path_dirname := fun p => p;
     format_bytes := fun n => pretty n +:+ " Bytes" |}.

Lemma searchAndDownloadLogs_empty (w : World) (fuel : nat)
    (searchOptions : SearchOptions) (downloadOptions : DownloadOptions)
    (useAllLogs : bool) (ts : list Event) (total : Z) :
  (if useAllLogs then searchAllLogsWithStats w fuel searchOptions
   else searchLogsWithStats w searchOptions) = (ts, Ok ([], total)) ->
  searchAndDownloadLogs w fuel searchOptions downloadOptions useAllLogs
  = (ts, Ok (download_report w searchOptions downloadOptions [] total)).
Proof.
  intros Hsearch. unfold searchAndDownloadLogs. rewrite Hsearch, bind_ok.
  simpl. rewrite app_nil_r. reflexivity.
Qed.

Lemma search_results_have_bodies (w : World) (fuel : nat)
    (options : SearchOptions) (useAllLogs : bool) (ts : list Event)
    (results : list SearchResult) (total : Z) :
  (if useAllLogs then searchAllLogsWithStats w fuel options
   else searchLogsWithStats w options) = (ts, Ok (results, total)) ->
  forall x, In x results -> exists body, http_body w (Id (log x)) = inr body.
Proof.
  intros Hrun x Hx.
  assert (Hlogs : exists logs, results = flat_map (found_one w options) logs).
  { destruct useAllLogs.
    - unfold searchAllLogsWithStats in Hrun.
      destruct (fetch_all_filtered w fuel options) as [t [logs|e|]];
        try discriminate.
      rewrite bind_ok, search_loop_all, bind_ok in Hrun.
      rewrite outcome_pair in Hrun. injection Hrun as _ <- _. eauto.
    - unfold searchLogsWithStats in Hrun.
      destruct (fetch_filtered w options) as [t [logs|e|]]; try discriminate.
      rewrite bind_ok, search_loop_all, bind_ok in Hrun.
      rewrite outcome_pair in Hrun. injection Hrun as _ <- _. eauto. }
  destruct Hlogs as (logs & ->).
  apply in_flat_map in Hx as (l & _ & Hx).
  apply found_one_log in Hx as (-> & _ & Hbody). exact Hbody.
Qed.

(** X8. Whenever [searchAndDownloadLogs] returns, every matching log
    is accounted for: the ids split, in result order, into those whose
    download went through (counted in [downloadedLogs]) and those
    listed in [failedDownloads], so the two add up to [matchingLogs].
    The remote store answering an id the same way each time, the bulk
    fetch gets for every result the body the search read, and the
    download of a result goes through exactly when that body is not
    empty and its log file, and its metadata file when one is asked
    for, can be written. *)
Theorem searchAndDownloadLogs_accounts_for_every_match (w : World) (fuel : nat)
    (searchOptions : SearchOptions) (downloadOptions : DownloadOptions)
    (useAllLogs : bool) (ts : list Event) (results : list SearchResult)
    (total : Z) (r : DownloadResult) :
  (if useAllLogs then searchAllLogsWithStats w fuel searchOptions
   else searchLogsWithStats w searchOptions) = (ts, Ok (results, total)) ->
  outcome (searchAndDownloadLogs w fuel searchOptions downloadOptions useAllLogs)
  = Ok r ->
  failedDownloads r
  = map (fun x => Id (log x))
        (List.filter (fun x => negb (result_ok w downloadOptions x)) results)
  /\ downloadedLogs r = len (List.filter (result_ok w downloadOptions) results)
  /\ matchingLogs r = len results
  /\ downloadedLogs r + len (failedDownloads r) = matchingLogs r
  /\ totalLogsSearched r = total
  /\ forall x, In x results ->
       exists body,
         http_body w (Id (log x)) = inr body
         /\ (result_ok w downloadOptions x = true
             <-> body <> ""
                 /\ fs_write w (log_path w downloadOptions (log x)) (LogText body)
                    = None
                 /\ (truthy_flag (includeMetadata downloadOptions) = true ->
                     fs_write w (metadata_path w downloadOptions (log x))
                              (MetadataJson
                                 (metadata_json w (log x) (Some (matches x))))
                     = None)).
Proof.
  intros Hsearch Hr.
  assert (Hrep : r = download_report w searchOptions downloadOptions results total).
  { destruct results as [|x results].
    - rewrite (searchAndDownloadLogs_empty _ _ _ _ _ _ _ Hsearch) in Hr.
      rewrite outcome_pair in Hr. congruence.
    - rewrite (searchAndDownloadLogs_nonempty _ _ _ _ _ _ _ _ Hsearch) in Hr
        by discriminate.
      rewrite outcome_pair, download_phase_run in Hr.
      destruct (directory_error w (outputDir downloadOptions)); [discriminate|].
      rewrite outcome_pair in Hr.
      destruct (summary_error w searchOptions downloadOptions (x :: results));
        [discriminate | congruence]. }
  subst r. unfold download_report, downloaded_ids, failed_ids. simpl.
  split; [reflexivity|].
  split; [unfold len; rewrite length_map; reflexivity|].
  split; [reflexivity|].
  split.
  { unfold len. rewrite !length_map.
    apply (filter_split_length (result_ok w downloadOptions) results). }
  split; [reflexivity|].
  intros x Hx.
  destruct (search_results_have_bodies _ _ _ _ _ _ _ Hsearch x Hx) as (body & Hbody).
  exists body. split; [exact Hbody|].
  unfold result_ok, saved, body_of, usable_body. rewrite Hbody.
  destruct (String.eqb_spec body "") as [->|Hne].
  - split; [discriminate | intros (Hne & _); congruence].
  - destruct (fs_write w (log_path w downloadOptions (log x)) (LogText body)).
    + split; [discriminate | intros (_ & Hw & _); discriminate].
    + destruct (truthy_flag (includeMetadata downloadOptions)).
      * destruct (fs_write w (metadata_path w downloadOptions (log x)) _).
        -- split; [discriminate | intros (_ & _ & Hm); specialize (Hm eq_refl);
                                   discriminate].
        -- split; [auto | reflexivity].
      * split; [intros _; split; [exact Hne|]; split; [reflexivity | discriminate]
               | reflexivity].
Qed.

(** Three bodies of one line each, the second one empty. *)
Definition mixed_bodies (logId : string) : string + string :=
  if String.eqb logId "07L000000000001AAA" then inr "alpha"
  else if String.eqb logId "07L000000000002AAA" then inr ""
  else inr "gamma".

(** A disk that takes every file but the metadata of the third log. *)
Definition sidecar_write (path : string) (content : FileContent) : option string :=
  match content with
  | MetadataJson md =>
      if String.eqb (md_id (md_log md)) "07L000000000003AAA"
      then Some "ENOSPC" else None
  | _ => None
  end.

Definition every_line_options : SearchOptions :=
  {| searchText := ""; caseSensitive := None; maxResults := None;
     dateFrom := None; dateTo := None; userId := None |}.

Definition mixed_results : list SearchResult :=
  [{| log := sample_log "07L000000000001AAA" 10;
      matches := [{| lineNumber := 1; line := "alpha"; context := [] |}] |};
   {| log := sample_log "07L000000000002AAA" 20;
      matches := [{| lineNumber := 1; line := ""; context := [] |}] |};
   {| log := sample_log "07L000000000003AAA" 30;
      matches := [{| lineNumber := 1; line := "gamma"; context := [] |}] |}].

Lemma searchAndDownloadLogs_accounts_for_every_match_witness :
  let w := disk_world (db_query three_logs) mixed_bodies (fun _ => true)
                      (fun _ => None) sidecar_write in
  let r := download_report w every_line_options sample_download mixed_results 3 in
  outcome (searchLogsWithStats w every_line_options) = Ok (mixed_results, 3)
  /\ outcome (searchAndDownloadLogs w 0 every_line_options sample_download false)
     = Ok r
  /\ matchingLogs r = 3
  /\ downloadedLogs r = 1
  /\ failedDownloads r = ["07L000000000002AAA"; "07L000000000003AAA"].
Proof.
  intros w r.
  assert (Hsearch : searchLogsWithStats w every_line_options
                    = (trace (searchLogsWithStats w every_line_options),
                       Ok (mixed_results, 3))) by reflexivity.
  assert (Hrun : outcome (searchAndDownloadLogs w 0 every_line_options
                            sample_download false) = Ok r) by reflexivity.
  destruct (searchAndDownloadLogs_accounts_for_every_match w 0 every_line_options
              sample_download false _ mixed_results 3 r Hsearch Hrun)
    as (Hfailed & Hsaved & Hmatching & _).
  split; [reflexivity|]. split; [exact Hrun|].
  split; [exact Hmatching|].
  split; [rewrite Hsaved | rewrite Hfailed]; reflexivity.
Defined.

(** X9. When the search found something and the output directory is
    missing and cannot be created, [searchAndDownloadLogs] fails with
    the error of the directory creation: after the search it only
    probes the disk, and neither fetches a body nor writes a file. *)
Theorem searchAndDownloadLogs_directory_failure (w : World) (fuel : nat)
    (searchOptions : SearchOptions) (downloadOptions : DownloadOptions)
    (useAllLogs : bool) (ts : list Event) (results : list SearchResult)
    (total : Z) (e : string) :
  (if useAllLogs then searchAllLogsWithStats w fuel searchOptions
   else searchLogsWithStats w searchOptions) = (ts, Ok (results, total)) ->
  results <> [] ->
  fs_exists w (outputDir downloadOptions) = false ->
  fs_mkdir w (outputDir downloadOptions) = Some e ->
  searchAndDownloadLogs w fuel searchOptions downloadOptions useAllLogs
  = (ts ++ [EvExists (path_dirname w (outputDir downloadOptions));
            EvExists (outputDir downloadOptions);
            EvMkdir (outputDir downloadOptions)],
     Throw e).
Proof.
  intros Hsearch Hne Hex Hmk.
  rewrite (searchAndDownloadLogs_nonempty _ _ _ _ _ _ _ _ Hsearch Hne).
  rewrite download_phase_run.
  unfold directory_error, directory_events. rewrite Hex, Hmk. reflexivity.
Qed.

Lemma searchAndDownloadLogs_directory_failure_witness :
  let w := disk_world (db_query three_logs) failing_body (fun _ => false)
                      (fun _ => Some "EACCES") (fun _ _ => None) in
  outcome (searchAndDownloadLogs w 0 fatal_options sample_download false)
  = Throw "EACCES".
Proof.
  intros w.
  rewrite (searchAndDownloadLogs_directory_failure w 0 fatal_options
             sample_download false (trace (searchLogsWithStats w fatal_options))
             fatal_results 3 "EACCES" eq_refl ltac:(discriminate) eq_refl eq_refl).
  reflexivity.
Defined.

(** X10. A file that cannot be written never makes
    [searchAndDownloadLogs] fail: when the output directory exists or
    can be created, and no summary is asked for or the summary can be
    written, the call returns its report, the ids of the logs that
    could not be saved being listed in [failedDownloads]. *)
Theorem searchAndDownloadLogs_returns_despite_write_failures (w : World)
    (fuel : nat) (searchOptions : SearchOptions)
    (downloadOptions : DownloadOptions) (useAllLogs : bool) (ts : list Event)
    (results : list SearchResult) (total : Z) :
  (if useAllLogs then searchAllLogsWithStats w fuel searchOptions
   else searchLogsWithStats w searchOptions) = (ts, Ok (results, total)) ->
  fs_exists w (outputDir downloadOptions) = true
  \/ fs_mkdir w (outputDir downloadOptions) = None ->
  truthy_flag (createSummary downloadOptions) = false
  \/ (forall content, fs_write w (summary_path w downloadOptions) content = None) ->
  outcome (searchAndDownloadLogs w fuel searchOptions downloadOptions useAllLogs)
  = Ok (download_report w searchOptions downloadOptions results total).
Proof.
  intros Hsearch Hdir Hsum.
  destruct results as [|x results].
  - rewrite (searchAndDownloadLogs_empty _ _ _ _ _ _ _ Hsearch). reflexivity.
  - rewrite (searchAndDownloadLogs_nonempty _ _ _ _ _ _ _ _ Hsearch)
      by discriminate.
    rewrite outcome_pair, download_phase_run.
    assert (Hd : directory_error w (outputDir downloadOptions) = None).
    { unfold directory_error. destruct Hdir as [-> | Hmk]; [reflexivity|].
      destruct (fs_exists w _); [reflexivity | exact Hmk]. }
    assert (Hs : summary_error w searchOptions downloadOptions (x :: results) = None).
    { unfold summary_error. destruct Hsum as [-> | Hwr]; [reflexivity|].
      rewrite Hwr. destruct (truthy_flag _); reflexivity. }
    rewrite Hd, outcome_pair, Hs. reflexivity.
Qed.

Lemma searchAndDownloadLogs_returns_despite_write_failures_witness :
  let w := disk_world (db_query three_logs) failing_body (fun _ => true)
                      (fun _ => Some "EACCES")
                      (fun p _ => if String.eqb p "out/download-summary.json"
                                  then None else Some "ENOSPC") in
  exists r,
    outcome (searchAndDownloadLogs w 0 fatal_options sample_download false) = Ok r
    /\ downloadedLogs r = 0
    /\ failedDownloads r = ["07L000000000001AAA"].
Proof.
  intros w. eexists. split.
  - apply (searchAndDownloadLogs_returns_despite_write_failures w 0 fatal_options
             sample_download false (trace (searchLogsWithStats w fatal_options))
             fatal_results 3 eq_refl).
    + left. reflexivity.
    + right. intros content. reflexivity.
  - vm_compute. split; reflexivity.
Defined.

(** X11. A summary that cannot be written makes the whole call fail,
    after the logs were saved: the error is the summary's, and the log
    file of every result whose download went through has been
    written. *)
Theorem searchAndDownloadLogs_summary_failure (w : World) (fuel : nat)
    (searchOptions : SearchOptions) (downloadOptions : DownloadOptions)
    (useAllLogs : bool) (ts : list Event) (results : list SearchResult)
    (total : Z) (err : string) :
  (if useAllLogs then searchAllLogsWithStats w fuel searchOptions
   else searchLogsWithStats w searchOptions) = (ts, Ok (results, total)) ->
  results <> [] ->
  directory_error w (outputDir downloadOptions) = None ->
  truthy_flag (createSummary downloadOptions) = true ->
  fs_write w (summary_path w downloadOptions)
           (SummaryJson (summary_json w searchOptions downloadOptions results))
  = Some err ->
  let run := searchAndDownloadLogs w fuel searchOptions downloadOptions useAllLogs in
  outcome run = Throw (new_Error ("Failed to save download summary: " +:+ err))
  /\ (forall x, In x results -> result_ok w downloadOptions x = true ->
        exists b, http_body w (Id (log x)) = inr b
                  /\ In (EvWrite (log_path w downloadOptions (log x)) (LogText b))
                        (trace run)).
Proof.
  intros Hsearch Hne Hdir Hsum Hwrite run. subst run.
  rewrite (searchAndDownloadLogs_nonempty _ _ _ _ _ _ _ _ Hsearch Hne).
  rewrite download_phase_run, Hdir, outcome_pair, !trace_pair.
  split.
  - unfold summary_error. rewrite Hsum, Hwrite. reflexivity.
  - intros x Hx Hok. unfold result_ok, saved in Hok.
    destruct (usable_body (body_of w (Id (log x)))) as [b|] eqn:Hb; [|discriminate].
    exists b. split.
    + apply usable_body_some in Hb. unfold body_of in Hb.
      destruct (http_body w (Id (log x))); congruence.
    + rewrite !in_app_iff. right. right. right. right. left.
      apply in_flat_map. exists x. split; [exact Hx|].
      unfold result_events, save_events. rewrite Hb. left. reflexivity.
Qed.

Lemma searchAndDownloadLogs_summary_failure_witness :
  let w := disk_world (db_query three_logs) failing_body (fun _ => true)
                      (fun _ => None)
                      (fun p _ => if String.eqb p "out/download-summary.json"
                                  then Some "ENOSPC" else None) in
  let run := searchAndDownloadLogs w 0 fatal_options sample_download false in
  outcome run = Throw "Error: Failed to save download summary: ENOSPC"
  /\ In (EvWrite "out/2024-01-01__apex_run_07L00000.log"
                 (LogText "FATAL_ERROR: limit hit")) (trace run).
Proof.
  intros w run.
  destruct (searchAndDownloadLogs_summary_failure w 0 fatal_options
              sample_download false (trace (searchLogsWithStats w fatal_options))
              fatal_results 3 "ENOSPC" eq_refl ltac:(discriminate) eq_refl eq_refl
              eq_refl) as [Hout Hfiles].
  split; [exact Hout|].
  destruct (Hfiles (hd {| log := sample_log "" 0; matches := [] |} fatal_results)
                   ltac:(left; reflexivity) eq_refl) as (b & Hb & Hin).
  injection Hb as <-. exact Hin.
Defined.

(** ** More on the download by ids *)

Section ByIdsRun.
Context (w : World) (downloadOptions : DownloadOptions).

(** The events of recovering the metadata of one id: the page query
    and, when it fails, the warning. *)
Definition recovery_events (logId : string) : list Event :=
  match http_query w recovery_query with
  | inr _ => [EvQuery recovery_query]
  | inl e =>
      [EvQuery recovery_query;
       EvWarn ("Failed to get metadata for log " +:+ logId +:+ ": "
               +:+ new_Error ("Failed to retrieve debug logs: " +:+ e))]
  end.

Lemma find_metadata_events (acc : list DebugLog) (logId : string) :
  find_metadata w acc logId = (recovery_events logId, Ok (acc ++ metadata_for w logId)).
Proof.
  unfold find_metadata, getDebugLogs, client_query, metadata_for, recovery_page,
    recovery_events.
  change {| q_where := ""; q_limit := default 100 (Some 1000); q_offset := None |}
    with recovery_query.
  simpl. destruct (http_query w recovery_query) as [e|page]; simpl.
  - rewrite app_nil_r. reflexivity.
  - destruct (List.find _ page); simpl; rewrite ?app_nil_r; reflexivity.
Qed.

Lemma metadata_loop_events (logIds : list string) (acc : list DebugLog) :
  for_each (find_metadata w) logIds acc
  = (flat_map recovery_events logIds, Ok (acc ++ metadata_of w logIds)).
Proof.
  revert acc. induction logIds as [|logId logIds IH]; intros acc.
  - simpl. rewrite app_nil_r. reflexivity.
  - rewrite for_each_cons, find_metadata_events, bind_ok, IH, trace_pair,
      outcome_pair.
    unfold metadata_of. simpl. rewrite <- app_assoc. reflexivity.
Qed.

(** Whether the download of a recovered record goes through. *)
Definition log_ok (l : DebugLog) : bool :=
  saved w downloadOptions (body_of w (Id l)) l None.

Definition log_events (l : DebugLog) : list Event :=
  save_events w downloadOptions (body_of w (Id l)) l None.

Definition ids_report (logIds : list string) : DownloadResult :=
  {| dr_searchText := "Direct download";
     totalLogsSearched := len logIds;
     matchingLogs := len logIds;
     downloadedLogs := len (map Id (List.filter log_ok (metadata_of w logIds)));
     failedDownloads :=
       map Id (List.filter (fun l => negb (log_ok l)) (metadata_of w logIds));
     downloadPath := outputDir downloadOptions;
     estimatedSize := estimate (metadata_of w logIds) |}.

Lemma log_loop_run (logIds : list string) :
  for_each (save_log w downloadOptions (found_bodies w logIds))
           (metadata_of w logIds) ([], [])
  = (flat_map log_events (metadata_of w logIds),
     Ok (map Id (List.filter log_ok (metadata_of w logIds)),
         map Id (List.filter (fun l => negb (log_ok l)) (metadata_of w logIds)))).
Proof.
  set (bodies := found_bodies w logIds). set (recovered := metadata_of w logIds).
  rewrite (save_loop_run
             (save_log w downloadOptions bodies)
             (fun l => save_events w downloadOptions (bodies !! Id l) l None)
             (fun l => saved w downloadOptions (bodies !! Id l) l None)
             Id)
    by (intros; apply save_log_run).
  assert (Hbody : forall l, In l recovered -> bodies !! Id l = body_of w (Id l)).
  { intros l Hl. apply found_bodies_member.
    apply metadata_of_member in Hl as [_ Hid]. exact Hid. }
  simpl fst. simpl snd.
  rewrite (flat_map_ext_members
             (fun l => save_events w downloadOptions (bodies !! Id l) l None)
             log_events recovered)
    by (intros l Hl; unfold log_events; rewrite Hbody by assumption; reflexivity).
  rewrite (filter_ext_members
             (fun l => saved w downloadOptions (bodies !! Id l) l None)
             log_ok recovered)
    by (intros l Hl; unfold log_ok; rewrite Hbody by assumption; reflexivity).
  rewrite (filter_ext_members
             (fun l => negb (saved w downloadOptions (bodies !! Id l) l None))
             (fun l => negb (log_ok l)) recovered)
    by (intros l Hl; unfold log_ok; rewrite Hbody by assumption; reflexivity).
  reflexivity.
Qed.

(** [downloadLogsByIds], step by step. *)
Lemma downloadLogsByIds_steps (logIds : list string) :
  downloadLogsByIds w logIds downloadOptions
  = match directory_error w (outputDir downloadOptions) with
    | Some e =>
        (flat_map recovery_events logIds
           ++ [EvExists (path_dirname w (outputDir downloadOptions))]
           ++ directory_events w (outputDir downloadOptions),
         Throw e)
    | None =>
        (flat_map recovery_events logIds
           ++ [EvExists (path_dirname w (outputDir downloadOptions))]
           ++ directory_events w (outputDir downloadOptions)
           ++ batch_trace w (groups_of logIds)
           ++ flat_map log_events (metadata_of w logIds),
         Ok (ids_report logIds))
    end.
Proof.
  unfold downloadLogsByIds.
  rewrite metadata_loop_events, bind_ok.
  change ([] ++ metadata_of w logIds) with (metadata_of w logIds).
  rewrite checkDiskSpace_run, bind_ok. cbv beta iota. simpl negb. cbv iota.
  rewrite ensureDirectoryExists_run.
  destruct (directory_error w (outputDir downloadOptions)) as [e|].
  - rewrite !trace_pair, !outcome_pair. simpl. reflexivity.
  - rewrite bind_ok, getDebugLogBodies_run, bind_ok.
    fold (found_bodies w logIds).
    rewrite log_loop_run, bind_ok. cbv beta iota.
    rewrite !trace_pair, !outcome_pair. unfold ids_report, estimate, ret.
    rewrite !trace_pair, !outcome_pair, ?app_nil_r. reflexivity.
Qed.

Lemma metadata_of_length (logIds : list string) :
  len (metadata_of w logIds) <= len logIds.
Proof.
  unfold len, metadata_of. induction logIds as [|logId logIds IH]; simpl; [lia|].
  rewrite length_app. unfold metadata_for at 1.
  destruct (List.find _ _); simpl; lia.
Qed.

End ByIdsRun.

(** X12. Whenever [downloadLogsByIds] returns, the ids in
    [downloadedLogs] and [failedDownloads] are those of the records
    whose metadata was recovered, split by whether the save went
    through: they add up to the number of recovered records, which is
    at most the number of ids requested, while [matchingLogs] and
    [totalLogsSearched] always report the number requested. *)
Theorem downloadLogsByIds_accounts_for_recovered (w : World)
    (logIds : list string) (downloadOptions : DownloadOptions)
    (r : DownloadResult) :
  outcome (downloadLogsByIds w logIds downloadOptions) = Ok r ->
  let recovered := metadata_of w logIds in
  failedDownloads r
  = map Id (List.filter (fun l => negb (log_ok w downloadOptions l)) recovered)
  /\ downloadedLogs r = len (List.filter (log_ok w downloadOptions) recovered)
  /\ downloadedLogs r + len (failedDownloads r) = len recovered
  /\ len recovered <= len logIds
  /\ matchingLogs r = len logIds
  /\ totalLogsSearched r = len logIds
  /\ estimatedSize r = estimate recovered.
Proof.
  intros Hr recovered. rewrite downloadLogsByIds_steps in Hr.
  destruct (directory_error w (outputDir downloadOptions)); [discriminate|].
  rewrite outcome_pair in Hr. injection Hr as <-. unfold ids_report. simpl.
  fold recovered.
  split; [reflexivity|].
  split; [unfold len; rewrite length_map; reflexivity|].
  split.
  { unfold len. rewrite !length_map.
    apply (filter_split_length (log_ok w downloadOptions) recovered). }
  split; [apply metadata_of_length|]. repeat split.
Qed.

Lemma downloadLogsByIds_accounts_for_recovered_witness :
  let w := sample_world (db_query three_logs) failing_body in
  exists r,
    outcome (downloadLogsByIds w ["07L000000000001AAA"; "07L000000000002AAA";
                                  missing_id] sample_download) = Ok r
    /\ downloadedLogs r + len (failedDownloads r) = 2
    /\ matchingLogs r = 3.
Proof.
  intros w. eexists. split; [vm_compute; reflexivity|].
  destruct (downloadLogsByIds_accounts_for_recovered w
              ["07L000000000001AAA"; "07L000000000002AAA"; missing_id]
              sample_download _ eq_refl) as (_ & _ & Hsum & _ & Hm & _).
  split; [exact Hsum | exact Hm].
Defined.

(** X13. [downloadLogsByIds] fails only on the output directory: when
    the directory exists or can be created it returns its report,
    whatever happens to the metadata queries, the body requests and
    the file writes; when the directory is missing and cannot be
    created it fails with that error before any body is requested.
    This holds for an empty id list too, for which the directory is
    still probed and created. *)
Theorem downloadLogsByIds_fails_only_on_directory (w : World)
    (logIds : list string) (downloadOptions : DownloadOptions) :
  (fs_exists w (outputDir downloadOptions) = true
   \/ fs_mkdir w (outputDir downloadOptions) = None ->
   outcome (downloadLogsByIds w logIds downloadOptions)
   = Ok (ids_report w downloadOptions logIds))
  /\ (forall e,
        fs_exists w (outputDir downloadOptions) = false ->
        fs_mkdir w (outputDir downloadOptions) = Some e ->
        outcome (downloadLogsByIds w logIds downloadOptions) = Throw e
        /\ forall logId,
             ~ In (EvBody logId) (trace (downloadLogsByIds w logIds downloadOptions)))
  /\ downloadLogsByIds w [] downloadOptions
     = (EvExists (path_dirname w (outputDir downloadOptions))
          :: directory_events w (outputDir downloadOptions),
        match directory_error w (outputDir downloadOptions) with
        | Some e => Throw e
        | None => Ok (ids_report w downloadOptions [])
        end).
Proof.
  split; [|split].
  - intros Hdir. rewrite downloadLogsByIds_steps.
    assert (Hd : directory_error w (outputDir downloadOptions) = None).
    { unfold directory_error. destruct Hdir as [-> | Hmk]; [reflexivity|].
      destruct (fs_exists w _); [reflexivity | exact Hmk]. }
    rewrite Hd. reflexivity.
  - intros e Hex Hmk. rewrite downloadLogsByIds_steps.
    unfold directory_error, directory_events. rewrite Hex, Hmk.
    split; [reflexivity|]. intros logId. rewrite trace_pair, !in_app_iff.
    intros [Hin | Hin].
    + apply in_flat_map in Hin as (x & _ & Hin). unfold recovery_events in Hin.
      destruct (http_query w recovery_query); simpl in Hin;
        intuition discriminate.
    + simpl in Hin. intuition discriminate.
  - rewrite downloadLogsByIds_steps.
    destruct (directory_error w (outputDir downloadOptions)); simpl;
      rewrite ?app_nil_r; reflexivity.
Qed.

Lemma downloadLogsByIds_fails_only_on_directory_witness :
  let ids := ["07L000000000001AAA"; "07L000000000002AAA"] in
  let w := sample_world (db_query three_logs) failing_body in
  let locked := disk_world (db_query three_logs) failing_body (fun _ => false)
                           (fun _ => Some "EACCES") (fun _ _ => None) in
  outcome (downloadLogsByIds w ids sample_download)
  = Ok {| dr_searchText := "Direct download"; totalLogsSearched := 2;
          matchingLogs := 2; downloadedLogs := 1;
          failedDownloads := ["07L000000000002AAA"];
          downloadPath := "out"; estimatedSize := 2078 |}
  /\ outcome (downloadLogsByIds locked ids sample_download) = Throw "EACCES".
Proof.
  intros ids w locked. split.
  - rewrite (proj1 (downloadLogsByIds_fails_only_on_directory w ids sample_download)
               (or_intror eq_refl)).
    reflexivity.
  - exact (proj1 (proj1 (proj2 (downloadLogsByIds_fails_only_on_directory
                                  locked ids sample_download))
                        "EACCES" eq_refl eq_refl)).
Defined.

(** Neither a record query nor the writing of a summary. *)
Definition quiet_event (e : Event) : Prop :=
  match e with
  | EvQuery _ => False
  | EvWrite _ (SummaryJson _) => False
  | _ => True
  end.

Lemma quiet_no_queries (t : list Event) :
  Forall quiet_event t -> issued_queries t = [].
Proof.
  induction 1 as [|e t He _ IH]; [reflexivity|].
  unfold issued_queries in *. simpl. rewrite IH.
  destruct e; simpl in *; tauto || reflexivity.
Qed.

Lemma quiet_not_summary (e : Event) : quiet_event e -> not_summary e.
Proof. destruct e as [| | | | | |p [b|m|s]]; simpl; tauto. Qed.

Lemma batch_trace_quiet (w : World) (gs : list (list string)) :
  Forall quiet_event (batch_trace w gs).
Proof.
  induction gs as [|g gs IH]; simpl; [constructor|].
  apply Forall_app. split.
  - induction g as [|id g IHg]; simpl; [constructor|].
    apply Forall_app. split; [|exact IHg].
    unfold fetch_events. destruct (http_body w id); repeat constructor.
  - apply Forall_app. split; [|exact IH]. destruct gs; repeat constructor.
Qed.

Lemma save_events_quiet (w : World) (downloadOptions : DownloadOptions)
    (body : option string) (l : DebugLog) (ms : option (list LogMatch)) :
  Forall quiet_event (save_events w downloadOptions body l ms).
Proof.
  unfold save_events. destruct (usable_body body); [|constructor].
  constructor; [exact I|].
  destruct (fs_write w _ (LogText _)); [repeat constructor|].
  destruct (truthy_flag _); [|constructor].
  constructor; [exact I|].
  destruct (fs_write w _ (MetadataJson _)); repeat constructor.
Qed.

Lemma recovery_queries (w : World) (logIds : list string) :
  issued_queries (flat_map (recovery_events w) logIds)
  = replicate (length logIds) recovery_query.
Proof.
  induction logIds as [|logId logIds IH]; [reflexivity|].
  simpl. rewrite issued_queries_app, IH. unfold recovery_events.
  destruct (http_query w recovery_query); reflexivity.
Qed.

Lemma downloadLogsByIds_trace_shape (w : World) (logIds : list string)
    (downloadOptions : DownloadOptions) :
  exists rest,
    trace (downloadLogsByIds w logIds downloadOptions)
    = flat_map (recovery_events w) logIds ++ rest
    /\ Forall quiet_event rest.
Proof.
  assert (Hdir : Forall quiet_event
                   ([EvExists (path_dirname w (outputDir downloadOptions))]
                    ++ directory_events w (outputDir downloadOptions))).
  { unfold directory_events. destruct (fs_exists w _); repeat constructor. }
  rewrite downloadLogsByIds_steps.
  destruct (directory_error w (outputDir downloadOptions)); rewrite trace_pair;
    eexists; (split; [reflexivity|]); [exact Hdir|].
  rewrite app_assoc. apply Forall_app. split; [exact Hdir|].
  apply Forall_app. split; [apply batch_trace_quiet|].
  apply Forall_flat_map, List.Forall_forall. intros l _. apply save_events_quiet.
Qed.

(** X14. [downloadLogsByIds] asks for the page of the 1000 most recent
    records once per requested id, and for nothing else: [n] ids cost
    [n] identical page queries.  It never writes a summary, whether
    [createSummary] is set or not. *)
Theorem downloadLogsByIds_one_page_query_per_id (w : World)
    (logIds : list string) (downloadOptions : DownloadOptions) :
  issued_queries (trace (downloadLogsByIds w logIds downloadOptions))
  = replicate (length logIds) recovery_query
  /\ forall path summary,
       ~ In (EvWrite path (SummaryJson summary))
            (trace (downloadLogsByIds w logIds downloadOptions)).
Proof.
  destruct (downloadLogsByIds_trace_shape w logIds downloadOptions)
    as (rest & -> & Hquiet).
  split.
  - rewrite issued_queries_app, recovery_queries, (quiet_no_queries _ Hquiet).
    apply app_nil_r.
  - intros path summary Hin. apply in_app_iff in Hin as [Hin | Hin].
    + apply in_flat_map in Hin as (logId & _ & Hin). unfold recovery_events in Hin.
      destruct (http_query w recovery_query); simpl in Hin; intuition discriminate.
    + rewrite List.Forall_forall in Hquiet. apply Hquiet in Hin. exact Hin.
Qed.

(** ** More on the search functions *)

(** The options with both date filters removed. *)
Definition without_dates (options : SearchOptions) : SearchOptions :=
  {| searchText := searchText options;
     caseSensitive := caseSensitive options;
     maxResults := maxResults options;
     dateFrom := None;
     dateTo := None;
     userId := userId options |}.

(** X15. A user filter overrides the date filters: with a non-empty
    [userId], the three search functions behave exactly as if no date
    had been given, so records outside the date range are searched
    too. *)
Theorem user_filter_overrides_dates (w : World) (fuel : nat)
    (options : SearchOptions) :
  truthy_str (userId options) = true ->
  searchLogs w options = searchLogs w (without_dates options)
  /\ searchLogsWithStats w options = searchLogsWithStats w (without_dates options)
  /\ searchAllLogsWithStats w fuel options
     = searchAllLogsWithStats w fuel (without_dates options)
  /\ trace (fetch_filtered w options)
     = [EvQuery {| q_where := user_where (default "" (userId options));
                   q_limit := maxResults_or_100 options;
                   q_offset := None |}].
Proof.
  intros Hu.
  assert (Hf : fetch_filtered w options = fetch_filtered w (without_dates options)).
  { unfold fetch_filtered. simpl. rewrite Hu. reflexivity. }
  assert (Ha : fetch_all_filtered w fuel options
               = fetch_all_filtered w fuel (without_dates options)).
  { unfold fetch_all_filtered. simpl. rewrite Hu. reflexivity. }
  unfold searchLogs, searchLogsWithStats, searchAllLogsWithStats.
  rewrite Hf, Ha. repeat split.
  rewrite <- Hf. unfold fetch_filtered. rewrite Hu.
  apply getDebugLogsByUser_query.
Qed.

Definition user_and_dates : SearchOptions :=
  {| searchText := "fatal_error"; caseSensitive := None; maxResults := None;
     dateFrom := Some "2024-01-01T00:00:00Z"; dateTo := Some "2024-01-31T00:00:00Z";
     userId := Some "005000000000001" |}.

Lemma user_filter_overrides_dates_witness :
  trace (fetch_filtered (sample_world (db_query three_logs) failing_body)
                        user_and_dates)
  = [EvQuery {| q_where := " WHERE LogUserId = '005000000000001'";
                q_limit := 100; q_offset := None |}].
Proof.
  exact (proj2 (proj2 (proj2
    (user_filter_overrides_dates (sample_world (db_query three_logs) failing_body)
       0 user_and_dates eq_refl)))).
Defined.

(** The page query of a bounded search. *)
Definition filtered_query (options : SearchOptions) : SoqlQuery :=
  {| q_where := if truthy_str (userId options)
                then user_where (default "" (userId options))
                else date_where (dateFrom options) (dateTo options);
     q_limit := maxResults_or_100 options;
     q_offset := None |}.

(** The message of the error a bounded search fails with when its
    page query fails with [e]. *)
Definition page_failure_message (options : SearchOptions) (e : string) : string :=
  if truthy_str (userId options) then
    "Failed to retrieve debug logs for user " +:+ default "" (userId options)
    +:+ ": " +:+ e
  else if truthy_str (dateFrom options) || truthy_str (dateTo options) then
    "Failed to retrieve debug logs by date range: " +:+ e
  else "Failed to retrieve debug logs: " +:+ e.

Lemma client_query_failure (w : World) (q : SoqlQuery) (e : string)
    (h : string -> M (list DebugLog)) :
  http_query w q = inl e ->
  try_catch (client_query w q) h = ([EvQuery q] ++ trace (h e), outcome (h e)).
Proof.
  intros Hq. unfold client_query, emit, bind. rewrite Hq.
  unfold throw, try_catch. destruct (h e). reflexivity.
Qed.

Lemma fetch_filtered_failure (w : World) (options : SearchOptions) (e : string) :
  http_query w (filtered_query options) = inl e ->
  fetch_filtered w options
  = ([EvQuery (filtered_query options)],
     Throw (new_Error (page_failure_message options e))).
Proof.
  unfold fetch_filtered, filtered_query, page_failure_message, getDebugLogsByUser,
    getDebugLogsByDateRange, getDebugLogs.
  destruct (truthy_str (userId options)).
  - intros Hq. cbn [default]. rewrite (client_query_failure _ _ _ _ Hq). reflexivity.
  - destruct (truthy_str (dateFrom options) || truthy_str (dateTo options)) eqn:Hd;
      intros Hq; cbn [default].
    + rewrite (client_query_failure _ _ _ _ Hq). reflexivity.
    + unfold date_where in Hq. rewrite Hd in Hq.
      rewrite (client_query_failure _ _ _ _ Hq).
      unfold date_where. rewrite Hd. reflexivity.
Qed.

(** X16. A bounded search surfaces the failure of its page query: when
    the query fails, [searchLogs] and [searchLogsWithStats] fail with
    the error of the fetch, which carries the cause, and not a single
    body has been requested. *)
Theorem bounded_search_fails_with_its_page (w : World) (options : SearchOptions)
    (e : string) :
  http_query w (filtered_query options) = inl e ->
  searchLogs w options
  = ([EvQuery (filtered_query options)],
     Throw (new_Error (page_failure_message options e)))
  /\ searchLogsWithStats w options
     = ([EvQuery (filtered_query options)],
        Throw (new_Error (page_failure_message options e))).
Proof.
  intros Hq. unfold searchLogs, searchLogsWithStats.
  rewrite (fetch_filtered_failure w options e Hq). split; reflexivity.
Qed.

Definition dead_query (q : SoqlQuery) : string + list DebugLog := inl "ECONNREFUSED".

Lemma bounded_search_fails_with_its_page_witness :
  outcome (searchLogsWithStats (sample_world dead_query no_body) fatal_options)
  = Throw "Error: Failed to retrieve debug logs: ECONNREFUSED".
Proof.
  destruct (bounded_search_fails_with_its_page (sample_world dead_query no_body)
              fatal_options "ECONNREFUSED" eq_refl) as (_ & Hrun).
  rewrite Hrun. reflexivity.
Defined.

Lemma page_loop_dead (w : World) (fuel : nat) (whereClause : string)
    (maxLogs : option Z) :
  (forall q, exists e, http_query w q = inl e) ->
  outcome (page_loop w (S fuel) whereClause maxLogs page_init) = Ok [].
Proof.
  intros Hdead. destruct (loop_guard maxLogs page_init) eqn:Hg.
  - rewrite loop_unfold by assumption.
    destruct (Hdead (page_query whereClause maxLogs page_init)) as (e & Hq).
    rewrite (page_iteration_fail _ _ _ _ _ Hq), bind_ok. reflexivity.
  - rewrite loop_exit by assumption. reflexivity.
Qed.

(** X17. An exhaustive search never fails: no run of
    [searchAllLogsWithStats] ends in an error.  In particular, when
    every page query fails it reports that it searched 0 logs and
    found nothing, where the bounded search reports the failure. *)
Theorem exhaustive_search_never_fails (w : World) (options : SearchOptions) :
  (forall fuel e, outcome (searchAllLogsWithStats w fuel options) <> Throw e)
  /\ ((forall q, exists e, http_query w q = inl e) ->
      (forall fuel,
          outcome (searchAllLogsWithStats w (S fuel) options) = Ok ([], 0))
      /\ exists e, outcome (searchLogsWithStats w options) = Throw e).
Proof.
  split.
  - intros fuel e. unfold searchAllLogsWithStats.
    destruct (fetch_all_filtered w fuel options) as [t [logs|e'|]] eqn:Hf.
    + rewrite bind_ok, search_loop_all, bind_ok. discriminate.
    + exfalso.
      assert (H : outcome (fetch_all_filtered w fuel options) = Throw e')
        by (rewrite Hf; reflexivity).
      unfold fetch_all_filtered, getAllDebugLogsByUser, getAllDebugLogsByDateRange,
        getAllDebugLogs in H.
      destruct (truthy_str (userId options));
        [|destruct (truthy_str (dateFrom options) || truthy_str (dateTo options))];
        apply loop_never_throws in H; exact H.
    + discriminate.
  - intros Hdead. split.
    + intros fuel.
      assert (Hf : outcome (fetch_all_filtered w (S fuel) options) = Ok []).
      { unfold fetch_all_filtered, getAllDebugLogsByUser,
          getAllDebugLogsByDateRange, getAllDebugLogs.
        destruct (truthy_str (userId options));
          [|destruct (truthy_str (dateFrom options) || truthy_str (dateTo options))];
          apply page_loop_dead; exact Hdead. }
      unfold searchAllLogsWithStats.
      destruct (fetch_all_filtered w (S fuel) options) as [t r].
      rewrite outcome_pair in Hf. subst r.
      rewrite bind_ok, search_loop_all, bind_ok. reflexivity.
    + destruct (Hdead (filtered_query options)) as (e & Hq).
      eexists. unfold searchLogsWithStats.
      rewrite (fetch_filtered_failure w options e Hq). reflexivity.
Qed.

Lemma exhaustive_search_never_fails_witness :
  let w := sample_world dead_query no_body in
  outcome (searchAllLogsWithStats w 1 fatal_options) = Ok ([], 0)
  /\ exists e, outcome (searchLogsWithStats w fatal_options) = Throw e.
Proof.
  intros w.
  destruct (proj2 (exhaustive_search_never_fails w fatal_options)
              (fun q => ex_intro _ "ECONNREFUSED" eq_refl)) as [Hall Hone].
  split; [exact (Hall 0%nat) | exact Hone].
Defined.

Lemma found_logs_sublist (w : World) (options : SearchOptions)
    (logs : list DebugLog) :
  sublist (map log (flat_map (found_one w options) logs)) logs.
Proof.
  induction logs as [|l logs IH]; simpl; [constructor|].
  rewrite map_app. unfold found_one at 1.
  destruct (http_body w (Id l)) as [e|body]; simpl; [apply sublist_cons, IH|].
  destruct (0 <? _); simpl; [apply sublist_skip, IH | apply sublist_cons, IH].
Qed.

Lemma found_matches_nonempty (w : World) (options : SearchOptions)
    (logs : list DebugLog) :
  Forall (fun r => matches r <> []) (flat_map (found_one w options) logs).
Proof.
  apply List.Forall_forall. intros r Hr.
  apply in_flat_map in Hr as (l & _ & Hr).
  apply found_one_log in Hr as (_ & Hne & _). exact Hne.
Qed.

(** X18. What a search with statistics returns is well formed: every
    result carries at least one match, the results list their records
    in the order the records were fetched, at most one result per
    record examined, and the count of records searched is the number
    fetched, so it is never below the number of results.  This holds
    for the bounded and for the exhaustive search. *)
Theorem search_results_well_formed (w : World) (fuel : nat)
    (options : SearchOptions) (useAllLogs : bool)
    (results : list SearchResult) (total : Z) :
  outcome (if useAllLogs then searchAllLogsWithStats w fuel options
           else searchLogsWithStats w options) = Ok (results, total) ->
  Forall (fun r => matches r <> []) results
  /\ len results <= total
  /\ exists logs,
       outcome (if useAllLogs then fetch_all_filtered w fuel options
                else fetch_filtered w options) = Ok logs
       /\ total = len logs
       /\ sublist (map log results) logs.
Proof.
  intros Hrun.
  assert (Hlogs : exists t logs,
             (if useAllLogs then fetch_all_filtered w fuel options
              else fetch_filtered w options) = (t, Ok logs)
             /\ results = flat_map (found_one w options) logs
             /\ total = len logs).
  { destruct useAllLogs.
    - unfold searchAllLogsWithStats in Hrun.
      destruct (fetch_all_filtered w fuel options) as [t [logs|e|]];
        try discriminate.
      rewrite bind_ok, search_loop_all, bind_ok in Hrun.
      injection Hrun as <- <-. eauto.
    - unfold searchLogsWithStats in Hrun.
      destruct (fetch_filtered w options) as [t [logs|e|]]; try discriminate.
      rewrite bind_ok, search_loop_all, bind_ok in Hrun.
      injection Hrun as <- <-. eauto. }
  destruct Hlogs as (t & logs & Hf & -> & ->).
  split; [apply found_matches_nonempty|].
  split; [apply found_count|].
  exists logs. rewrite Hf. split; [reflexivity|]. split; [reflexivity|].
  apply found_logs_sublist.
Qed.

Lemma search_results_well_formed_witness :
  let w := sample_world (db_query three_logs) failing_body in
  outcome (searchLogsWithStats w fatal_options) = Ok (fatal_results, 3)
  /\ len fatal_results <= 3.
Proof.
  intros w. split; [reflexivity|].
  exact (proj1 (proj2 (search_results_well_formed w 0 fatal_options false
                         fatal_results 3 eq_refl))).
Defined.

(** ** Several patterns *)

Section MultiSearchRun.
Context (w : World) (options : SearchOptions).

Lemma fetch_filtered_ignores_text (pattern : string) :
  fetch_filtered w (with_searchText options pattern) = fetch_filtered w options.
Proof. reflexivity. Qed.

(** What one pattern finds in [logs]. *)
Definition pattern_results (logs : list DebugLog) (pattern : string)
  : list SearchResult :=
  flat_map (found_one w (with_searchText options pattern)) logs.

Lemma search_pattern_run (tq : list Event) (logs : list DebugLog)
    (results : gmap string (list SearchResult)) (pattern : string) :
  fetch_filtered w options = (tq, Ok logs) ->
  search_pattern w options results pattern
  = (tq ++ flat_map (examine_events w) logs,
     Ok (<[pattern := pattern_results logs pattern]> results)).
Proof.
  intros Hf. unfold search_pattern.
  rewrite (searchLogs_run w (with_searchText options pattern) tq logs)
    by (rewrite fetch_filtered_ignores_text; exact Hf).
  rewrite bind_ok. simpl. rewrite app_nil_r. reflexivity.
Qed.

Lemma pattern_loop_run (tq : list Event) (logs : list DebugLog)
    (patterns : list string) (results : gmap string (list SearchResult)) :
  fetch_filtered w options = (tq, Ok logs) ->
  exists found,
    for_each (search_pattern w options) patterns results
    = (flat_map (fun _ => tq ++ flat_map (examine_events w) logs) patterns,
       Ok found)
    /\ forall pattern,
         found !! pattern
         = if decide (pattern ∈ patterns)
           then Some (pattern_results logs pattern)
           else results !! pattern.
Proof.
  intros Hf. revert results.
  induction patterns as [|p patterns IH]; intros results.
  - exists results. split; [reflexivity|]. intros pattern.
    destruct (decide (pattern ∈ [])) as [Hin|_]; [|reflexivity].
    apply elem_of_nil in Hin. destruct Hin.
  - destruct (IH (<[p := pattern_results logs p]> results)) as (found & Hrun & Hfound).
    exists found. split.
    + rewrite for_each_cons, (search_pattern_run tq logs _ _ Hf), bind_ok, Hrun.
      reflexivity.
    + intros pattern. rewrite Hfound.
      destruct (decide (pattern ∈ patterns)) as [Hin|Hin],
               (decide (pattern ∈ p :: patterns)) as [Hin'|Hin'];
        try reflexivity.
      * exfalso. apply Hin'. right. exact Hin.
      * apply elem_of_cons in Hin' as [-> | Hin']; [|contradiction].
        apply lookup_insert_eq.
      * rewrite lookup_insert_ne; [reflexivity|].
        intros ->. apply Hin'. left.
Qed.

End MultiSearchRun.

(** X19. [searchMultiplePatterns] runs one whole bounded search per
    pattern: when the page query succeeds, each pattern of the list is
    mapped to what a search for it finds in the fetched records, no
    other key is present, and the page query and every body request
    are repeated once per pattern.  When the page query fails and
    there is a pattern, the call fails with no mapping at all. *)
Theorem searchMultiplePatterns_searches_each_pattern (w : World)
    (options : SearchOptions) (patterns : list string) :
  (forall tq logs,
      fetch_filtered w options = (tq, Ok logs) ->
      exists found,
        searchMultiplePatterns w patterns options
        = (flat_map (fun _ => tq ++ flat_map (examine_events w) logs) patterns,
           Ok found)
        /\ forall pattern,
             found !! pattern
             = if decide (pattern ∈ patterns)
               then Some (pattern_results w options logs pattern)
               else None)
  /\ (forall tq e p rest,
        fetch_filtered w options = (tq, Throw e) -> patterns = p :: rest ->
        searchMultiplePatterns w patterns options = (tq, Throw e)).
Proof.
  split.
  - intros tq logs Hf.
    destruct (pattern_loop_run w options tq logs patterns ∅ Hf)
      as (found & Hrun & Hfound).
    exists found. split; [exact Hrun|]. intros pattern.
    rewrite Hfound, lookup_empty. reflexivity.
  - intros tq e p rest Hf ->. unfold searchMultiplePatterns.
    rewrite for_each_cons. unfold search_pattern, searchLogs.
    rewrite fetch_filtered_ignores_text, Hf. reflexivity.
Qed.

Lemma searchMultiplePatterns_searches_each_pattern_witness :
  let w := sample_world (db_query three_logs) failing_body in
  exists found,
    outcome (searchMultiplePatterns w ["fatal_error"; "limit"] fatal_options)
    = Ok found
    /\ found !! "fatal_error" = Some fatal_results
    /\ found !! "timeout" = None.
Proof.
  intros w.
  destruct (proj1 (searchMultiplePatterns_searches_each_pattern w fatal_options
                     ["fatal_error"; "limit"])
              (trace (fetch_filtered w fatal_options)) three_logs eq_refl)
    as (found & Hrun & Hfound).
  exists found. split; [rewrite Hrun; reflexivity|].
  split; [rewrite Hfound; reflexivity | rewrite Hfound; reflexivity].
Defined.

(** ** Counting *)

Lemma client_query_success (w : World) (q : SoqlQuery) (logs : list DebugLog)
    (h : string -> M (list DebugLog)) :
  http_query w q = inr logs ->
  try_catch (client_query w q) h = ([EvQuery q], Ok logs).
Proof.
  intros Hq. unfold client_query, emit, bind. rewrite Hq. reflexivity.
Qed.

Lemma fetch_filtered_success (w : World) (options : SearchOptions)
    (logs : list DebugLog) :
  http_query w (filtered_query options) = inr logs ->
  fetch_filtered w options = ([EvQuery (filtered_query options)], Ok logs).
Proof.
  unfold fetch_filtered, filtered_query, getDebugLogsByUser,
    getDebugLogsByDateRange, getDebugLogs.
  destruct (truthy_str (userId options)).
  - intros Hq. cbn [default]. apply (client_query_success _ _ _ _ Hq).
  - destruct (truthy_str (dateFrom options) || truthy_str (dateTo options)) eqn:Hd;
      intros Hq; cbn [default].
    + apply (client_query_success _ _ _ _ Hq).
    + unfold date_where in Hq. rewrite Hd in Hq.
      rewrite (client_query_success _ _ _ _ Hq).
      unfold date_where. rewrite Hd. reflexivity.
Qed.

(** The filters of [estimateLogCount] as search options, with the
    sample size as limit. *)
Definition estimate_options (userId dateFrom dateTo : option string)
  : SearchOptions :=
  {| searchText := ""; caseSensitive := None; maxResults := Some 200;
     dateFrom := dateFrom; dateTo := dateTo; userId := userId |}.

Lemma estimateLogCount_run (w : World) (userId dateFrom dateTo : option string) :
  let q := filtered_query (estimate_options userId dateFrom dateTo) in
  estimateLogCount w userId dateFrom dateTo
  = ([EvQuery q],
     match http_query w q with
     | inr logs => Ok (len logs)
     | inl e =>
         Throw (new_Error
                  ("Failed to estimate log count: "
                   +:+ new_Error (page_failure_message
                                    (estimate_options userId dateFrom dateTo) e)))
     end).
Proof.
  intros q. unfold estimateLogCount.
  change (if truthy_str userId
          then getDebugLogsByUser w (default "" userId) (Some 200)
          else if truthy_str dateFrom || truthy_str dateTo
               then getDebugLogsByDateRange w dateFrom dateTo (Some 200)
               else getDebugLogs w (Some 200))
    with (fetch_filtered w (estimate_options userId dateFrom dateTo)).
  destruct (http_query w q) as [e|logs] eqn:Hq.
  - rewrite (fetch_filtered_failure _ _ _ Hq). reflexivity.
  - rewrite (fetch_filtered_success _ _ _ Hq), bind_ok.
    destruct (len logs <? 200); reflexivity.
Qed.

Lemma estimateLogCount_bound (w : World) (userId dateFrom dateTo : option string)
    (n : Z) :
  pages_within_limit w ->
  outcome (estimateLogCount w userId dateFrom dateTo) = Ok n -> 0 <= n <= 200.
Proof.
  intros Hw Hn. rewrite estimateLogCount_run, outcome_pair in Hn.
  destruct (http_query w _) as [e|logs] eqn:Hq; [discriminate|].
  injection Hn as <-. apply Hw in Hq. unfold len in *.
  change (q_limit (filtered_query (estimate_options userId dateFrom dateTo)))
    with 200 in Hq.
  lia.
Qed.

(** X20. [estimateLogCount] issues one page query with [LIMIT 200] and
    returns the number of records on that page, so against a store
    that keeps to the limit the estimate never exceeds 200, however
    many records exist; a failed query is reported as a failure to
    estimate.  With a user id the date filters play no part. *)
Theorem estimateLogCount_is_one_page (w : World)
    (userId dateFrom dateTo : option string) :
  let q := filtered_query (estimate_options userId dateFrom dateTo) in
  trace (estimateLogCount w userId dateFrom dateTo) = [EvQuery q]
  /\ q_limit q = 200
  /\ (forall logs, http_query w q = inr logs ->
        outcome (estimateLogCount w userId dateFrom dateTo) = Ok (len logs))
  /\ (forall e, http_query w q = inl e ->
        exists message,
          outcome (estimateLogCount w userId dateFrom dateTo)
          = Throw (new_Error ("Failed to estimate log count: " +:+ message)))
  /\ (pages_within_limit w ->
      forall n, outcome (estimateLogCount w userId dateFrom dateTo) = Ok n ->
                0 <= n <= 200)
  /\ (truthy_str userId = true ->
      estimateLogCount w userId dateFrom dateTo
      = estimateLogCount w userId None None).
Proof.
  intros q. pose proof (estimateLogCount_run w userId dateFrom dateTo) as Hrun.
  fold q in Hrun. cbv zeta in Hrun.
  split; [rewrite Hrun; reflexivity|].
  split; [reflexivity|].
  split; [intros logs Hq; rewrite Hrun, Hq; reflexivity|].
  split; [intros e Hq; rewrite Hrun, Hq; eexists; reflexivity|].
  split.
  - intros Hw n Hn. exact (estimateLogCount_bound _ _ _ _ _ Hw Hn).
  - intros Hu. unfold estimateLogCount. rewrite Hu. reflexivity.
Qed.

Lemma estimateLogCount_is_one_page_witness :
  let w := sample_world (db_query three_logs) failing_body in
  outcome (estimateLogCount w None None None) = Ok 3
  /\ (exists message,
        outcome (estimateLogCount (sample_world dead_query no_body) None None None)
        = Throw (new_Error ("Failed to estimate log count: " +:+ message))).
Proof.
  intros w. split.
  - exact (proj1 (proj2 (proj2 (estimateLogCount_is_one_page w None None None)))
             three_logs eq_refl).
  - exact (proj1 (proj2 (proj2 (proj2
             (estimateLogCount_is_one_page (sample_world dead_query no_body)
                None None None))))
             "ECONNREFUSED" eq_refl).
Defined.

Section CountRun.
Context (w : World) (count_query : string -> string + list (option Z)).

Lemma getDebugLogCount_run (userId dateFrom dateTo : option string) :
  getDebugLogCount w count_query userId dateFrom dateTo
  = match count_query (count_where userId dateFrom dateTo) with
    | inr records =>
        ([], Ok (match records with
                 | Some n :: _ => n
                 | _ => 0
                 end))
    | inl e =>
        (EvWarn "COUNT query failed, using estimation method"
           :: trace (estimateLogCount w userId dateFrom dateTo),
         outcome (estimateLogCount w userId dateFrom dateTo))
    end.
Proof.
  unfold getDebugLogCount.
  destruct (count_query (count_where userId dateFrom dateTo)) as [e|records].
  - unfold throw, try_catch, emit. rewrite bind_ok. reflexivity.
  - unfold ret, try_catch. repeat f_equal.
    destruct records as [|[n|] rest]; try reflexivity.
    unfold truthy_num. simpl. destruct (Z.eqb_spec n 0) as [->|]; reflexivity.
Qed.

End CountRun.

(** X21. [getDebugLogCount] returns the [totalCount] of the first
    record of the aggregate answer, and 0 when the answer holds no
    record or no count; it issues no page query then.  When the
    aggregate request fails it returns, or fails with, whatever
    [estimateLogCount] does, so against a store that keeps to the
    limit the fallback count is at most 200. *)
Theorem getDebugLogCount_falls_back_to_estimate (w : World)
    (count_query : string -> string + list (option Z))
    (userId dateFrom dateTo : option string) :
  let run := getDebugLogCount w count_query userId dateFrom dateTo in
  let answer := count_query (count_where userId dateFrom dateTo) in
  (forall n rest, answer = inr (Some n :: rest) -> run = ([], Ok n))
  /\ (forall rest, answer = inr [] \/ answer = inr (None :: rest) ->
        run = ([], Ok 0))
  /\ (forall e, answer = inl e ->
        outcome run = outcome (estimateLogCount w userId dateFrom dateTo)
        /\ (pages_within_limit w -> forall n, outcome run = Ok n -> 0 <= n <= 200)).
Proof.
  intros run answer. subst run answer.
  rewrite getDebugLogCount_run.
  split; [intros n rest ->; reflexivity|].
  split; [intros rest [-> | ->]; reflexivity|].
  intros e ->. rewrite outcome_pair. split; [reflexivity|].
  intros Hw n Hn. exact (estimateLogCount_bound _ _ _ _ _ Hw Hn).
Qed.

Lemma getDebugLogCount_falls_back_to_estimate_witness :
  let w := sample_world (db_query three_logs) failing_body in
  getDebugLogCount w (fun _ => inr [Some 4207]) None None None = ([], Ok 4207)
  /\ getDebugLogCount w (fun _ => inr []) None None None = ([], Ok 0)
  /\ outcome (getDebugLogCount w (fun _ => inl "MALFORMED_QUERY") None None None)
     = outcome (estimateLogCount w None None None).
Proof.
  intros w. split; [|split].
  - exact (proj1 (getDebugLogCount_falls_back_to_estimate w
                    (fun _ => inr [Some 4207]) None None None)
             4207 [] eq_refl).
  - exact (proj1 (proj2 (getDebugLogCount_falls_back_to_estimate w
                           (fun _ => inr []) None None None))
             [] (or_introl eq_refl)).
  - exact (proj1 (proj2 (proj2 (getDebugLogCount_falls_back_to_estimate w
                                  (fun _ => inl "MALFORMED_QUERY") None None None))
                    "MALFORMED_QUERY" eq_refl)).
Defined.

(** ** File names and the size estimate *)




Lemma estimate_from (logs : list DebugLog) (start : Z) :
  fold_left (fun total log => total + getApproximateFileSize (LogLength log))
            logs start
  = start + fold_right (fun log total => LogLength log + total) 0 logs
    + 1024 * len logs.
Proof.
  revert start. unfold len, getApproximateFileSize.
  induction logs as [|l logs IH]; intros start; simpl; [lia|].
  rewrite IH. lia.
Qed.

(** X23. The disk-space check always reports enough space, whether
    the parent of the output directory exists or not, after probing
    it once; the size it estimates is the sum of the declared log
    lengths plus 1024 bytes per log, and 0 for no log. *)
Theorem checkDiskSpace_always_has_space (w : World) (logs : list DebugLog)
    (dir : string) :
  checkDiskSpace w logs dir
  = ([EvExists (path_dirname w dir)],
     Ok (true,
         fold_right (fun log total => LogLength log + total) 0 logs
         + 1024 * len logs))
  /\ outcome (checkDiskSpace w [] dir) = Ok (true, 0).
Proof.
  split.
  - rewrite checkDiskSpace_run, estimate_from. reflexivity.
  - rewrite checkDiskSpace_run. reflexivity.
Qed.

(** ** Cost of the bulk body fetch *)

(** The ids of the body requests among the events, in order. *)
Definition body_requests (t : list Event) : list string :=
  flat_map (fun e => match e with EvBody logId => [logId] | _ => [] end) t.

(** The pauses among the events, in order. *)
Definition pauses (t : list Event) : list Z :=
  flat_map (fun e => match e with EvSleep ms => [ms] | _ => [] end) t.

Lemma fetch_events_requests (w : World) (g : list string) :
  body_requests (flat_map (fetch_events w) g) = g
  /\ pauses (flat_map (fetch_events w) g) = [].
Proof.
  unfold body_requests, pauses.
  induction g as [|id g [IHb IHp]]; [split; reflexivity|].
  simpl. rewrite !flat_map_app, IHb, IHp. unfold fetch_events.
  destruct (http_body w id); split; reflexivity.
Qed.

Lemma batch_trace_requests (w : World) (gs : list (list string)) :
  body_requests (batch_trace w gs) = concat gs
  /\ pauses (batch_trace w gs) = replicate (length gs - 1) 100.
Proof.
  induction gs as [|g gs [IHb IHp]]; [split; reflexivity|].
  change (batch_trace w (g :: gs))
    with (flat_map (fetch_events w) g
          ++ (match gs with [] => [] | _ :: _ => [EvSleep 100] end)
          ++ batch_trace w gs).
  destruct (fetch_events_requests w g) as [Hb Hp].
  unfold body_requests, pauses in *. rewrite !flat_map_app, Hb, Hp, IHb, IHp.
  destruct gs as [|g' gs]; simpl; [split; reflexivity|].
  rewrite Nat.sub_0_r. split; reflexivity.
Qed.

Lemma groups_count (n : nat) (rest : list string) :
  (length rest <= n)%nat ->
  length (groups n rest) = ((length rest + 9) / 10)%nat.
Proof.
  revert rest. induction n as [|n IH]; intros rest Hlen.
  - destruct rest; [reflexivity | simpl in Hlen; lia].
  - destruct rest as [|x rest]; [reflexivity|].
    rewrite groups_step by discriminate.
    change (length (take 10 (x :: rest) :: groups n (drop 10 (x :: rest))))
      with (S (length (groups n (drop 10 (x :: rest))))).
    rewrite IH by (rewrite length_drop; simpl in *; lia).
    rewrite length_drop.
    set (L := length (x :: rest)).
    assert (HL : (1 <= L)%nat) by (subst L; simpl; lia).
    clearbody L.
    destruct (le_lt_dec L 10) as [Hsmall | Hbig].
    + replace (L - 10)%nat with 0%nat by lia.
      change ((0 + 9) / 10)%nat with 0%nat.
      apply (Nat.div_unique _ 10 1 (L - 1)); lia.
    + replace (L + 9)%nat with ((L - 10 + 9) + 1 * 10)%nat by lia.
      rewrite Nat.div_add by lia. lia.
Qed.

(** X24. For [n] ids the bulk body fetch requests each id of the list
    once, in list order, also when requests fail, and pauses 100 ms
    between two groups: one pause less than the number of groups of
    ten, none for ten ids or fewer. *)
Theorem getDebugLogBodies_requests_and_pauses (w : World) (logIds : list string) :
  body_requests (trace (getDebugLogBodies w logIds)) = logIds
  /\ pauses (trace (getDebugLogBodies w logIds))
     = replicate ((length logIds + 9) / 10 - 1) 100
  /\ ((length logIds <= 10)%nat -> pauses (trace (getDebugLogBodies w logIds)) = []).
Proof.
  rewrite getDebugLogBodies_run, trace_pair.
  destruct (batch_trace_requests w (groups_of logIds)) as [Hb Hp].
  assert (Hcount : length (groups_of logIds) = ((length logIds + 9) / 10)%nat).
  { apply groups_count. lia. }
  rewrite Hb, Hp, Hcount. split; [apply groups_concat; lia|].
  split; [reflexivity|].
  intros Hsmall.
  assert (Hle : ((length logIds + 9) / 10 < 2)%nat).
  { apply Nat.Div0.div_lt_upper_bound. lia. }
  replace ((length logIds + 9) / 10 - 1)%nat with 0%nat by lia. reflexivity.
Qed.

(** ** The three searches compared *)

(** X25. [searchLogs] and [searchLogsWithStats] agree: on the same
    options they make the same requests and warnings in the same
    order, and the first returns exactly the results of the second,
    or fails with the same error. *)
Theorem searchLogs_agrees_with_searchLogsWithStats (w : World)
    (options : SearchOptions) :
  trace (searchLogs w options) = trace (searchLogsWithStats w options)
  /\ outcome (searchLogs w options)
     = match outcome (searchLogsWithStats w options) with
       | Ok (results, _) => Ok results
       | Throw e => Throw e
       | OutOfFuel => OutOfFuel
       end.
Proof.
  destruct (fetch_filtered w options) as [tq [logs|e|]] eqn:Hfetch.
  - rewrite (searchLogs_run w options tq logs Hfetch),
      (searchLogsWithStats_run w options tq logs Hfetch).
    split; reflexivity.
  - unfold searchLogs, searchLogsWithStats. rewrite Hfetch. split; reflexivity.
  - unfold searchLogs, searchLogsWithStats. rewrite Hfetch. split; reflexivity.
Qed.

Lemma fetch_all_filtered_loop (w : World) (fuel : nat) (options : SearchOptions) :
  fetch_all_filtered w fuel options
  = page_loop w fuel (q_where (filtered_query options)) (maxResults options)
              page_init.
Proof.
  unfold fetch_all_filtered, filtered_query, getAllDebugLogsByUser,
    getAllDebugLogsByDateRange, getAllDebugLogs.
  cbn [q_where].
  destruct (truthy_str (userId options)); [reflexivity|].
  destruct (truthy_str (dateFrom options) || truthy_str (dateTo options)) eqn:Hd;
    [reflexivity|].
  unfold date_where. rewrite Hd. reflexivity.
Qed.

(** X26. Against a store that answers every query under the options'
    filter with the window of its records the query asks for, the
    bounded search examines the first [maxResults] records, 100 when
    [maxResults] is unset or zero.  The exhaustive search with a
    [maxResults] returns the very same results and count; without
    one it examines the whole store, and its results start with those
    of the bounded search. *)
Theorem bounded_search_is_prefix_of_exhaustive (w : World) (fuel : nat)
    (options : SearchOptions) (db : list DebugLog) :
  let whereClause := q_where (filtered_query options) in
  let k := Z.to_nat (maxResults_or_100 options) in
  let found := flat_map (found_one w options) in
  windowed_store w whereClause db ->
  (forall limit, 0 <= limit ->
     http_query w {| q_where := whereClause; q_limit := limit; q_offset := None |}
     = inr (take (Z.to_nat limit) db)) ->
  (length db < fuel)%nat ->
  0 <= maxResults_or_100 options ->
  outcome (searchLogsWithStats w options)
  = Ok (found (take k db), len (take k db))
  /\ outcome (searchAllLogsWithStats w fuel options)
     = Ok (if truthy_num (maxResults options)
           then (found (take k db), len (take k db))
           else (found (take k db) ++ found (drop k db), len db)).
Proof.
  intros whereClause k found Hpaged Hplain Hfuel Hlimit.
  subst whereClause. split.
  - assert (Hfetch : fetch_filtered w options
                     = ([EvQuery (filtered_query options)], Ok (take k db))).
    { apply fetch_filtered_success. exact (Hplain _ Hlimit). }
    rewrite (searchLogsWithStats_run w options _ _ Hfetch). reflexivity.
  - destruct (fetch_all_filtered w fuel options) as [tq r] eqn:Hfetch.
    assert (Hr : r = Ok (if truthy_num (maxResults options)
                         then take (Z.to_nat (default 0 (maxResults options))) db
                         else db)).
    { rewrite <- (paging_returns_prefix w _ (maxResults options) db fuel
                    Hpaged Hfuel).
      rewrite <- fetch_all_filtered_loop, Hfetch. reflexivity. }
    subst r.
    rewrite (searchAllLogsWithStats_run w options fuel _ _ Hfetch), outcome_pair.
    subst k found. unfold maxResults_or_100.
    destruct (truthy_num (maxResults options)); [reflexivity|].
    rewrite <- flat_map_app, take_drop. reflexivity.
Qed.

Lemma bounded_search_is_prefix_of_exhaustive_witness :
  let w := sample_world (db_query three_logs) failing_body in
  outcome (searchLogsWithStats w fatal_options) = Ok (fatal_results, 3)
  /\ outcome (searchAllLogsWithStats w 4 fatal_options) = Ok (fatal_results, 3).
Proof.
  intros w.
  destruct (bounded_search_is_prefix_of_exhaustive w 4 fatal_options three_logs
              (db_windowed_store three_logs failing_body _)
              (fun limit _ => eq_refl) ltac:(simpl; lia) ltac:(discriminate))
    as [Hbounded Hall].
  split; [rewrite Hbounded | rewrite Hall]; reflexivity.
Defined.
